(** * Log ingestion and parsing engine of the collector ([logs/parse.go])

    A shallow embedding of [ParseLogLineWithPrefix], [ParseAndAnalyzeBuffer]
    and [DebugParseAndAnalyzeBuffer], together with the part of Go's
    [regexp], [strings], [strconv] and [bufio] packages they rely on.

    Go strings are byte sequences: they are modelled as [string], one
    [ascii] per byte, and [len] is [String.length].  [int64] values are
    integers of [Z] wrapped into the signed 64-bit range after every
    addition. *)

From Stdlib Require Import String Ascii List ZArith Lia Bool Arith Sorted.
Import ListNotations.
Open Scope string_scope.

(** ** Bytes and strings *)

Definition newline : ascii := "010"%char.
Definition tab : ascii := "009"%char.
Definition nl : string := String newline "".

Definition byte_in (lo hi : N) (c : ascii) : bool :=
  let n := N_of_ascii c in (N.leb lo n && N.leb n hi)%bool.

(** [s[0:n]] *)
Fixpoint take (n : nat) (s : string) : string :=
  match n, s with
  | S n', String c s' => String c (take n' s')
  | _, _ => ""
  end.

(** [s[n:]] *)
Fixpoint drop (n : nat) (s : string) : string :=
  match n, s with
  | S n', String _ s' => drop n' s'
  | _, _ => s
  end.

(** [strings.HasPrefix] *)
Fixpoint HasPrefix (s p : string) {struct p} : bool :=
  match p, s with
  | "", _ => true
  | String a p', String b s' => (Ascii.eqb a b && HasPrefix s' p')%bool
  | _, _ => false
  end.

(** [strings.Replace(s, old, new, -1)] for a non-empty [old]: every
    non-overlapping occurrence, leftmost first.  [skip] counts the bytes of
    an occurrence that is already replaced and still has to be passed. *)
Fixpoint replace_from (skip : nat) (old new s : string) : string :=
  match s with
  | "" => ""
  | String c s' =>
      match skip with
      | S k => replace_from k old new s'
      | 0 => if HasPrefix s old
             then new ++ replace_from (String.length old - 1) old new s'
             else String c (replace_from 0 old new s')
      end
  end.

Definition Replace (s old new : string) : string := replace_from 0 old new s.

(** ** The [regexp] package

    The patterns of [parse.go] use literals, the Perl classes [\d \w \s \S],
    [.], bracket classes without ranges, capturing and [(?:] groups, the
    greedy quantifiers [? * + {n}] and the anchors [^ $].  Matching is
    leftmost-first: the match is the one a backtracking matcher finds first,
    which is what the continuation-passing matcher [exec] computes.  The
    Perl classes are ASCII-only and every other construct compares single
    bytes, so matching byte by byte agrees with matching rune by rune. *)

Module Regexp.

Inductive atom : Type :=
| Digit            (* \d *)
| Word             (* \w *)
| Space            (* \s *)
| NotSpace         (* \S *)
| Dot              (* .  : any byte but newline *)
| Ch (c : ascii).  (* a literal byte *)

Definition is_digit (c : ascii) : bool := byte_in 48 57 c.
Definition is_word (c : ascii) : bool :=
  (is_digit c || byte_in 65 90 c || byte_in 97 122 c || Ascii.eqb c "_")%bool.
Definition is_space (c : ascii) : bool :=
  (Ascii.eqb c tab || Ascii.eqb c newline || Ascii.eqb c "012"
   || Ascii.eqb c "013" || Ascii.eqb c " ")%bool.

Definition atom_matches (a : atom) (c : ascii) : bool :=
  match a with
  | Digit => is_digit c
  | Word => is_word c
  | Space => is_space c
  | NotSpace => negb (is_space c)
  | Dot => negb (Ascii.eqb c newline)
  | Ch c' => Ascii.eqb c c'
  end.

Definition class_matches (l : list atom) (c : ascii) : bool :=
  existsb (fun a => atom_matches a c) l.

Inductive regex : Type :=
| Empty
| One (l : list atom)                           (* one byte of a class *)
| Bol                                           (* ^ : start of text *)
| Eol                                           (* $ : end of text *)
| Cat (r1 r2 : regex)
| Rep (mn : nat) (mx : option nat) (r : regex)  (* greedy r{mn,mx} *)
| Group (i : nat) (r : regex).                  (* i-th capturing group *)

(** *** Compiling a pattern ([regexp.MustCompile]) *)

Definition is_meta (c : ascii) : bool :=
  existsb (Ascii.eqb c)
    ["\"; "."; "+"; "*"; "?"; "("; ")"; "|"; "["; "]"; "{"; "}"; "^"; "$"]%char.

(** The atom an escape [\c] stands for. *)
Definition escape (c : ascii) : option atom :=
  if Ascii.eqb c "d" then Some Digit
  else if Ascii.eqb c "w" then Some Word
  else if Ascii.eqb c "s" then Some Space
  else if Ascii.eqb c "S" then Some NotSpace
  else if Ascii.eqb c "n" then Some (Ch newline)
  else if is_word c then None
  else Some (Ch c).

(** The items of a bracket class, up to the closing bracket. *)
Fixpoint parse_class (s : string) : option (list atom * string) :=
  match s with
  | "" => None
  | String "]" s' => Some ([], s')
  | String "\" (String c s') =>
      match escape c, parse_class s' with
      | Some a, Some (l, rest) => Some (a :: l, rest)
      | _, _ => None
      end
  | String "\" "" => None
  | String "-" (String "]" s') => Some ([Ch "-"], s')
  | String "-" _ => None
  | String "^" _ => None
  | String c s' =>
      match parse_class s' with
      | Some (l, rest) => Some (Ch c :: l, rest)
      | None => None
      end
  end.

Fixpoint parse_nat (acc : nat) (s : string) : nat * string :=
  match s with
  | String c s' =>
      if is_digit c then parse_nat (10 * acc + (nat_of_ascii c - 48)) s'
      else (acc, s)
  | "" => (acc, s)
  end.

(** The quantifiers that follow an atom. *)
Fixpoint parse_quant (fuel : nat) (r : regex) (s : string) : option (regex * string) :=
  match fuel with
  | 0 => None
  | S fuel' =>
      match s with
      | String "?" s' => parse_quant fuel' (Rep 0 (Some 1) r) s'
      | String "*" s' => parse_quant fuel' (Rep 0 None r) s'
      | String "+" s' => parse_quant fuel' (Rep 1 None r) s'
      | String "{" (String c s') =>
          if is_digit c then
            match parse_nat 0 (String c s') with
            | (n, String "}" rest) => parse_quant fuel' (Rep n (Some n) r) rest
            | _ => None
            end
          else None
      | _ => Some (r, s)
      end
  end.

(** A sequence of quantified atoms, up to the end of the pattern or an
    unmatched closing parenthesis; [gi] is the number of the next capturing
    group. *)
Fixpoint parse_seq (fuel : nat) (gi : nat) (s : string) : option (regex * nat * string) :=
  match fuel with
  | 0 => None
  | S fuel' =>
      let quantified (r : regex) (gi' : nat) (rest : string) :=
        match parse_quant fuel' r rest with
        | Some (q, rest') =>
            match parse_seq fuel' gi' rest' with
            | Some (tl, gi'', rest'') => Some (Cat q tl, gi'', rest'')
            | None => None
            end
        | None => None
        end in
      match s with
      | "" => Some (Empty, gi, s)
      | String ")" _ => Some (Empty, gi, s)
      | String "(" (String "?" (String ":" s')) =>
          match parse_seq fuel' gi s' with
          | Some (r, gi', String ")" rest) => quantified r gi' rest
          | _ => None
          end
      | String "(" s' =>
          match parse_seq fuel' (S gi) s' with
          | Some (r, gi', String ")" rest) => quantified (Group gi r) gi' rest
          | _ => None
          end
      | String "[" s' =>
          match parse_class s' with
          | Some (l, rest) => quantified (One l) gi rest
          | None => None
          end
      | String "\" (String c s') =>
          match escape c with
          | Some a => quantified (One [a]) gi s'
          | None => None
          end
      | String "." s' => quantified (One [Dot]) gi s'
      | String "^" s' => quantified Bol gi s'
      | String "$" s' => quantified Eol gi s'
      | String c s' =>
          if is_meta c then None else quantified (One [Ch c]) gi s'
      end
  end.

(** A compiled pattern: its syntax tree and the number of its capturing
    groups. *)
Record Regexp : Type := { re : regex; ngroups : nat }.

Definition Compile (pattern : string) : option Regexp :=
  match parse_seq (S (String.length pattern)) 1 pattern with
  | Some (r, gi, "") => Some {| re := r; ngroups := gi - 1 |}
  | _ => None
  end.

(** [MustCompile] panics on a pattern that does not compile; here such a
    pattern gives the expression that matches nothing.  Every pattern of
    [parse.go] compiles (see [patterns_compile]). *)
Definition MustCompile (pattern : string) : Regexp :=
  match Compile pattern with
  | Some r => r
  | None => {| re := One []; ngroups := 0 |}
  end.

(** *** Matching *)

Fixpoint set_nth (i : nat) (v : string) (l : list string) : list string :=
  match i, l with
  | 0, _ :: l' => v :: l'
  | S i', x :: l' => x :: set_nth i' v l'
  | _, [] => []
  end.

(** The bytes between the suffix [s] and its suffix [s']. *)
Definition consumed (s s' : string) : string := take (String.length s - String.length s') s.

(** What is left to do after a part of the expression has matched: the
    rest of the text and the groups so far give the final groups, or
    [None] to make the matcher try its next choice. *)
Definition cont : Type := string -> list string -> option (list string).

(** The greedy repetition of [body] between [mn] and [mx] times: one more
    round is tried first, and the rest of the expression, [k], when that
    fails.  A round that is not required and matches nothing is refused.
    [fuel] is more than the number of rounds there can be. *)
Fixpoint rep_loop (body : string -> list string -> cont -> option (list string))
    (k : cont) (fuel mn : nat) (mx : option nat) (s : string)
    (caps : list string) {struct fuel} : option (list string) :=
  match fuel with
  | 0 => None
  | S fuel' =>
      let more :=
        match mx with
        | Some 0 => None
        | _ =>
            body s caps (fun s' caps' =>
              if (Nat.eqb mn 0 && Nat.eqb (String.length s') (String.length s))%bool
              then None
              else rep_loop body k fuel' (pred mn) (option_map pred mx) s' caps')
        end in
      match more with
      | Some res => Some res
      | None => if Nat.eqb mn 0 then k s caps else None
      end
  end.

(** [exec r n s caps k]: match [r] at the suffix [s] of a text of [n] bytes,
    then continue with [k] on what is left; the first success wins. *)
Fixpoint exec (r : regex) (n : nat) (s : string) (caps : list string)
    (k : cont) {struct r} : option (list string) :=
  match r with
  | Empty => k s caps
  | One l =>
      match s with
      | String c s' => if class_matches l c then k s' caps else None
      | "" => None
      end
  | Bol => if Nat.eqb (String.length s) n then k s caps else None
  | Eol => match s with "" => k s caps | _ => None end
  | Cat r1 r2 => exec r1 n s caps (fun s' caps' => exec r2 n s' caps' k)
  | Group i r' =>
      exec r' n s caps (fun s' caps' => k s' (set_nth i (consumed s s') caps'))
  | Rep mn mx r' =>
      rep_loop (exec r' n) k (S (mn + String.length s)) mn mx s caps
  end.

(** The leftmost match: start positions are tried from left to right. *)
Fixpoint search (r : Regexp) (n : nat) (s : string) : option (list string) :=
  match exec (re r) n s (repeat "" (S (ngroups r)))
          (fun s' caps' => Some (set_nth 0 (consumed s s') caps')) with
  | Some caps => Some caps
  | None => match s with
            | "" => None
            | String _ s' => search r n s'
            end
  end.

(** [Regexp.FindStringSubmatch]: the whole match followed by the text
    of each capturing group ([""] for a group that took no part), or the
    empty slice when there is no match. *)
Definition FindStringSubmatch (r : Regexp) (s : string) : list string :=
  match search r (String.length s) s with
  | Some caps => caps
  | None => []
  end.

(** [Regexp.MatchString] *)
Definition MatchString (r : Regexp) (s : string) : bool :=
  match search r (String.length s) s with
  | Some _ => true
  | None => false
  end.

End Regexp.

Import Regexp.

(** [parts[i]] for an index the caller knows to be in range. *)
Definition part (parts : list string) (i : nat) : string := nth i parts "".

(** ** The prefix grammars *)

Definition LogPrefixAmazonRds : string := "%t:%r:%u@%d:[%p]:".
Definition LogPrefixCustom1 : string := "%m [%p][%v] : [%l-1] %q[app=%a] ".
Definition LogPrefixCustom2 : string := "%t [%p-%l] %q%u@%d ".
Definition LogPrefixCustom3 : string := "%m [%p] %q[user=%u,db=%d,app=%a] ".
Definition LogPrefixCustom4 : string := "%m [%p] %q[user=%u,db=%d,app=%a,host=%h] ".
Definition LogPrefixCustom5 : string := "%t [%p]: [%l-1] user=%u,db=%d - PG-%e ".
Definition LogPrefixCustom6 : string := "%t [%p]: [%l-1] user=%u,db=%d,app=%a,client=%h ".
Definition LogPrefixCustom7 : string := "%t [%p]: [%l-1] [trx_id=%x] user=%u,db=%d ".
Definition LogPrefixSimple : string := "%m [%p] ".
Definition LogPrefixEmpty : string := "".

Definition SupportedPrefixes : list string :=
  [LogPrefixAmazonRds; LogPrefixCustom1; LogPrefixCustom2; LogPrefixCustom3;
   LogPrefixCustom4; LogPrefixCustom5; LogPrefixCustom6; LogPrefixCustom7;
   LogPrefixSimple; LogPrefixEmpty].

Definition TimeRegexp := "(\d{4}-\d{2}-\d{2} \d{2}:\d{2}:\d{2}(?:\.\d+)? [\-+]?\w+)".
Definition HostAndPortRegexp := "(.+(?:\(\d+\))?)?".
Definition PidRegexp := "(\d+)".
Definition UserRegexp := "(\S*)".
Definition DbRegexp := "(\S*)".
Definition AppRegexp := "(\S*)".
Definition HostRegexp := "(\S*)".
Definition VirtualTxRegexp := "(\d+/\d+)?".
Definition LogLineCounterRegexp := "(\d+)".
Definition SqlstateRegexp := "(\w{5})".
Definition TransactionIdRegexp := "(\d+)".

Definition LevelAndContentRegexp := "(\w+):\s+(.*\n?)$".

Definition LogPrefixAmazonRdsRegxp := MustCompile
  ("^" ++ TimeRegexp ++ ":" ++ HostAndPortRegexp ++ ":" ++ UserRegexp ++ "@"
   ++ DbRegexp ++ ":\[" ++ PidRegexp ++ "\]:" ++ LevelAndContentRegexp).
Definition LogPrefixCustom1Regexp := MustCompile
  ("^" ++ TimeRegexp ++ " \[" ++ PidRegexp ++ "\]\[" ++ VirtualTxRegexp
   ++ "\] : \[" ++ LogLineCounterRegexp ++ "-1\] (?:\[app=" ++ AppRegexp
   ++ "\] )?" ++ LevelAndContentRegexp).
Definition LogPrefixCustom2Regexp := MustCompile
  ("^" ++ TimeRegexp ++ " \[" ++ PidRegexp ++ "-" ++ LogLineCounterRegexp
   ++ "\] " ++ "(?:" ++ UserRegexp ++ "@" ++ DbRegexp ++ " )?"
   ++ LevelAndContentRegexp).
Definition LogPrefixCustom3Regexp := MustCompile
  ("^" ++ TimeRegexp ++ " \[" ++ PidRegexp ++ "\] (?:\[user=" ++ UserRegexp
   ++ ",db=" ++ DbRegexp ++ ",app=" ++ AppRegexp ++ "\] )?"
   ++ LevelAndContentRegexp).
Definition LogPrefixCustom4Regexp := MustCompile
  ("^" ++ TimeRegexp ++ " \[" ++ PidRegexp ++ "\] (?:\[user=" ++ UserRegexp
   ++ ",db=" ++ DbRegexp ++ ",app=" ++ AppRegexp ++ ",host=" ++ HostRegexp
   ++ "\] )?" ++ LevelAndContentRegexp).
Definition LogPrefixCustom5Regexp := MustCompile
  ("^" ++ TimeRegexp ++ " \[" ++ PidRegexp ++ "\]: \[" ++ LogLineCounterRegexp
   ++ "-1\] user=" ++ UserRegexp ++ ",db=" ++ DbRegexp ++ " - PG-"
   ++ SqlstateRegexp ++ " " ++ LevelAndContentRegexp).
Definition LogPrefixCustom6Regexp := MustCompile
  ("^" ++ TimeRegexp ++ " \[" ++ PidRegexp ++ "\]: \[" ++ LogLineCounterRegexp
   ++ "-1\] user=" ++ UserRegexp ++ ",db=" ++ DbRegexp ++ ",app=" ++ AppRegexp
   ++ ",client=" ++ HostRegexp ++ " " ++ LevelAndContentRegexp).
Definition LogPrefixCustom7Regexp := MustCompile
  ("^" ++ TimeRegexp ++ " \[" ++ PidRegexp ++ "\]: \[" ++ LogLineCounterRegexp
   ++ "-1\] \[trx_id=" ++ TransactionIdRegexp ++ "\] user=" ++ UserRegexp
   ++ ",db=" ++ DbRegexp ++ " " ++ LevelAndContentRegexp).
Definition LogPrefixSimpleRegexp := MustCompile
  ("^" ++ TimeRegexp ++ " \[" ++ PidRegexp ++ "\] " ++ LevelAndContentRegexp).
Definition LogPrefixNoTimestampUserDatabaseAppRegexp := MustCompile
  ("^\[user=" ++ UserRegexp ++ ",db=" ++ DbRegexp ++ ",app=" ++ AppRegexp
   ++ "\] " ++ LevelAndContentRegexp).

Definition SyslogSequenceAndSplitRegexp := "(\[[\d-]+\])?".

Definition RsyslogLevelAndContentRegexp := "(?:(\w+):\s+)?(.*\n?)$".
Definition RsyslogTimeRegexp := "(\w+\s+\d+ \d{2}:\d{2}:\d{2})".
Definition RsyslogHostnameRegxp := "(\S+)".
Definition RsyslogProcessNameRegexp := "(\w+)".
Definition RsyslogRegexp := MustCompile
  ("^" ++ RsyslogTimeRegexp ++ " " ++ RsyslogHostnameRegxp ++ " "
   ++ RsyslogProcessNameRegexp ++ "\[" ++ PidRegexp ++ "\]: "
   ++ SyslogSequenceAndSplitRegexp ++ " " ++ RsyslogLevelAndContentRegexp).

Definition HerokuPostgresDebugRegexp := MustCompile
  ("^(\w+ \d+ \d+:\d+:\d+ \w+ app\[postgres\] \w+ )?\[(\w+)\] \[\d+-\d+\] ( sql_error_code = "
   ++ SqlstateRegexp ++ " (\w+):  )?(.+)").

Definition IsSupportedPrefix (prefix : string) : bool :=
  existsb (String.eqb prefix) SupportedPrefixes.

(** ** Machine integers *)

Definition wrap (bits : Z) (z : Z) : Z :=
  (z + 2 ^ (bits - 1)) mod 2 ^ bits - 2 ^ (bits - 1).

(** Conversion to and arithmetic on [int64] and [int32]. *)
Definition int64 (z : Z) : Z := wrap 64 z.
Definition int32 (z : Z) : Z := wrap 32 z.
Definition add64 (a b : Z) : Z := int64 (a + b).
Definition sub64 (a b : Z) : Z := int64 (a - b).
Definition MaxInt64 : Z := 2 ^ 63 - 1.
Definition MinInt64 : Z := - 2 ^ 63.

(** [len(s)] as an [int]. *)
Definition len (s : string) : Z := Z.of_nat (String.length s).

(** ** [strconv.Atoi] *)

Inductive NumResult : Type :=
| ErrSyntax
| ErrRange
| Num (n : Z).

(** [strconv.ParseUint(s, 10, 64)] on the digits that remain, [n] being the
    value read so far: a byte that is no digit is a syntax error, a value
    of 2^64 or more a range error, whichever comes first. *)
Fixpoint ParseUint_from (n : Z) (s : string) : NumResult :=
  match s with
  | "" => Num n
  | String c s' =>
      if is_digit c then
        let n1 := (10 * n + (Z.of_N (N_of_ascii c) - 48))%Z in
        if (2 ^ 64 <=? n1)%Z then ErrRange else ParseUint_from n1 s'
      else ErrSyntax
  end.

Definition ParseUint (s : string) : NumResult :=
  match s with
  | "" => ErrSyntax
  | _ => ParseUint_from 0 s
  end.

(** [strconv.Atoi] on a 64-bit platform, the error dropped as the caller
    drops it: 0 on a syntax error, the nearest [int] on a range error. *)
Definition Atoi (s : string) : Z :=
  let '(neg, digits) :=
    match s with
    | String "+" s' => (false, s')
    | String "-" s' => (true, s')
    | _ => (false, s)
    end in
  match ParseUint digits with
  | ErrSyntax => 0
  | ErrRange => if neg then MinInt64 else MaxInt64
  | Num un =>
      if (negb neg && (2 ^ 63 <=? un))%bool%Z then MaxInt64
      else if (neg && (2 ^ 63 <? un))%bool%Z then MinInt64
      else if neg then (- un)%Z else un
  end.

(** Decimal digits of a natural number, as [fmt.Sprintf("%d", n)] prints
    them; [fuel] bounds the number of digits. *)
Fixpoint digits_of (fuel : nat) (n : N) (acc : string) : string :=
  match fuel with
  | 0 => acc
  | S fuel' =>
      let acc' := String (ascii_of_N (48 + N.modulo n 10)) acc in
      if N.ltb n 10 then acc' else digits_of fuel' (N.div n 10) acc'
  end.

Definition Sprintf_d (z : Z) : string :=
  if (z <? 0)%Z
  then "-" ++ digits_of 20 (Z.to_N (- z)) ""
  else digits_of 20 (Z.to_N z) "".

(** What a call gives: a result, or the run-time panic of an index out of
    range. *)
Inductive outcome (A : Type) : Type :=
| Returns (a : A)
| PanicIndexOutOfRange.
Arguments Returns {A} a.
Arguments PanicIndexOutOfRange {A}.

(** ** What the engine takes from outside [parse.go]

    The [time] package, the identifier generator, the level-name table of
    the generated [pganalyze_collector] package and the clock are not part
    of the engine: the embedding is parametric in them. *)

Class World : Type := {
  (** [time.Time], with [time.Time{}] *)
  Time : Type;
  zeroTime : Time;
  (** [time.Parse(layout, value)]; [None] is a non-nil error *)
  time_Parse : string -> string -> option Time;
  (** [t.Before(u)] *)
  Before : Time -> Time -> bool;
  (** [time.Now().Year()] *)
  Now_Year : Z;
  (** [pganalyze_collector.LogLineInformation_LogLevel_value], a map from
      level names to the numbers of the [LogLevel] enumeration *)
  LogLineInformation_LogLevel_value : string -> option Z;
  (** [uuid.UUID], with its zero value, and the state of the generator
      behind [uuid.NewV4()] *)
  uuid_UUID : Type;
  uuid_Nil : uuid_UUID;
  Rand : Type;
  NewV4 : Rand -> uuid_UUID * Rand
}.

Section Engine.

Context {W : World}.

(** ** [state.LogLine], the fields the engine writes *)

Record LogLine : Type := mkLogLine {
  OccurredAt : Time;
  Username : string;
  Database : string;
  Application : string;
  BackendPid : Z;            (* int32 *)
  LogLevel : Z;              (* LogLineInformation_LogLevel, an int32 *)
  Content : string;
  ByteStart : Z;             (* int64 *)
  ByteContentStart : Z;      (* int64 *)
  ByteEnd : Z;               (* int64 *)
  UUID : uuid_UUID
}.

(** The zero value of the struct. *)
Definition zeroLogLine : LogLine :=
  mkLogLine zeroTime "" "" "" 0 0 "" 0 0 0 uuid_Nil.

Definition set_OccurredAt (t : Time) (l : LogLine) : LogLine :=
  mkLogLine t (Username l) (Database l) (Application l) (BackendPid l)
    (LogLevel l) (Content l) (ByteStart l) (ByteContentStart l) (ByteEnd l)
    (UUID l).

Definition set_Content (c : string) (l : LogLine) : LogLine :=
  mkLogLine (OccurredAt l) (Username l) (Database l) (Application l)
    (BackendPid l) (LogLevel l) c (ByteStart l) (ByteContentStart l)
    (ByteEnd l) (UUID l).

Definition set_LogLevel (v : Z) (l : LogLine) : LogLine :=
  mkLogLine (OccurredAt l) (Username l) (Database l) (Application l)
    (BackendPid l) v (Content l) (ByteStart l) (ByteContentStart l)
    (ByteEnd l) (UUID l).

Definition set_ByteEnd (v : Z) (l : LogLine) : LogLine :=
  mkLogLine (OccurredAt l) (Username l) (Database l) (Application l)
    (BackendPid l) (LogLevel l) (Content l) (ByteStart l)
    (ByteContentStart l) v (UUID l).

(** ** [ParseLogLineWithPrefix] *)

(** The local variables of the function that the grammars fill in. *)
Record Parts : Type := mkParts {
  timePart : string;
  userPart : string;
  dbPart : string;
  appPart : string;
  pidPart : string;
  levelPart : string;
  contentPart : string
}.

(** The state of the function when it reaches the parsing of the time:
    the result under construction, the two time formats and the parts. *)
Record Locals : Type := mkLocals {
  logLine0 : LogLine;
  timeFormat : string;
  timeFormatAlt : string;
  parts_of : Parts
}.

Definition defaultTimeFormat : string := "2006-01-02 15:04:05 -0700".
Definition defaultTimeFormatAlt : string := "2006-01-02 15:04:05 MST".
Definition syslogTimeFormat : string := "2006 Jan  2 15:04:05".

(** The chain of [MatchString] tests run when no prefix is given: the value
    of [prefix] and of [rsyslog] after it. *)
Definition detect (line : string) : string * bool :=
  if MatchString LogPrefixAmazonRdsRegxp line then (LogPrefixAmazonRds, false)
  else if MatchString LogPrefixCustom1Regexp line then (LogPrefixCustom1, false)
  else if MatchString LogPrefixCustom2Regexp line then (LogPrefixCustom2, false)
  else if MatchString LogPrefixCustom4Regexp line then (LogPrefixCustom4, false)
  else if MatchString LogPrefixCustom3Regexp line then (LogPrefixCustom3, false)
  else if MatchString LogPrefixCustom5Regexp line then (LogPrefixCustom5, false)
  else if MatchString LogPrefixCustom6Regexp line then (LogPrefixCustom6, false)
  else if MatchString LogPrefixCustom7Regexp line then (LogPrefixCustom7, false)
  else if MatchString LogPrefixSimpleRegexp line then (LogPrefixSimple, false)
  else if MatchString RsyslogRegexp line then ("", true)
  else ("", false).

(** One case of the [switch]: the submatches of [r], and the indices of
    the parts among them ([None] for a part the grammar leaves empty).
    [None] is the early [return] taken when [r] does not match. *)
Definition grammar (r : Regexp) (line : string)
    (iuser idb iapp : option nat) (ilevel icontent : nat) : option Locals :=
  let parts := FindStringSubmatch r line in
  if Nat.eqb (List.length parts) 0 then None
  else
    let opt i := match i with Some i => part parts i | None => "" end in
    Some (mkLocals zeroLogLine defaultTimeFormat defaultTimeFormatAlt
            (mkParts (part parts 1) (opt iuser) (opt idb) (opt iapp)
               (part parts 2) (part parts ilevel) (part parts icontent))).

(** The syslog branch. *)
Definition extract_rsyslog (line : string) : option Locals :=
  let parts := FindStringSubmatch RsyslogRegexp line in
  if Nat.eqb (List.length parts) 0 then None
  else
    let timePart := Sprintf_d Now_Year ++ " " ++ part parts 1 in
    let pidPart := part parts 4 in
    let levelPart := part parts 6 in
    let contentPart := Replace (part parts 7) "#011" (String tab "") in
    let parts :=
      FindStringSubmatch LogPrefixNoTimestampUserDatabaseAppRegexp contentPart in
    Some (mkLocals zeroLogLine syslogTimeFormat ""
            (if Nat.eqb (List.length parts) 6
             then mkParts timePart (part parts 1) (part parts 2) (part parts 3)
                    pidPart (part parts 4) (part parts 5)
             else mkParts timePart "" "" "" pidPart levelPart contentPart)).

(** The branch on [rsyslog] and the [switch] on [prefix]. *)
Definition extract (prefix : string) (rsyslog : bool) (line : string)
    : option Locals :=
  if rsyslog then extract_rsyslog line
  else if prefix =? LogPrefixAmazonRds then
    (* parts[5] is the pid here, parts[2] the skipped %r *)
    let parts := FindStringSubmatch LogPrefixAmazonRdsRegxp line in
    if Nat.eqb (List.length parts) 0 then None
    else Some (mkLocals zeroLogLine defaultTimeFormat defaultTimeFormatAlt
                 (mkParts (part parts 1) (part parts 3) (part parts 4) ""
                    (part parts 5) (part parts 6) (part parts 7)))
  else if prefix =? LogPrefixCustom1 then
    grammar LogPrefixCustom1Regexp line None None (Some 5) 6 7
  else if prefix =? LogPrefixCustom2 then
    grammar LogPrefixCustom2Regexp line (Some 4) (Some 5) None 6 7
  else if prefix =? LogPrefixCustom3 then
    grammar LogPrefixCustom3Regexp line (Some 3) (Some 4) (Some 5) 6 7
  else if prefix =? LogPrefixCustom4 then
    grammar LogPrefixCustom4Regexp line (Some 3) (Some 4) (Some 5) 7 8
  else if prefix =? LogPrefixCustom5 then
    grammar LogPrefixCustom5Regexp line (Some 4) (Some 5) None 7 8
  else if prefix =? LogPrefixCustom6 then
    grammar LogPrefixCustom6Regexp line (Some 4) (Some 5) None 8 9
  else if prefix =? LogPrefixCustom7 then
    grammar LogPrefixCustom7Regexp line (Some 5) (Some 6) None 7 8
  else if prefix =? LogPrefixSimple then
    grammar LogPrefixSimpleRegexp line None None None 3 4
  else
    (* default: the content of an unparsed line is kept for stitching *)
    Some (mkLocals (set_Content line zeroLogLine)
            defaultTimeFormat defaultTimeFormatAlt
            (mkParts "" "" "" "" "" "" "")).

(** The two attempts at parsing the time. *)
Definition parse_time (fmt alt value : string) : option Time :=
  match time_Parse fmt value with
  | Some t => Some t
  | None => if alt =? "" then None else time_Parse alt value
  end.

Definition scrub (s : string) : string :=
  if s =? "[unknown]" then "" else s.

Definition level_value (name : string) : Z :=
  match LogLineInformation_LogLevel_value name with
  | Some v => v
  | None => 0
  end.

(** From the parsing of the time to the end of the function. *)
Definition finish (v : Locals) : LogLine * bool :=
  let p := parts_of v in
  match parse_time (timeFormat v) (timeFormatAlt v) (timePart p) with
  | None => (set_OccurredAt zeroTime (logLine0 v), false)
  | Some t =>
      let logLine :=
        mkLogLine t (scrub (userPart p)) (scrub (dbPart p)) (scrub (appPart p))
          (int32 (Atoi (pidPart p))) (LogLevel (logLine0 v)) (contentPart p)
          (ByteStart (logLine0 v)) (ByteContentStart (logLine0 v))
          (ByteEnd (logLine0 v)) (UUID (logLine0 v)) in
      if levelPart p =? "" then (logLine, false)
      else (set_LogLevel (int32 (level_value (levelPart p))) logLine, true)
  end.

(** The function up to the parsing of the time: detection when no prefix
    is given, then the grammar. *)
Definition locals (prefix line : string) : option Locals :=
  let '(prefix, rsyslog) :=
    if prefix =? "" then detect line else (prefix, false) in
  extract prefix rsyslog line.

Definition ParseLogLineWithPrefix (prefix line : string) : LogLine * bool :=
  match locals prefix line with
  | None => (zeroLogLine, false)
  | Some v => finish v
  end.

(** ** Reading the buffer line by line *)

(** [reader.ReadString('\n')] on a reader over the string [r]: the line
    read, with its newline when there is one, what is left of the reader,
    and whether the error is [io.EOF] (no newline before the end).  A
    reader over a string gives no other error. *)
Fixpoint ReadString (r : string) : string * string * bool :=
  match r with
  | "" => ("", "", true)
  | String c r' =>
      if Ascii.eqb c newline then (String c "", r', false)
      else let '(line, rest, eof) := ReadString r' in (String c line, rest, eof)
  end.

(** The successive results of [ReadString] on a buffer: the lines read with
    a nil error, and the line read together with [io.EOF]. *)
Fixpoint lines (buffer : string) : list string * string :=
  match buffer with
  | "" => ([], "")
  | String c b' =>
      let '(ls, tail) := lines b' in
      if Ascii.eqb c newline then (String c "" :: ls, tail)
      else match ls with
           | [] => ([], String c tail)
           | l :: ls' => (String c l :: ls', tail)
           end
  end.

(** ** The scan loop of [ParseAndAnalyzeBuffer] *)

(** The variables of the loop, and the state of the identifier generator. *)
Record Scan : Type := mkScan {
  logLines : list LogLine;
  currentByteStart : Z;
  rand : Rand
}.

(** [l[len(l)-1] = f(l[len(l)-1])] on a non-empty slice. *)
Fixpoint update_last (f : LogLine -> LogLine) (l : list LogLine) : list LogLine :=
  match l with
  | [] => []
  | [x] => [f x]
  | x :: l' => x :: update_last f l'
  end.

(** The two assignments of a continuation:
    [Content += content] and [ByteEnd += int64(len(content))]. *)
Definition extend (content : string) (l : LogLine) : LogLine :=
  set_ByteEnd (add64 (ByteEnd l) (int64 (len content)))
    (set_Content (Content l ++ content) l).

(** The guarded continuation of a line that is no new record. *)
Definition stitch (logLines : list LogLine) (logLine : LogLine) : list LogLine :=
  if (Nat.ltb 0 (List.length logLines) && negb (Content logLine =? ""))%bool
  then update_last (extend (Content logLine)) logLines
  else logLines.

(** The end of the loop body: the offsets and the identifier are set and
    the record is appended. *)
Definition emit (st : Scan) (byteStart : Z) (line : string) (logLine : LogLine)
    (next : Z) : Scan :=
  let '(u, rand') := NewV4 (rand st) in
  mkScan
    (logLines st ++
       [mkLogLine (OccurredAt logLine) (Username logLine) (Database logLine)
          (Application logLine) (BackendPid logLine) (LogLevel logLine)
          (Content logLine)
          byteStart
          (add64 byteStart (int64 (len line - len (Content logLine))))
          (sub64 (add64 byteStart (int64 (len line))) 1)
          u])%list
    next rand'.

(** One iteration of the loop on a line read with a nil error. *)
Definition step (linesNewerThan : Time) (st : Scan) (line : string) : Scan :=
  let byteStart := currentByteStart st in
  let next := add64 (currentByteStart st) (int64 (len line)) in
  let '(logLine, ok) := ParseLogLineWithPrefix "" line in
  if negb ok then mkScan (stitch (logLines st) logLine) next (rand st)
  else if Before (OccurredAt logLine) linesNewerThan
  then mkScan (logLines st) next (rand st)
  else emit st byteStart line logLine next.

(** The whole loop: an iteration for each line read, then the read that
    returns [io.EOF], whose bytes are added to the offset before the
    [break]. *)
Definition scan (buffer : string) (initialByteStart : Z)
    (linesNewerThan : Time) (rnd : Rand) : Scan :=
  let '(ls, tail) := lines buffer in
  let st := fold_left (step linesNewerThan) ls
              (mkScan [] initialByteStart rnd) in
  mkScan (logLines st) (add64 (currentByteStart st) (int64 (len tail)))
    (rand st).

(** ** [ParseAndAnalyzeBuffer] and [DebugParseAndAnalyzeBuffer] *)

Section Analyze.

(** [state.PostgresQuerySample] and [AnalyzeLogLines], which are outside
    [parse.go]. *)
Variable PostgresQuerySample : Type.
Variable AnalyzeLogLines :
  list LogLine -> list LogLine * list PostgresQuerySample.

Definition ParseAndAnalyzeBuffer (buffer : string) (initialByteStart : Z)
    (linesNewerThan : Time) (rnd : Rand)
    : list LogLine * list PostgresQuerySample * Z * Rand :=
  let st := scan buffer initialByteStart linesNewerThan rnd in
  let '(newLogLines, newSamples) := AnalyzeLogLines (logLines st) in
  (newLogLines, newSamples, currentByteStart st, rand st).

(** One iteration of the loop of [DebugParseAndAnalyzeBuffer]. *)
Definition debug_step (st : Scan) (line : string) : outcome Scan :=
  let byteStart := currentByteStart st in
  let next := add64 (currentByteStart st) (int64 (len line)) in
  let contentParts := FindStringSubmatch HerokuPostgresDebugRegexp line in
  if Nat.eqb (List.length contentParts) 7 then
    let logLine := set_Content (part contentParts 6) zeroLogLine in
    if (negb (part contentParts 4 =? "") && negb (part contentParts 5 =? ""))%bool
    then
      Returns (emit st byteStart line
                 (set_LogLevel (int32 (level_value (part contentParts 5))) logLine)
                 next)
    else
      (* logLines[len(logLines)-1] with no test of the length *)
      match logLines st with
      | [] => PanicIndexOutOfRange
      | _ => Returns (mkScan (update_last (extend (Content logLine)) (logLines st))
                        next (rand st))
      end
  else
    (* [logLine, ok :=] declares a new logLine in the else block: the one
       appended after the block is still the zero value *)
    let '(inner, ok) := ParseLogLineWithPrefix "" line in
    if negb ok then Returns (mkScan (stitch (logLines st) inner) next (rand st))
    else Returns (emit st byteStart line zeroLogLine next).

Fixpoint debug_loop (ls : list string) (st : Scan) : outcome Scan :=
  match ls with
  | [] => Returns st
  | line :: ls' =>
      match debug_step st line with
      | Returns st' => debug_loop ls' st'
      | PanicIndexOutOfRange => PanicIndexOutOfRange
      end
  end.

Definition DebugParseAndAnalyzeBuffer (buffer : string) (rnd : Rand)
    : outcome (list LogLine * list PostgresQuerySample * Rand) :=
  let '(ls, tail) := lines buffer in
  match debug_loop ls (mkScan [] 0 rnd) with
  | Returns st =>
      let '(newLogLines, newSamples) := AnalyzeLogLines (logLines st) in
      Returns (newLogLines, newSamples, rand st)
  | PanicIndexOutOfRange => PanicIndexOutOfRange
  end.

End Analyze.

End Engine.

(** ** A model of the outside world

    The properties hold in every [World].  The examples run the engine
    in the world below: Go's [time.Parse] on the three layouts of
    [parse.go] for a process whose local zone is UTC, instants as seconds
    and nanoseconds since the Unix epoch, the level names of the
    collector's protocol, and identifiers drawn by counting. *)

Module GoWorld.

Open Scope Z_scope.

Definition digit (c : ascii) : Z := Z.of_N (N_of_ascii c) - 48.

(** [time.getnum] *)
Definition getnum (s : string) (fixed : bool) : option (Z * string) :=
  match s with
  | String a s1 =>
      if is_digit a then
        match s1 with
        | String b s2 =>
            if is_digit b then Some (digit a * 10 + digit b, s2)
            else if fixed then None else Some (digit a, s1)
        | EmptyString => if fixed then None else Some (digit a, s1)
        end
      else None
  | EmptyString => None
  end.

Fixpoint cutspace (s : string) : string :=
  match s with
  | String " " s' => cutspace s'
  | _ => s
  end.

(** [time.skip]: a run of spaces of the layout stands for any run of
    spaces of the value; [in_space] tells that the run has started. *)
Fixpoint skip (in_space : bool) (value prefix : string) : option string :=
  match prefix with
  | EmptyString => Some value
  | String " " prefix' =>
      if in_space then skip true value prefix'
      else match value with
           | String " " _ => skip true (cutspace value) prefix'
           | String _ _ => None
           | EmptyString => skip true value prefix'
           end
  | String p prefix' =>
      match value with
      | String v value' =>
          if Ascii.eqb v p then skip false value' prefix' else None
      | EmptyString => None
      end
  end.

(** The digits at the head of [s], their value and what follows. *)
Fixpoint leadingInt (acc : Z) (s : string) : Z * string :=
  match s with
  | String c s' => if is_digit c then leadingInt (10 * acc + digit c) s' else (acc, s)
  | EmptyString => (acc, s)
  end.

(** [time.atoi] *)
Definition atoi (s : string) : option Z :=
  let '(neg, s1) :=
    match s with
    | String "-" s' => (true, s')
    | String "+" s' => (false, s')
    | _ => (false, s)
    end in
  match leadingInt 0 s1 with
  | (q, EmptyString) => Some (if neg then - q else q)
  | _ => None
  end.

Definition shortMonthNames : list string :=
  ["Jan"; "Feb"; "Mar"; "Apr"; "May"; "Jun";
   "Jul"; "Aug"; "Sep"; "Oct"; "Nov"; "Dec"]%string.

Definition lower (c : ascii) : ascii :=
  if byte_in 65 90 c then ascii_of_N (N_of_ascii c + 32) else c.

Fixpoint match_fold (s name : string) : option string :=
  match name, s with
  | EmptyString, _ => Some s
  | String a name', String b s' =>
      if Ascii.eqb (lower a) (lower b) then match_fold s' name' else None
  | _, _ => None
  end.

(** [time.lookup]: the index of the first name that [value] starts with,
    letter case apart. *)
Fixpoint lookup (i : Z) (tab : list string) (value : string) : option (Z * string) :=
  match tab with
  | [] => None
  | name :: tab' =>
      match match_fold value name with
      | Some rest => Some (i, rest)
      | None => lookup (i + 1) tab' value
      end
  end.

Definition isLeap (year : Z) : bool :=
  ((year mod 4 =? 0) && (negb (year mod 100 =? 0) || (year mod 400 =? 0)))%bool.

Definition daysIn (month year : Z) : Z :=
  if month =? 2 then (if isLeap year then 29 else 28)
  else if ((month =? 4) || (month =? 6) || (month =? 9) || (month =? 11))%bool
  then 30 else 31.

(** Days from 1970-01-01 to the given day of the proleptic Gregorian
    calendar. *)
Definition days_from_civil (y m d : Z) : Z :=
  let y := if m <=? 2 then y - 1 else y in
  let era := y / 400 in
  let yoe := y - era * 400 in
  let doy := (153 * (if 2 <? m then m - 3 else m + 9) + 2) / 5 + d - 1 in
  let doe := yoe * 365 + yoe / 4 - yoe / 100 + doy in
  era * 146097 + doe - 719468.

(** An instant: seconds since the Unix epoch and nanoseconds. *)
Definition Instant : Type := (Z * Z)%type.

Definition before (t u : Instant) : bool :=
  ((fst t <? fst u) || ((fst t =? fst u) && (snd t <? snd u)))%bool.

(** [time.Time{}]: January 1 of year 1, 00:00:00 UTC. *)
Definition zeroInstant : Instant := (-62135596800, 0).

Inductive chunk : Type :=
| Lit (s : string)
| stdLongYear | stdZeroMonth | stdMonth | stdZeroDay | stdDay
| stdHour | stdZeroMinute | stdZeroSecond | stdNumTZ | stdTZ.

(** The layouts of [parse.go], cut into chunks as [time.nextStdChunk] cuts
    them. *)
Definition chunks (layout : string) : option (list chunk) :=
  let date := [stdLongYear; Lit "-"; stdZeroMonth; Lit "-"; stdZeroDay;
               Lit " "; stdHour; Lit ":"; stdZeroMinute; Lit ":";
               stdZeroSecond; Lit " "]%string in
  if (layout =? defaultTimeFormat)%string then Some (date ++ [stdNumTZ])%list
  else if (layout =? defaultTimeFormatAlt)%string then Some (date ++ [stdTZ])%list
  else if (layout =? syslogTimeFormat)%string then
    Some [stdLongYear; Lit " "; stdMonth; Lit "  "; stdDay; Lit " "; stdHour;
          Lit ":"; stdZeroMinute; Lit ":"; stdZeroSecond]%string
  else None.

Record fields : Type := mkFields {
  year : Z; month : Z; day : Z; hour : Z; min : Z; sec : Z; nsec : Z;
  zoneOffset : Z
}.

Fixpoint count_digits (s : string) : nat :=
  match s with
  | String c s' => if is_digit c then S (count_digits s') else 0%nat
  | EmptyString => 0%nat
  end.

Fixpoint count_upper (s : string) : nat :=
  match s with
  | String c s' => if byte_in 65 90 c then S (count_upper s') else 0%nat
  | EmptyString => 0%nat
  end.

(** [time.parseTimeZone] without the GMT case: the length of the zone
    abbreviation at the head of [value]. *)
Definition parseTimeZone (value : string) : option nat :=
  if (String.length value <? 3)%nat then None
  else if ((take 4 value =? "ChST") || (take 4 value =? "MeST"))%string%bool
  then Some 4%nat
  else
    match Nat.min (count_upper value) 6 with
    | 5%nat => if (take 1 (drop 4 value) =? "T")%string then Some 5%nat else None
    | 4%nat => if ((take 1 (drop 3 value) =? "T") || (take 4 value =? "WITA"))%string%bool
               then Some 4%nat else None
    | 3%nat => Some 3%nat
    | _ => None
    end.

(** A chunk of the layout read off the value. *)
Definition parse_chunk (c : chunk) (f : fields) (value : string)
    : option (fields * string) :=
  let set_month m f := mkFields (year f) m (day f) (hour f) (min f) (sec f) (nsec f) (zoneOffset f) in
  let set_day d f := mkFields (year f) (month f) d (hour f) (min f) (sec f) (nsec f) (zoneOffset f) in
  let set_zone z f := mkFields (year f) (month f) (day f) (hour f) (min f) (sec f) (nsec f) z in
  match c with
  | Lit p =>
      match skip false value p with
      | Some rest => Some (f, rest)
      | None => None
      end
  | stdLongYear =>
      if ((4 <=? String.length value)%nat && is_digit (match value with String a _ => a | _ => " "%char end))%bool
      then match atoi (take 4 value) with
           | Some y => Some (mkFields y (month f) (day f) (hour f) (min f) (sec f) (nsec f) (zoneOffset f), drop 4 value)
           | None => None
           end
      else None
  | stdZeroMonth =>
      match getnum value true with
      | Some (m, rest) => if ((m <=? 0) || (12 <? m))%bool then None else Some (set_month m f, rest)
      | None => None
      end
  | stdMonth =>
      match lookup 1 shortMonthNames value with
      | Some (m, rest) => Some (set_month m f, rest)
      | None => None
      end
  | stdZeroDay =>
      match getnum value true with
      | Some (d, rest) => Some (set_day d f, rest)
      | None => None
      end
  | stdDay =>
      match getnum value false with
      | Some (d, rest) => Some (set_day d f, rest)
      | None => None
      end
  | stdHour =>
      match getnum value false with
      | Some (h, rest) =>
          if 24 <=? h then None
          else Some (mkFields (year f) (month f) (day f) h (min f) (sec f) (nsec f) (zoneOffset f), rest)
      | None => None
      end
  | stdZeroMinute =>
      match getnum value true with
      | Some (m, rest) =>
          if 60 <=? m then None
          else Some (mkFields (year f) (month f) (day f) (hour f) m (sec f) (nsec f) (zoneOffset f), rest)
      | None => None
      end
  | stdZeroSecond =>
      match getnum value true with
      | Some (s, rest) =>
          if 60 <=? s then None
          else
            let f := mkFields (year f) (month f) (day f) (hour f) (min f) s (nsec f) (zoneOffset f) in
            match rest with
            | String "." frac =>
                (* a fractional second the layout does not mention *)
                let n := count_digits frac in
                if (0 <? n)%nat then
                  let '(ns, rest') := leadingInt 0 frac in
                  if 1000000000 <=? ns then None
                  else Some (mkFields (year f) (month f) (day f) (hour f) (min f) s
                               (ns * 10 ^ Z.max 0 (9 - Z.of_nat n)) (zoneOffset f), rest')
                else Some (f, rest)
            | _ => Some (f, rest)
            end
      | None => None
      end
  | stdNumTZ =>
      if (String.length value <? 5)%nat then None
      else
        match atoi (take 2 (drop 1 value)), atoi (take 2 (drop 3 value)) with
        | Some hr, Some mm =>
            let off := (hr * 60 + mm) * 60 in
            if (take 1 value =? "+")%string then Some (set_zone off f, drop 5 value)
            else if (take 1 value =? "-")%string then Some (set_zone (- off) f, drop 5 value)
            else None
        | _, _ => None
        end
  | stdTZ =>
      if (take 3 value =? "UTC")%string then Some (f, drop 3 value)
      else if (take 3 value =? "GMT")%string then None   (* GMT+h is left out *)
      else match parseTimeZone value with
           | Some n => Some (f, drop n value)   (* a zone the UTC process does not know: offset 0 *)
           | None => None
           end
  end.

Fixpoint parse_chunks (l : list chunk) (f : fields) (value : string) : option fields :=
  match l with
  | [] => match value with EmptyString => Some f | _ => None end
  | c :: l' =>
      match parse_chunk c f value with
      | Some (f', rest) => parse_chunks l' f' rest
      | None => None
      end
  end.

(** [time.Parse] *)
Definition Parse (layout value : string) : option Instant :=
  match chunks layout with
  | None => None
  | Some l =>
      match parse_chunks l (mkFields 0 1 1 0 0 0 0 0) value with
      | Some f =>
          if ((day f <? 1) || (daysIn (month f) (year f) <? day f))%bool then None
          else Some (days_from_civil (year f) (month f) (day f) * 86400
                     + hour f * 3600 + min f * 60 + sec f - zoneOffset f,
                     nsec f)
      | None => None
      end
  end.

(** Modelled from the spec: the fixed level-name table is in the generated
    package [pganalyze_collector], outside [parse.go].  The names are those
    of the PostgreSQL severities and of the secondary lines of a message,
    numbered from the unknown level 0. *)
Definition LogLevel_value : list (string * Z) :=
  [("UNKNOWN", 0); ("DEBUG", 1); ("INFO", 2); ("NOTICE", 3); ("WARNING", 4);
   ("ERROR", 5); ("LOG", 6); ("FATAL", 7); ("PANIC", 8); ("DETAIL", 9);
   ("HINT", 10); ("CONTEXT", 11); ("STATEMENT", 12); ("QUERY", 13)]%string.

Fixpoint map_get (m : list (string * Z)) (k : string) : option Z :=
  match m with
  | [] => None
  | (k', v) :: m' => if (k =? k')%string then Some v else map_get m' k
  end.

#[global] Instance world : World := {|
  Time := Instant;
  zeroTime := zeroInstant;
  time_Parse := Parse;
  Before := before;
  Now_Year := 2018;
  LogLineInformation_LogLevel_value := map_get LogLevel_value;
  uuid_UUID := Z;
  uuid_Nil := 0;
  Rand := Z;
  NewV4 := fun r => (r + 1, r + 1)
|}.

End GoWorld.


(** * The collection runs ([runner/activity.go] and [input/full.go])

    [processActivityForServer] and [CollectFull] are sequences of calls into
    other packages of the collector ([postgres], [grant], [output],
    [system], [util]) and of the standard library, with tests of what the
    calls return.  They are modelled as programs over these calls: a
    program either returns, or makes a call and goes on with its answer.
    What a call answers is left to the environment in which a program
    runs, and a run records every call with its answer. *)

Section Programs.

Variable call : Type.
Variable answer : call -> Type.

Inductive Prog (A : Type) : Type :=
| Ret (a : A)
| Call (c : call) (k : answer c -> Prog A).

Arguments Ret {A} a.
Arguments Call {A} c k.

Fixpoint bind {A B : Type} (p : Prog A) (f : A -> Prog B) : Prog B :=
  match p with
  | Ret a => f a
  | Call c k => Call c (fun x => bind (k x) f)
  end.

(** A call and its answer. *)
Definition Event : Type := {c : call & answer c}.

(** The run of a program in an environment with states [S] that answers
    the calls by [h]: the result, the calls made with their answers in
    order, and the last state of the environment. *)
Fixpoint perform {S A : Type} (h : forall c, S -> answer c * S) (p : Prog A)
    (s : S) : A * list Event * S :=
  match p with
  | Ret a => (a, [], s)
  | Call c k =>
      let '(x, s') := h c s in
      let '(a, tr, s'') := perform h (k x) s' in
      (a, existT answer c x :: tr, s'')
  end.

End Programs.

Arguments Ret {call answer A} a.
Arguments Call {call answer A} c k.
Arguments bind {call answer A B} p f.
Arguments perform {call answer S A} h p s.

(** ** [runner/activity.go] *)

Module Activity.

(** The types and the pure functions of the other packages that the file
    uses: [error] is a non-nil error, [Server] a [*state.Server], [DB] a
    [*sql.DB], [Logger] a [*util.Logger]. *)
Class Packages : Type := {
  error : Type;
  Server : Type;
  CollectionOpts : Type;
  Logger : Type;
  DB : Type;
  Grant : Type;
  PostgresVersion : Type;
  SystemType : Type;
  IgnoreSchemaRegexp : Type;
  PostgresBackends : Type;
  PostgresVacuums : Type;
  time_Time : Type;
  PersistedActivityState : Type;
  (* the zero value of [state.Grant] *)
  zeroGrant : Grant;
  (* [globalCollectionOpts.ForceEmptyGrant], [globalCollectionOpts.TestRun] *)
  ForceEmptyGrant : CollectionOpts -> bool;
  TestRun : CollectionOpts -> bool;
  (* [newGrant.Config.EnableActivity] *)
  EnableActivity : Grant -> bool;
  (* [activity.Version.Numeric], [activity.Version.Short] *)
  Numeric : PostgresVersion -> Z;
  Short : PostgresVersion -> string;
  MinRequiredPostgresVersion : Z;
  (* [newState.ActivitySnapshotAt = t] *)
  set_ActivitySnapshotAt :
    time_Time -> PersistedActivityState -> PersistedActivityState;
  errors_Wrap : error -> string -> error;
  (* [fmt.Errorf] with one [%s] argument *)
  fmt_Errorf : string -> string -> error
}.

Section Process.

Context {P : Packages}.

(** [state.TransientActivityState], with the fields that are set. *)
Record TransientActivityState : Type := mkTransientActivityState {
  Version : PostgresVersion;
  Backends : PostgresBackends;
  Vacuums : PostgresVacuums;
  CollectedAt : time_Time
}.

(** The calls.  [server] is a pointer: reading one of its fields is a call
    too, answered with what the field holds at that time. *)
Inductive call : Type :=
| Read_ActivityPrevState (server : Server)
| Read_SystemType (server : Server)
| Read_IgnoreSchemaRegexp (server : Server)
| GetDefaultGrant (server : Server) (opts : CollectionOpts) (logger : Logger)
| PrintError (logger : Logger) (msg : string)
| PrintVerbose (logger : Logger) (msg : string)
| EstablishConnection (server : Server) (logger : Logger)
    (opts : CollectionOpts) (name : string)
| Close (connection : DB)
| GetPostgresVersion (logger : Logger) (connection : DB)
| GetBackends (logger : Logger) (connection : DB) (version : PostgresVersion)
    (systemType : SystemType)
| GetVacuumProgress (logger : Logger) (connection : DB)
    (version : PostgresVersion) (ignoreSchemaRegexp : IgnoreSchemaRegexp)
| Now
| SubmitCompactActivitySnapshot (server : Server) (grant : Grant)
    (opts : CollectionOpts) (logger : Logger)
    (activity : TransientActivityState).

(** What each call returns; an [error] result is [None] for [nil]. *)
Definition answer (c : call) : Type :=
  match c with
  | Read_ActivityPrevState _ => PersistedActivityState
  | Read_SystemType _ => SystemType
  | Read_IgnoreSchemaRegexp _ => IgnoreSchemaRegexp
  | GetDefaultGrant _ _ _ => (Grant * option error)%type
  | PrintError _ _ => unit
  | PrintVerbose _ _ => unit
  | EstablishConnection _ _ _ _ => (DB * option error)%type
  | Close _ => option error
  | GetPostgresVersion _ _ => (PostgresVersion * option error)%type
  | GetBackends _ _ _ _ => (PostgresBackends * option error)%type
  | GetVacuumProgress _ _ _ _ => (PostgresVacuums * option error)%type
  | Now => time_Time
  | SubmitCompactActivitySnapshot _ _ _ _ _ => option error
  end.

(** The three results of [processActivityForServer]. *)
Definition result : Type := (PersistedActivityState * bool * option error)%type.

(** The function from the [defer] to its end: the part that runs with the
    connection open. *)
Definition collect (server : Server) (globalCollectionOpts : CollectionOpts)
    (logger : Logger) (newGrant : Grant) (newState : PersistedActivityState)
    (connection : DB) : Prog call answer result :=
  Call (GetPostgresVersion logger connection) (fun '(version, err) =>
  match err with
  | Some err =>
      Ret (newState, false,
           Some (errors_Wrap err "error collecting postgres version"))
  | None =>
  if (Numeric version <? MinRequiredPostgresVersion)%Z then
    Ret (newState, false,
         Some (fmt_Errorf
                 "Error: Your PostgreSQL server version (%s) is too old, 9.2 or newer is required"
                 (Short version)))
  else
  Call (Read_SystemType server) (fun systemType =>
  Call (GetBackends logger connection version systemType) (fun '(backends, err) =>
  match err with
  | Some err =>
      Ret (newState, false,
           Some (errors_Wrap err "error collecting pg_stat_activity"))
  | None =>
  Call (Read_IgnoreSchemaRegexp server) (fun ignoreSchemaRegexp =>
  Call (GetVacuumProgress logger connection version ignoreSchemaRegexp)
    (fun '(vacuums, err) =>
  match err with
  | Some err =>
      Ret (newState, false,
           Some (errors_Wrap err "error collecting pg_stat_vacuum_progress"))
  | None =>
  Call Now (fun collectedAt =>
  let activity :=
    mkTransientActivityState version backends vacuums collectedAt in
  Call (SubmitCompactActivitySnapshot server newGrant globalCollectionOpts
          logger activity) (fun err =>
  match err with
  | Some err =>
      Ret (newState, false,
           Some (errors_Wrap err "failed to upload/send activity snapshot"))
  | None =>
      Ret (set_ActivitySnapshotAt (CollectedAt activity) newState, true, None)
  end))
  end))
  end))
  end).

(** The function from [postgres.EstablishConnection] on.  The deferred
    [connection.Close()] runs when the function returns, whatever the
    [return] statement, and what it returns is dropped. *)
Definition connect (server : Server) (globalCollectionOpts : CollectionOpts)
    (logger : Logger) (newGrant : Grant) (newState : PersistedActivityState)
    : Prog call answer result :=
  Call (EstablishConnection server logger globalCollectionOpts "")
    (fun '(connection, err) =>
  match err with
  | Some err =>
      Ret (newState, false, Some (errors_Wrap err "failed to connect to database"))
  | None =>
      bind (collect server globalCollectionOpts logger newGrant newState
              connection)
        (fun res => Call (Close connection) (fun _ => Ret res))
  end).

Definition processActivityForServer (server : Server)
    (globalCollectionOpts : CollectionOpts) (logger : Logger)
    : Prog call answer result :=
  Call (Read_ActivityPrevState server) (fun newState =>
  if negb (ForceEmptyGrant globalCollectionOpts) then
    Call (GetDefaultGrant server globalCollectionOpts logger)
      (fun '(newGrant, err) =>
    match err with
    | Some err =>
        Ret (newState, false,
             Some (errors_Wrap err
                     "could not get default grant for activity snapshot"))
    | None =>
        if negb (EnableActivity newGrant) then
          Call (if TestRun globalCollectionOpts
                then PrintError logger
                       "  Failed - Activity snapshots disabled by pganalyze"
                else PrintVerbose logger
                       "Activity snapshots disabled by pganalyze, skipping")
            (fun _ => Ret (newState, false, None))
        else connect server globalCollectionOpts logger newGrant newState
    end)
  else connect server globalCollectionOpts logger zeroGrant newState).

End Process.

End Activity.

(** *** [CollectActivityFromAllServers]

    The function starts one goroutine for each server that it does not
    skip and waits for them.  A goroutine is a program of its own; the
    variable [allSuccessful], which the goroutines share with the function,
    the fields of [*server] and the mutex are reached through calls, and it
    is the environment that interleaves the goroutines. *)

Module Servers.

Import Activity.

Section Collect.

Context {P : Packages}.

(** The calls of a goroutine: the calls of [processActivityForServer], and
    those of the function literal itself. *)
Inductive call : Type :=
| Process (c : Activity.call)
| Read_SectionName (server : Server)
| Read_ErrorCallback (server : Server)
| Read_SuccessCallback (server : Server)
| WithPrefixAndRememberErrors (logger : Logger) (prefix : string)
| PrintInfo (logger : Logger) (msg : string)
| Lock (server : Server)
| Unlock (server : Server)
| Write_ActivityPrevState (server : Server) (newState : PersistedActivityState)
| Write_allSuccessful (b : bool)
| PrintError (logger : Logger) (format : string) (err : error)
| Go_runCompletionCallback (callbackType callbackCmd sectionName
                            snapshotType : string) (err : option error)
    (logger : Logger)
| Done.

Definition answer (c : call) : Type :=
  match c with
  | Process c => Activity.answer c
  | Read_SectionName _ => string
  | Read_ErrorCallback _ => string
  | Read_SuccessCallback _ => string
  | WithPrefixAndRememberErrors _ _ => Logger
  | _ => unit
  end.

(** A program of [processActivityForServer] as a part of a goroutine. *)
Fixpoint lift {A : Type} (p : Prog Activity.call Activity.answer A)
    : Prog call answer A :=
  match p with
  | Ret a => Ret a
  | Call c k => Call (Process c) (fun x => lift (k x))
  end.

(** The function literal, from the results of [processActivityForServer]
    to [wg.Done()]. *)
Definition conclude (server : Server) (prefixedLogger : Logger)
    (res : Activity.result) : Prog call answer unit :=
  let '(newState, success, err) := res in
  match err with
  | Some err =>
      Call (Unlock server) (fun _ =>
      Call (Write_allSuccessful false) (fun _ =>
      Call (PrintError prefixedLogger
              "Could not collect activity for server: %s" err) (fun _ =>
      Call (Read_ErrorCallback server) (fun errorCallback =>
      if negb (errorCallback =? "") then
        Call (Read_ErrorCallback server) (fun errorCallback =>
        Call (Read_SectionName server) (fun sectionName =>
        Call (Go_runCompletionCallback "error" errorCallback sectionName
                "activity" (Some err) prefixedLogger) (fun _ =>
        Call Done (fun _ => Ret tt))))
      else Call Done (fun _ => Ret tt)))))
  | None =>
      Call (Write_ActivityPrevState server newState) (fun _ =>
      Call (Unlock server) (fun _ =>
      if success then
        Call (Read_SuccessCallback server) (fun successCallback =>
        if negb (successCallback =? "") then
          Call (Read_SuccessCallback server) (fun successCallback =>
          Call (Read_SectionName server) (fun sectionName =>
          Call (Go_runCompletionCallback "success" successCallback sectionName
                  "activity" None prefixedLogger) (fun _ =>
          Call Done (fun _ => Ret tt))))
        else Call Done (fun _ => Ret tt))
      else Call Done (fun _ => Ret tt)))
  end.

(** The function literal that runs as a goroutine. *)
Definition goroutine (globalCollectionOpts : CollectionOpts) (logger : Logger)
    (server : Server) : Prog call answer unit :=
  Call (Read_SectionName server) (fun sectionName =>
  Call (WithPrefixAndRememberErrors logger sectionName) (fun prefixedLogger =>
  let locked : Prog call answer unit :=
    Call (Lock server) (fun _ =>
    bind (lift (processActivityForServer server globalCollectionOpts
                  prefixedLogger))
      (conclude server prefixedLogger)) in
  if TestRun globalCollectionOpts then
    Call (PrintInfo prefixedLogger "Testing activity snapshots...") (fun _ =>
    locked)
  else locked)).

(** The calls of the function itself; [Go body] is the [go] statement
    that starts the goroutine [body]. *)
Inductive main_call : Type :=
| Assign_allSuccessful (b : bool)
| Read_DisableActivity (server : Server)
| Read_Grant_Valid (server : Server)
| Read_Grant_EnableActivity (server : Server)
| Add (delta : Z)
| Go (body : Prog call answer unit)
| Wait
| Read_allSuccessful.

Definition main_answer (c : main_call) : Type :=
  match c with
  | Read_DisableActivity _ => bool
  | Read_Grant_Valid _ => bool
  | Read_Grant_EnableActivity _ => bool
  | Read_allSuccessful => bool
  | _ => unit
  end.

(** The loop over [servers], then [wg.Wait()] and the [return] of the
    named result. *)
Fixpoint each (globalCollectionOpts : CollectionOpts) (logger : Logger)
    (servers : list Server) : Prog main_call main_answer bool :=
  let each := each globalCollectionOpts logger in
  match servers with
  | [] =>
      Call Wait (fun _ => Call Read_allSuccessful (fun allSuccessful : bool =>
      Ret allSuccessful))
  | server :: rest =>
      let start : Prog main_call main_answer bool :=
        Call (Add 1) (fun _ =>
        Call (Go (goroutine globalCollectionOpts logger server)) (fun _ =>
        each rest)) in
      Call (Read_DisableActivity server) (fun disableActivity : bool =>
      if disableActivity then each rest
      else
        Call (Read_Grant_Valid server) (fun valid : bool =>
        if valid then
          Call (Read_Grant_EnableActivity server) (fun enableActivity : bool =>
          if negb enableActivity then each rest else start)
        else start))
  end.

Definition CollectActivityFromAllServers (servers : list Server)
    (globalCollectionOpts : CollectionOpts) (logger : Logger)
    : Prog main_call main_answer bool :=
  Call (Assign_allSuccessful true) (fun _ =>
  each globalCollectionOpts logger servers).

End Collect.

End Servers.

(** ** [input/full.go] *)

Module Full.

(** The types and the pure functions of the other packages that the file
    uses.  [server] is a [state.Server] passed by value: its fields are
    read from the copy.  The fields of [state.State] start as the zero
    values of their types. *)
Class Packages : Type := {
  error : Type;
  Server : Type;
  ServerConfig : Type;
  CollectionOpts : Type;
  Logger : Type;
  DB : Type;
  PostgresVersion : Type;
  Oid : Type;
  PostgresRoles : Type;
  PostgresDatabases : Type;
  PostgresBackends : Type;
  PostgresStatements : Type;
  PostgresRelations : Type;
  PostgresRelationStats : Type;
  PostgresIndexStats : Type;
  PostgresSettings : Type;
  PostgresFunctions : Type;
  SystemState : Type;
  LogFiles : Type;
  PostgresExplainInputs : Type;
  PostgresExplains : Type;
  zeroRoles : PostgresRoles;
  zeroDatabases : PostgresDatabases;
  zeroBackends : PostgresBackends;
  zeroStatements : PostgresStatements;
  zeroRelations : PostgresRelations;
  zeroRelationStats : PostgresRelationStats;
  zeroIndexStats : PostgresIndexStats;
  zeroSettings : PostgresSettings;
  zeroFunctions : PostgresFunctions;
  zeroLogs : LogFiles;
  zeroExplains : PostgresExplains;
  (* [server.Connection], [server.Config] *)
  Connection : Server -> DB;
  Config : Server -> ServerConfig;
  CollectPostgresRelations : CollectionOpts -> bool;
  CollectPostgresSettings : CollectionOpts -> bool;
  CollectPostgresFunctions : CollectionOpts -> bool;
  CollectSystemInformation : CollectionOpts -> bool;
  CollectLogs : CollectionOpts -> bool;
  CollectExplain : CollectionOpts -> bool;
  (* [postgresVersion.Numeric], [postgresVersion.Short] *)
  Numeric : PostgresVersion -> Z;
  Short : PostgresVersion -> string;
  MinRequiredPostgresVersion : Z;
  (* [fmt.Errorf] with one [%s] argument *)
  fmt_Errorf : string -> string -> error
}.

Section Collect.

Context {P : Packages}.

(** [state.State], with the fields that the function sets; [System] is a
    pointer, [None] for [nil]. *)
Record State : Type := mkState {
  Roles : PostgresRoles;
  Databases : PostgresDatabases;
  Backends : PostgresBackends;
  Statements : PostgresStatements;
  Relations : PostgresRelations;
  RelationStats : PostgresRelationStats;
  IndexStats : PostgresIndexStats;
  Settings : PostgresSettings;
  Functions : PostgresFunctions;
  System : option SystemState;
  Logs : LogFiles;
  Explains : PostgresExplains
}.

Definition zeroState : State :=
  mkState zeroRoles zeroDatabases zeroBackends zeroStatements zeroRelations
    zeroRelationStats zeroIndexStats zeroSettings zeroFunctions None zeroLogs
    zeroExplains.

Definition set_Roles (v : PostgresRoles) (s : State) : State :=
  mkState v (Databases s) (Backends s) (Statements s) (Relations s)
    (RelationStats s) (IndexStats s) (Settings s) (Functions s) (System s)
    (Logs s) (Explains s).
Definition set_Databases (v : PostgresDatabases) (s : State) : State :=
  mkState (Roles s) v (Backends s) (Statements s) (Relations s)
    (RelationStats s) (IndexStats s) (Settings s) (Functions s) (System s)
    (Logs s) (Explains s).
Definition set_Backends (v : PostgresBackends) (s : State) : State :=
  mkState (Roles s) (Databases s) v (Statements s) (Relations s)
    (RelationStats s) (IndexStats s) (Settings s) (Functions s) (System s)
    (Logs s) (Explains s).
Definition set_Statements (v : PostgresStatements) (s : State) : State :=
  mkState (Roles s) (Databases s) (Backends s) v (Relations s)
    (RelationStats s) (IndexStats s) (Settings s) (Functions s) (System s)
    (Logs s) (Explains s).
Definition set_Relations (v : PostgresRelations) (s : State) : State :=
  mkState (Roles s) (Databases s) (Backends s) (Statements s) v
    (RelationStats s) (IndexStats s) (Settings s) (Functions s) (System s)
    (Logs s) (Explains s).
Definition set_RelationStats (v : PostgresRelationStats) (s : State) : State :=
  mkState (Roles s) (Databases s) (Backends s) (Statements s) (Relations s)
    v (IndexStats s) (Settings s) (Functions s) (System s)
    (Logs s) (Explains s).
Definition set_IndexStats (v : PostgresIndexStats) (s : State) : State :=
  mkState (Roles s) (Databases s) (Backends s) (Statements s) (Relations s)
    (RelationStats s) v (Settings s) (Functions s) (System s)
    (Logs s) (Explains s).
Definition set_Settings (v : PostgresSettings) (s : State) : State :=
  mkState (Roles s) (Databases s) (Backends s) (Statements s) (Relations s)
    (RelationStats s) (IndexStats s) v (Functions s) (System s)
    (Logs s) (Explains s).
Definition set_Functions (v : PostgresFunctions) (s : State) : State :=
  mkState (Roles s) (Databases s) (Backends s) (Statements s) (Relations s)
    (RelationStats s) (IndexStats s) (Settings s) v (System s)
    (Logs s) (Explains s).
Definition set_System (v : option SystemState) (s : State) : State :=
  mkState (Roles s) (Databases s) (Backends s) (Statements s) (Relations s)
    (RelationStats s) (IndexStats s) (Settings s) (Functions s) v
    (Logs s) (Explains s).
Definition set_Logs (v : LogFiles) (s : State) : State :=
  mkState (Roles s) (Databases s) (Backends s) (Statements s) (Relations s)
    (RelationStats s) (IndexStats s) (Settings s) (Functions s) (System s)
    v (Explains s).
Definition set_Explains (v : PostgresExplains) (s : State) : State :=
  mkState (Roles s) (Databases s) (Backends s) (Statements s) (Relations s)
    (RelationStats s) (IndexStats s) (Settings s) (Functions s) (System s)
    (Logs s) v.

(** The calls.  [PrintError] takes the format and the errors given as
    its arguments. *)
Inductive call : Type :=
| GetPostgresVersion (logger : Logger) (db : DB)
| CurrentDatabaseOid (db : DB)
| PrintError (logger : Logger) (format : string) (args : list error)
| GetRoles (logger : Logger) (db : DB) (version : PostgresVersion)
| GetDatabases (logger : Logger) (db : DB) (version : PostgresVersion)
| GetBackends (logger : Logger) (db : DB) (version : PostgresVersion)
| GetStatements (logger : Logger) (db : DB) (version : PostgresVersion)
| GetRelations (db : DB) (version : PostgresVersion) (currentDatabaseOid : Oid)
| GetRelationStats (db : DB) (version : PostgresVersion)
| GetIndexStats (db : DB) (version : PostgresVersion)
| GetSettings (db : DB) (version : PostgresVersion)
| GetFunctions (db : DB) (version : PostgresVersion)
| GetSystemState (config : ServerConfig) (logger : Logger)
| GetLogLines (config : ServerConfig)
| RunExplain (db : DB) (inputs : PostgresExplainInputs).

(** What each call returns; an [error] result is [None] for [nil]. *)
Definition answer (c : call) : Type :=
  match c with
  | GetPostgresVersion _ _ => (PostgresVersion * option error)%type
  | CurrentDatabaseOid _ => (Oid * option error)%type
  | PrintError _ _ _ => unit
  | GetRoles _ _ _ => (PostgresRoles * option error)%type
  | GetDatabases _ _ _ => (PostgresDatabases * option error)%type
  | GetBackends _ _ _ => (PostgresBackends * option error)%type
  | GetStatements _ _ _ => (PostgresStatements * option error)%type
  | GetRelations _ _ _ => (PostgresRelations * option error)%type
  | GetRelationStats _ _ => (PostgresRelationStats * option error)%type
  | GetIndexStats _ _ => (PostgresIndexStats * option error)%type
  | GetSettings _ _ => (PostgresSettings * option error)%type
  | GetFunctions _ _ => (PostgresFunctions * option error)%type
  | GetSystemState _ _ => SystemState
  | GetLogLines _ => (LogFiles * PostgresExplainInputs)%type
  | RunExplain _ _ => PostgresExplains
  end.

(** The two named results, [s] and [err]. *)
Definition result : Type := (State * option error)%type.

(** [logger.PrintError(...); return] with [err] set. *)
Definition fail (logger : Logger) (format : string) (args : list error)
    (s : State) (err : error) : Prog call answer result :=
  Call (PrintError logger format args) (fun _ => Ret (s, Some err)).

(** The end of the function: the system state and the logs, which give no
    error. *)
Definition collect_system_and_logs (server : Server)
    (collectionOpts : CollectionOpts) (logger : Logger) (s : State)
    : Prog call answer result :=
  let logs (s : State) : Prog call answer result :=
    if CollectLogs collectionOpts then
      Call (GetLogLines (Config server)) (fun '(logs, explainInputs) =>
      let s := set_Logs logs s in
      if CollectExplain collectionOpts then
        Call (RunExplain (Connection server) explainInputs) (fun explains =>
        Ret (set_Explains explains s, None))
      else Ret (s, None))
    else Ret (s, None) in
  if CollectSystemInformation collectionOpts then
    Call (GetSystemState (Config server) logger) (fun systemState =>
    logs (set_System (Some systemState) s))
  else logs s.

(** The collections that an option turns on. *)
Definition collect_functions (server : Server)
    (collectionOpts : CollectionOpts) (logger : Logger)
    (postgresVersion : PostgresVersion) (s : State)
    : Prog call answer result :=
  if CollectPostgresFunctions collectionOpts then
    Call (GetFunctions (Connection server) postgresVersion)
      (fun '(functions, err) =>
    let s := set_Functions functions s in
    match err with
    | Some err => fail logger "Error collecting stored procedures" [] s err
    | None => collect_system_and_logs server collectionOpts logger s
    end)
  else collect_system_and_logs server collectionOpts logger s.

Definition collect_settings (server : Server)
    (collectionOpts : CollectionOpts) (logger : Logger)
    (postgresVersion : PostgresVersion) (s : State)
    : Prog call answer result :=
  if CollectPostgresSettings collectionOpts then
    Call (GetSettings (Connection server) postgresVersion)
      (fun '(settings, err) =>
    let s := set_Settings settings s in
    match err with
    | Some err => fail logger "Error collecting config settings" [] s err
    | None => collect_functions server collectionOpts logger postgresVersion s
    end)
  else collect_functions server collectionOpts logger postgresVersion s.

Definition collect_relations (server : Server)
    (collectionOpts : CollectionOpts) (logger : Logger)
    (postgresVersion : PostgresVersion) (currentDatabaseOid : Oid) (s : State)
    : Prog call answer result :=
  if CollectPostgresRelations collectionOpts then
    Call (GetRelations (Connection server) postgresVersion currentDatabaseOid)
      (fun '(relations, err) =>
    let s := set_Relations relations s in
    match err with
    | Some err =>
        fail logger "Error collecting relation/index information: %s" [err] s err
    | None =>
    Call (GetRelationStats (Connection server) postgresVersion)
      (fun '(relationStats, err) =>
    let s := set_RelationStats relationStats s in
    match err with
    | Some err => fail logger "Error collecting relation stats: %s" [err] s err
    | None =>
    Call (GetIndexStats (Connection server) postgresVersion)
      (fun '(indexStats, err) =>
    let s := set_IndexStats indexStats s in
    match err with
    | Some err => fail logger "Error collecting index stats: %s" [err] s err
    | None => collect_settings server collectionOpts logger postgresVersion s
    end)
    end)
    end)
  else collect_settings server collectionOpts logger postgresVersion s.

(** The collections that are always made, once the version is known to
    be recent enough. *)
Definition collect_always (server : Server)
    (collectionOpts : CollectionOpts) (logger : Logger)
    (postgresVersion : PostgresVersion) (currentDatabaseOid : Oid) (s : State)
    : Prog call answer result :=
  Call (GetRoles logger (Connection server) postgresVersion)
    (fun '(roles, err) =>
  let s := set_Roles roles s in
  match err with
  | Some err => fail logger "Error collecting pg_roles" [] s err
  | None =>
  Call (GetDatabases logger (Connection server) postgresVersion)
    (fun '(databases, err) =>
  let s := set_Databases databases s in
  match err with
  | Some err => fail logger "Error collecting pg_databases" [] s err
  | None =>
  Call (GetBackends logger (Connection server) postgresVersion)
    (fun '(backends, err) =>
  let s := set_Backends backends s in
  match err with
  | Some err => fail logger "Error collecting pg_stat_activity" [] s err
  | None =>
  Call (GetStatements logger (Connection server) postgresVersion)
    (fun '(statements, err) =>
  let s := set_Statements statements s in
  match err with
  | Some err => fail logger "Error collecting pg_stat_statements" [] s err
  | None =>
      collect_relations server collectionOpts logger postgresVersion
        currentDatabaseOid s
  end)
  end)
  end)
  end).

Definition CollectFull (server : Server) (collectionOpts : CollectionOpts)
    (logger : Logger) : Prog call answer result :=
  let s := zeroState in
  Call (GetPostgresVersion logger (Connection server))
    (fun '(postgresVersion, err) =>
  match err with
  | Some err => fail logger "Error collecting Postgres Version" [] s err
  | None =>
  Call (CurrentDatabaseOid (Connection server))
    (fun '(currentDatabaseOid, err) =>
  match err with
  | Some err => fail logger "Error getting OID of current database" [] s err
  | None =>
  if (Numeric postgresVersion <? MinRequiredPostgresVersion)%Z then
    Ret (s, Some (fmt_Errorf
                    "Error: Your PostgreSQL server version (%s) is too old, 9.2 or newer is required."
                    (Short postgresVersion)))
  else
    collect_always server collectionOpts logger postgresVersion
      currentDatabaseOid s
  end)
  end).

End Collect.

End Full.
(** * Notions used in the statements *)

(** The values of the type [int64]. *)
Definition is_int64 (z : Z) : Prop := (MinInt64 <= z <= MaxInt64)%Z.

(** The end of a piece is a line boundary when the piece is empty or ends
    with a newline. *)
Definition line_boundary (piece : string) : Prop :=
  piece = "" \/ exists b, piece = b ++ nl.

(** The total length of the lines read. *)
Fixpoint total_len (ls : list string) : Z :=
  match ls with
  | [] => 0
  | l :: ls' => len l + total_len ls'
  end.


(** ** What a match of an expression is *)

(** [iter P mn mx s s']: between [mn] and [mx] rounds of [P] lead from the
    suffix [s] to the suffix [s']. *)
Inductive iter (P : string -> string -> Prop)
    : nat -> option nat -> string -> string -> Prop :=
| iter_stop : forall mx s, iter P 0 mx s s
| iter_more : forall mn mx s mid s',
    mx <> Some 0 -> P s mid ->
    iter P (pred mn) (option_map pred mx) mid s' ->
    iter P mn mx s s'.

(** [spans r n s s']: in a text of [n] bytes, [r] matches the bytes between
    the suffix [s] and its suffix [s']. *)
Fixpoint spans (r : regex) (n : nat) (s s' : string) : Prop :=
  match r with
  | Empty => s' = s
  | One l => exists c, s = String c s' /\ class_matches l c = true
  | Bol => s' = s /\ String.length s = n
  | Eol => s' = s /\ s = ""
  | Cat r1 r2 => exists mid, spans r1 n s mid /\ spans r2 n mid s'
  | Rep mn mx r' => iter (spans r' n) mn mx s s'
  | Group _ r' => spans r' n s s'
  end.

(** What a sound matcher for [P] is: a success goes through a match of [P]
    and a success of the continuation, and the number of groups is kept. *)
Definition sound (P : string -> string -> Prop)
    (body : string -> list string -> cont -> option (list string)) : Prop :=
  forall s caps k res,
    body s caps k = Some res ->
    exists s' caps',
      P s s' /\ List.length caps' = List.length caps /\ k s' caps' = Some res.

(** A matcher that asks its continuation only about suffixes that are not
    longer than the one it was given. *)
Definition local
    (body : string -> list string -> cont -> option (list string)) : Prop :=
  forall s caps (k k' : cont),
    (forall s' caps',
       String.length s' <= String.length s -> k s' caps' = k' s' caps') ->
    body s caps k = body s caps k'.

(** The first byte of [s] is in the class [l]. *)
Definition head_in (l : list atom) (s : string) : bool :=
  match s with
  | String c _ => class_matches l c
  | "" => false
  end.

(** [s] without the longest run of bytes of the class [l] at its head. *)
Fixpoint skip_class (l : list atom) (s : string) : string :=
  match s with
  | String c s' => if class_matches l c then skip_class l s' else s
  | "" => ""
  end.

(** The expression starts with [^]. *)
Definition anchored (r : Regexp) : bool :=
  match re r with
  | Cat Bol _ => true
  | _ => false
  end.

(** What follows the first [k] items of a sequence. *)
Fixpoint after (k : nat) (r : regex) : regex :=
  match k, r with
  | S k', Cat _ r' => after k' r'
  | _, _ => r
  end.

(** The number of bytes of a part that always matches the same number
    of bytes: one byte of a class, or a fixed number of them. *)
Definition width (r : regex) : option nat :=
  match r with
  | One _ => Some 1
  | Rep k (Some k') (One _) => if Nat.eqb k k' then Some k else None
  | _ => None
  end.

(** The syntax tree of [TimeRegexp], inside its group. *)
Definition time_regex : regex :=
  Eval vm_compute in
    match re (MustCompile TimeRegexp) with
    | Cat (Group _ t) _ => t
    | _ => Empty
    end.

(** Where a time stamp at the head of [s] ends when a byte that is no
    word byte follows it: after the 19 bytes of the date and the time, the
    fraction if there is one, the space, the sign if there is one, and the
    longest run of word bytes. *)
Definition time_end (s : string) : string :=
  let t := drop 19 s in
  let t := if HasPrefix t "." then skip_class [Digit] (drop 1 t) else t in
  let t := drop 1 t in
  let t := if head_in [Ch "-"; Ch "+"] t then drop 1 t else t in
  skip_class [Word] t.

(** Where the process number ends in the grammars that have [ [%p] after
    the time stamp: after the two bytes of the space and the bracket, and
    the longest run of digits. *)
Definition pid_end (s : string) : string :=
  skip_class [Digit] (drop 2 (time_end s)).

(** The payload of a syslog line, the payload with its escaped tabs
    replaced, and the submatches of the bracketed sub-format in it. *)
Definition syslog_payload (line : string) : string :=
  part (FindStringSubmatch RsyslogRegexp line) 7.
Definition syslog_text (line : string) : string :=
  Replace (syslog_payload line) "#011" (String tab "").
Definition syslog_sub (line : string) : list string :=
  FindStringSubmatch LogPrefixNoTimestampUserDatabaseAppRegexp (syslog_text line).

(** The grammars in the order in which detection tries them, the syslog
    wrapper apart. *)
Definition detection_order : list (string * Regexp) :=
  [(LogPrefixAmazonRds, LogPrefixAmazonRdsRegxp);
   (LogPrefixCustom1, LogPrefixCustom1Regexp);
   (LogPrefixCustom2, LogPrefixCustom2Regexp);
   (LogPrefixCustom4, LogPrefixCustom4Regexp);
   (LogPrefixCustom3, LogPrefixCustom3Regexp);
   (LogPrefixCustom5, LogPrefixCustom5Regexp);
   (LogPrefixCustom6, LogPrefixCustom6Regexp);
   (LogPrefixCustom7, LogPrefixCustom7Regexp);
   (LogPrefixSimple, LogPrefixSimpleRegexp)].

Section Notions.

Context {W : World}.

(** A complete line: a string that [ReadString] returns whole, with a nil
    error. *)
Definition is_line (l : string) : Prop := lines l = ([l], "").

(** A line that the scan loop turns into a record: it parses as a new
    record and is not older than the cutoff. *)
Definition emitted_line (linesNewerThan : Time) (line : string) : Prop :=
  snd (ParseLogLineWithPrefix "" line) = true /\
  Before (OccurredAt (fst (ParseLogLineWithPrefix "" line))) linesNewerThan = false.

(** A piece whose first complete line, if it has one, is turned into a
    record. *)
Definition starts_with_record (linesNewerThan : Time) (piece : string) : Prop :=
  match fst (lines piece) with
  | [] => True
  | line :: _ => emitted_line linesNewerThan line
  end.

(** The grammar of the prefix [prefix] used directly, with no detection:
    the function with its detection chain left out. *)
Definition direct (prefix line : string) : LogLine * bool :=
  match extract prefix false line with
  | None => (zeroLogLine, false)
  | Some v => finish v
  end.

(** The iterations of the scan loop on the lines [ls]. *)
Definition run (linesNewerThan : Time) (ls : list string) (st : Scan) : Scan :=
  fold_left (step linesNewerThan) ls st.

(** Two records that differ at most in [Content] and [ByteEnd]. *)
Definition same_but_content_and_end (a b : LogLine) : Prop :=
  OccurredAt a = OccurredAt b /\ Username a = Username b /\
  Database a = Database b /\ Application a = Application b /\
  BackendPid a = BackendPid b /\ LogLevel a = LogLevel b /\
  ByteStart a = ByteStart b /\ ByteContentStart a = ByteContentStart b /\
  UUID a = UUID b.

(** The records are in the order of their first bytes, all of them before
    the running offset. *)
Definition ordered (st : Scan) : Prop :=
  StronglySorted Z.le (map ByteStart (logLines st)) /\
  Forall (fun b => (b <= currentByteStart st)%Z) (map ByteStart (logLines st)).

End Notions.

(** ** Sample log lines *)

Module Samples.

(** A line in the format of [LogPrefixSimple]. *)
Definition header : string :=
  "2018-01-01 12:00:00 UTC [123] LOG:  duration: 12.5 ms  statement: SELECT 1" ++ nl.

(** Two lines that no grammar matches. *)
Definition body1 : string := String tab "FROM pg_class" ++ nl.
Definition body2 : string := String tab "WHERE relname = 'x'" ++ nl.

(** A later line in the format of [LogPrefixCustom3]. *)
Definition later : string :=
  "2018-01-01 12:00:05 UTC [124] [user=app,db=prod,app=[unknown]] ERROR:  syntax error" ++ nl.

(** A line in the format of [LogPrefixCustom4]. *)
Definition with_host : string :=
  "2018-01-01 12:00:07.250 +0100 [125] [user=app,db=prod,app=psql,host=10.0.0.7] LOG:  connection authorized" ++ nl.

(** A line in the format of [LogPrefixSimple] whose month is 13. *)
Definition bad_time : string :=
  "2018-13-01 12:00:00 UTC [123] LOG:  checkpoint starting: time" ++ nl.

(** A line in the format of [LogPrefixSimple] whose level name is in no
    table. *)
Definition odd_level : string :=
  "2018-01-01 12:00:00 UTC [123] FOO:  bar" ++ nl.

(** A syslog line whose payload has an escaped tab. *)
Definition syslog : string :=
  "Feb  1 21:48:31 ip-172-31-14-41 postgres[9076]: [3-1] LOG:  database#011system is ready" ++ nl.

(** A line in the envelope of [HerokuPostgresDebugRegexp] with no SQLSTATE
    and no level. *)
Definition heroku_body : string :=
  "[DATABASE] [12-2] #011FROM pg_class" ++ nl.

(** The cutoff 2018-01-01 12:00:03 UTC. *)
Definition after_header : @Time GoWorld.world := (1514808003, 0)%Z.

(** The cutoff that keeps every line of the samples, and the initial state
    of the identifier generator. *)
Definition keep_all : @Time GoWorld.world := GoWorld.zeroInstant.
Definition seed : @Rand GoWorld.world := 0%Z.

End Samples.


(** * Further notions *)

Section MoreNotions.

Context {W : World}.

(** The test of [emitted_line], computed. *)
Definition emitsb (linesNewerThan : Time) (line : string) : bool :=
  (snd (ParseLogLineWithPrefix "" line) &&
   negb (Before (OccurredAt (fst (ParseLogLineWithPrefix "" line)))
           linesNewerThan))%bool.

(** The first [k] identifiers that the generator gives from the state
    [rnd], and its state after them. *)
Fixpoint draws (k : nat) (rnd : Rand) : list uuid_UUID * Rand :=
  match k with
  | 0 => ([], rnd)
  | S k' =>
      let '(u, rnd') := NewV4 rnd in
      let '(us, rnd'') := draws k' rnd' in
      (u :: us, rnd'')
  end.

(** A record whose fields other than the content, the level, the offsets
    and the identifier are the zero values. *)
Definition anonymous (r : LogLine) : Prop :=
  OccurredAt r = zeroTime /\ Username r = "" /\ Database r = "" /\
  Application r = "" /\ BackendPid r = 0%Z.

End MoreNotions.

(** In the debug scan: a line in the envelope of
    [HerokuPostgresDebugRegexp] that lacks the SQLSTATE or the level, and
    a line that adds a record. *)
Definition heroku_continuation (line : string) : bool :=
  let contentParts := FindStringSubmatch HerokuPostgresDebugRegexp line in
  (Nat.eqb (List.length contentParts) 7 &&
   ((part contentParts 4 =? "") || (part contentParts 5 =? "")))%bool.

Definition debug_emits {W : World} (line : string) : bool :=
  let contentParts := FindStringSubmatch HerokuPostgresDebugRegexp line in
  if Nat.eqb (List.length contentParts) 7
  then (negb (part contentParts 4 =? "") && negb (part contentParts 5 =? ""))%bool
  else snd (ParseLogLineWithPrefix "" line).


(** The records that a loop leaves when it returns. *)
Definition records_of {W : World} (o : outcome Scan) : list LogLine :=
  match o with
  | Returns st => logLines st
  | PanicIndexOutOfRange => []
  end.

(** A string with a newline in it. *)
Fixpoint has_newline (s : string) : bool :=
  match s with
  | "" => false
  | String c s' => (Ascii.eqb c newline || has_newline s')%bool
  end.

(** ** Submatches *)

(** Every submatch has at most [N] bytes. *)
Definition bounded (N : nat) (caps : list string) : Prop :=
  Forall (fun c => String.length c <= N) caps.

(** A matcher that, in a text of at most [N] bytes, keeps the submatches
    within [N] bytes and only moves forward. *)
Definition keeps_bound (N : nat)
    (body : string -> list string -> cont -> option (list string)) : Prop :=
  forall s caps k res,
    String.length s <= N -> bounded N caps ->
    body s caps k = Some res ->
    exists s' caps',
      String.length s' <= String.length s /\ bounded N caps' /\
      k s' caps' = Some res.

(** The sequence [r] ends with the group [g] followed by [$]. *)
Fixpoint ends_with_group (g : nat) (r : regex) : bool :=
  match r with
  | Cat (Group i _) (Cat Eol Empty) => Nat.eqb i g
  | Cat _ r' => ends_with_group g r'
  | _ => false
  end.

(** ** Matches that the matcher finds *)

(** What a complete matcher for [P] is: when [P] leads to a suffix at
    which the continuation succeeds, the matcher succeeds. *)
Definition complete (P : string -> string -> Prop)
    (body : string -> list string -> cont -> option (list string)) : Prop :=
  forall s s' caps (k : cont),
    P s s' -> (forall caps', k s' caps' <> None) -> body s caps k <> None.

(** The bound [mx] on the rounds is within the bound [mx0]. *)
Definition bound_le (mx mx0 : option nat) : Prop :=
  match mx0, mx with
  | None, _ => True
  | Some b, Some a => a <= b
  | Some _, None => False
  end.

(** [r] with the numbers of its groups erased. *)
Fixpoint strip (r : regex) : regex :=
  match r with
  | Cat r1 r2 => Cat (strip r1) (strip r2)
  | Rep mn mx r' => Rep mn mx (strip r')
  | Group _ r' => Group 0 (strip r')
  | _ => r
  end.

(** The sequence [r] without its [k]-th item, when that item may match
    nothing. *)
Fixpoint without_optional (k : nat) (r : regex) : regex :=
  match r, k with
  | Cat (Rep 0 _ _) r2, 0 => r2
  | Cat r1 r2, S k' => Cat r1 (without_optional k' r2)
  | _, _ => r
  end.

(** ** Byte ranges *)

(** The ranges [[ByteStart, ByteEnd]] of the records [l] follow each other
    without overlap between the offsets [lo] and [hi], and in each of them
    the content starts inside the range or just after it. *)
Fixpoint packed {W : World} (lo : Z) (l : list LogLine) (hi : Z) : Prop :=
  match l with
  | [] => (lo <= hi)%Z
  | r :: l' =>
      (lo <= ByteStart r /\ ByteStart r <= ByteContentStart r /\
       ByteContentStart r <= ByteEnd r + 1)%Z /\
      packed (ByteEnd r + 1) l' hi
  end.

Module MoreSamples.

(** A prefix that is not supported. *)
Definition other_prefix : string := "%t [%p]: [%l-1] ".

(** A record text short of its newline. *)
Definition partial : string :=
  "2018-01-01 12:00:09 UTC [126] LOG:  checkpoint starting: time".

End MoreSamples.

(** * Notions for the collection runs *)

(** What a run returns, and the calls it made. *)
Definition returned {call : Type} {answer : call -> Type} {S A : Type}
    (r : A * list (Event call answer) * S) : A := fst (fst r).
Definition trace {call : Type} {answer : call -> Type} {S A : Type}
    (r : A * list (Event call answer) * S) : list (Event call answer) :=
  snd (fst r).

Module ActivityTrace.

Import Activity.

Section Trace.

Context {P : Packages}.

(** The connection that a call opened: [EstablishConnection] with a nil
    error. *)
Definition opened (e : Event call answer) : list DB :=
  match e with
  | existT _ c x =>
      match c return answer c -> list DB with
      | EstablishConnection _ _ _ _ => fun x =>
          match snd x with
          | None => [fst x]
          | Some _ => []
          end
      | _ => fun _ => []
      end x
  end.

(** The connection that a call closed. *)
Definition closed (e : Event call answer) : list DB :=
  match projT1 e with
  | Close connection => [connection]
  | _ => []
  end.

(** The snapshot that a call submitted with a nil error, and the grant it
    was submitted with. *)
Definition submitted (e : Event call answer)
    : list (Grant * TransientActivityState) :=
  match e with
  | existT _ c x =>
      match c return answer c -> list (Grant * TransientActivityState) with
      | SubmitCompactActivitySnapshot _ grant _ _ activity => fun x =>
          match x with
          | None => [(grant, activity)]
          | Some _ => []
          end
      | _ => fun _ => []
      end x
  end.

(** What [GetDefaultGrant] and [GetPostgresVersion] answered. *)
Definition granted (e : Event call answer) : list (Grant * option error) :=
  match e with
  | existT _ c x =>
      match c return answer c -> list (Grant * option error) with
      | GetDefaultGrant _ _ _ => fun x => [x]
      | _ => fun _ => []
      end x
  end.

Definition versions (e : Event call answer)
    : list (PostgresVersion * option error) :=
  match e with
  | existT _ c x =>
      match c return answer c -> list (PostgresVersion * option error) with
      | GetPostgresVersion _ _ => fun x => [x]
      | _ => fun _ => []
      end x
  end.

(** The calls that try to connect, and the calls that take or send the
    snapshot. *)
Definition connects (c : call) : bool :=
  match c with
  | EstablishConnection _ _ _ _ => true
  | _ => false
  end.

Definition samples (c : call) : bool :=
  match c with
  | GetBackends _ _ _ _ | GetVacuumProgress _ _ _ _ | Now
  | SubmitCompactActivitySnapshot _ _ _ _ _ => true
  | _ => false
  end.

(** No call of the trace is of the kind [f]. *)
Definition never (f : call -> bool) (tr : list (Event call answer)) : Prop :=
  forallb (fun e => negb (f (projT1 e))) tr = true.

(** The three results. *)
Definition newState (x : result) : PersistedActivityState := fst (fst x).
Definition success (x : result) : bool := snd (fst x).
Definition err (x : result) : option error := snd x.

End Trace.

End ActivityTrace.

(** An environment for the examples: the grant is its [EnableActivity],
    the version its number, the persisted state the time of the last
    snapshot; every call succeeds, the server has the version [version]
    and the grant says [enabled]. *)
Module ActivitySample.

Import Activity.

#[global] Instance packages : Packages := {|
  error := string;
  Server := nat;
  CollectionOpts := bool * bool;
  Logger := unit;
  DB := nat;
  Grant := bool;
  PostgresVersion := Z;
  SystemType := unit;
  IgnoreSchemaRegexp := unit;
  PostgresBackends := nat;
  PostgresVacuums := nat;
  time_Time := Z;
  PersistedActivityState := Z;
  zeroGrant := false;
  ForceEmptyGrant := fst;
  TestRun := snd;
  EnableActivity := fun g => g;
  Numeric := fun v => v;
  Short := fun v => if (v <? 90200)%Z then "9.1" else "9.2";
  MinRequiredPostgresVersion := 90200%Z;
  set_ActivitySnapshotAt := fun t _ => t;
  errors_Wrap := fun e msg => msg ++ ": " ++ e;
  fmt_Errorf := fun format arg => format ++ " " ++ arg
|}.

Definition answers (version : Z) (enabled : bool) (c : call) (s : unit)
    : answer c * unit :=
  (match c return answer c with
   | Read_ActivityPrevState _ => 0%Z
   | Read_SystemType _ => tt
   | Read_IgnoreSchemaRegexp _ => tt
   | GetDefaultGrant _ _ _ => (enabled, None)
   | PrintError _ _ => tt
   | PrintVerbose _ _ => tt
   | EstablishConnection _ _ _ _ => (7, None)
   | Close _ => None
   | GetPostgresVersion _ _ => (version, None)
   | GetBackends _ _ _ _ => (3, None)
   | GetVacuumProgress _ _ _ _ => (1, None)
   | Now => 1514808003%Z
   | SubmitCompactActivitySnapshot _ _ _ _ _ => None
   end, s).

End ActivitySample.

Module FullTrace.

Import Full.

Section Trace.

Context {P : Packages}.

(** The function that a call calls. *)
Definition name (c : call) : string :=
  match c with
  | GetPostgresVersion _ _ => "postgres.GetPostgresVersion"
  | CurrentDatabaseOid _ => "postgres.CurrentDatabaseOid"
  | PrintError _ _ _ => "logger.PrintError"
  | GetRoles _ _ _ => "postgres.GetRoles"
  | GetDatabases _ _ _ => "postgres.GetDatabases"
  | GetBackends _ _ _ => "postgres.GetBackends"
  | GetStatements _ _ _ => "postgres.GetStatements"
  | GetRelations _ _ _ => "postgres.GetRelations"
  | GetRelationStats _ _ => "postgres.GetRelationStats"
  | GetIndexStats _ _ => "postgres.GetIndexStats"
  | GetSettings _ _ => "postgres.GetSettings"
  | GetFunctions _ _ => "postgres.GetFunctions"
  | GetSystemState _ _ => "system.GetSystemState"
  | GetLogLines _ => "system.GetLogLines"
  | RunExplain _ _ => "postgres.RunExplain"
  end.

(** The functions that a full collection with the options [opts] calls
    when nothing fails, in the order of the calls. *)
Definition plan (opts : CollectionOpts) : list string :=
  (["postgres.GetPostgresVersion"; "postgres.CurrentDatabaseOid";
    "postgres.GetRoles"; "postgres.GetDatabases"; "postgres.GetBackends";
    "postgres.GetStatements"]
   ++ (if CollectPostgresRelations opts
       then ["postgres.GetRelations"; "postgres.GetRelationStats";
             "postgres.GetIndexStats"]
       else [])
   ++ (if CollectPostgresSettings opts then ["postgres.GetSettings"] else [])
   ++ (if CollectPostgresFunctions opts then ["postgres.GetFunctions"] else [])
   ++ (if CollectSystemInformation opts then ["system.GetSystemState"] else [])
   ++ (if CollectLogs opts
       then "system.GetLogLines"
            :: (if CollectExplain opts then ["postgres.RunExplain"] else [])
       else []))%list.

(** The error that a call returned. *)
Definition error_in {A : Type} (x : A * option error) : list error :=
  match snd x with
  | Some err => [err]
  | None => []
  end.

Definition failure (e : Event call answer) : list error :=
  match e with
  | existT _ c x =>
      match c return answer c -> list error with
      | GetPostgresVersion _ _ => error_in
      | CurrentDatabaseOid _ => error_in
      | GetRoles _ _ _ => error_in
      | GetDatabases _ _ _ => error_in
      | GetBackends _ _ _ => error_in
      | GetStatements _ _ _ => error_in
      | GetRelations _ _ _ => error_in
      | GetRelationStats _ _ => error_in
      | GetIndexStats _ _ => error_in
      | GetSettings _ _ => error_in
      | GetFunctions _ _ => error_in
      | _ => fun _ => []
      end x
  end.

(** The field of the state that the answer of a call is assigned to. *)
Definition record (s : State) (e : Event call answer) : State :=
  match e with
  | existT _ c x =>
      match c return answer c -> State with
      | GetRoles _ _ _ => fun x => set_Roles (fst x) s
      | GetDatabases _ _ _ => fun x => set_Databases (fst x) s
      | GetBackends _ _ _ => fun x => set_Backends (fst x) s
      | GetStatements _ _ _ => fun x => set_Statements (fst x) s
      | GetRelations _ _ _ => fun x => set_Relations (fst x) s
      | GetRelationStats _ _ => fun x => set_RelationStats (fst x) s
      | GetIndexStats _ _ => fun x => set_IndexStats (fst x) s
      | GetSettings _ _ => fun x => set_Settings (fst x) s
      | GetFunctions _ _ => fun x => set_Functions (fst x) s
      | GetSystemState _ _ => fun x => set_System (Some x) s
      | GetLogLines _ => fun x => set_Logs (fst x) s
      | RunExplain _ _ => fun x => set_Explains x s
      | _ => fun _ => s
      end x
  end.

(** What [GetPostgresVersion] answered, what [GetLogLines] answered for
    which configuration, and what [RunExplain] was given and answered. *)
Definition versions (e : Event call answer)
    : list (PostgresVersion * option error) :=
  match e with
  | existT _ c x =>
      match c return answer c -> list (PostgresVersion * option error) with
      | GetPostgresVersion _ _ => fun x => [x]
      | _ => fun _ => []
      end x
  end.

Definition logged (e : Event call answer)
    : list (ServerConfig * LogFiles * PostgresExplainInputs) :=
  match e with
  | existT _ c x =>
      match c return answer c
                     -> list (ServerConfig * LogFiles * PostgresExplainInputs)
      with
      | GetLogLines config => fun x => [(config, fst x, snd x)]
      | _ => fun _ => []
      end x
  end.

Definition explained (e : Event call answer)
    : list (DB * PostgresExplainInputs * PostgresExplains) :=
  match e with
  | existT _ c x =>
      match c return answer c
                     -> list (DB * PostgresExplainInputs * PostgresExplains)
      with
      | RunExplain db inputs => fun x => [(db, inputs, x)]
      | _ => fun _ => []
      end x
  end.

(** The connection and the version that a call is given, when it is given
    one. *)
Definition connection_used (c : call) : list DB :=
  match c with
  | GetPostgresVersion _ db | CurrentDatabaseOid db | GetRoles _ db _
  | GetDatabases _ db _ | GetBackends _ db _ | GetStatements _ db _
  | GetRelations db _ _ | GetRelationStats db _ | GetIndexStats db _
  | GetSettings db _ | GetFunctions db _ | RunExplain db _ => [db]
  | _ => []
  end.

Definition version_used (c : call) : list PostgresVersion :=
  match c with
  | GetRoles _ _ v | GetDatabases _ _ v | GetBackends _ _ v
  | GetStatements _ _ v | GetRelations _ v _ | GetRelationStats _ v
  | GetIndexStats _ v | GetSettings _ v | GetFunctions _ v => [v]
  | _ => []
  end.

End Trace.

End FullTrace.

(** An environment for the examples: every collection is a number, the
    options are the six flags in the order of their use, and every call
    succeeds on a server of the version [version]. *)
Module FullSample.

Import Full.

Definition flag (i : nat) (opts : list bool) : bool := nth i opts false.

#[global] Instance packages : Packages := {|
  error := string;
  Server := nat * unit;
  ServerConfig := unit;
  CollectionOpts := list bool;
  Logger := unit;
  DB := nat;
  PostgresVersion := Z;
  Oid := nat;
  PostgresRoles := nat;
  PostgresDatabases := nat;
  PostgresBackends := nat;
  PostgresStatements := nat;
  PostgresRelations := nat;
  PostgresRelationStats := nat;
  PostgresIndexStats := nat;
  PostgresSettings := nat;
  PostgresFunctions := nat;
  SystemState := nat;
  LogFiles := nat;
  PostgresExplainInputs := nat;
  PostgresExplains := nat;
  zeroRoles := 0;
  zeroDatabases := 0;
  zeroBackends := 0;
  zeroStatements := 0;
  zeroRelations := 0;
  zeroRelationStats := 0;
  zeroIndexStats := 0;
  zeroSettings := 0;
  zeroFunctions := 0;
  zeroLogs := 0;
  zeroExplains := 0;
  Connection := fst;
  Config := snd;
  CollectPostgresRelations := flag 0;
  CollectPostgresSettings := flag 1;
  CollectPostgresFunctions := flag 2;
  CollectSystemInformation := flag 3;
  CollectLogs := flag 4;
  CollectExplain := flag 5;
  Numeric := fun v => v;
  Short := fun v => if (v <? 90200)%Z then "9.1" else "9.2";
  MinRequiredPostgresVersion := 90200%Z;
  fmt_Errorf := fun format arg => format ++ " " ++ arg
|}.

Definition answers (version : Z) (c : call) (s : unit) : answer c * unit :=
  (match c return answer c with
   | GetPostgresVersion _ _ => (version, None)
   | CurrentDatabaseOid _ => (5, None)
   | PrintError _ _ _ => tt
   | GetRoles _ _ _ => (1, None)
   | GetDatabases _ _ _ => (2, None)
   | GetBackends _ _ _ => (3, None)
   | GetStatements _ _ _ => (4, None)
   | GetRelations _ _ _ => (5, None)
   | GetRelationStats _ _ => (6, None)
   | GetIndexStats _ _ => (7, None)
   | GetSettings _ _ => (8, None)
   | GetFunctions _ _ => (9, None)
   | GetSystemState _ _ => 10
   | GetLogLines _ => (11, 12)
   | RunExplain _ inputs => inputs + 1
   end, s).

End FullSample.

Module ServersTrace.

Import Activity Servers.

Section Trace.

Context {P : Packages}.











(** The goroutines started and the deltas added to the wait group. *)
Definition started (e : Event main_call main_answer)
    : list (Prog call answer unit) :=
  match projT1 e with
  | Go body => [body]
  | _ => []
  end.

Definition added (e : Event main_call main_answer) : list Z :=
  match projT1 e with
  | Add delta => [delta]
  | _ => []
  end.

(** The test of the loop: the server is not skipped. *)
Definition active (disable valid enable : Server -> bool) (server : Server)
    : bool :=
  negb (disable server || (valid server && negb (enable server))).

(** What the calls [tr] of the loop are when it starts the goroutines of
    the servers [l] and returns [b]: the goroutines started, one added to
    the wait group for each, and at the end the wait and the reading of
    the result. *)
Definition loop_trace (opts : CollectionOpts) (logger : Logger)
    (l : list Server) (tr : list (Event main_call main_answer)) (b : bool)
    : Prop :=
  flat_map started tr = map (goroutine opts logger) l /\
  flat_map added tr = map (fun _ => 1%Z) l /\
  exists pre,
    tr = (pre ++ [existT main_answer Wait tt;
                  existT main_answer Read_allSuccessful b])%list.

End Trace.

End ServersTrace.

(** An environment for the examples of the loop over the servers: a server
    is a number; the servers 1 and 2 have activity disabled, the first in
    its configuration and the second by a valid grant. *)
Module ServersSample.

Import Activity Servers.

Definition answers (c : main_call (P := ActivitySample.packages)) (s : unit)
    : main_answer c * unit :=
  (match c return main_answer c with
   | Read_DisableActivity server => Nat.eqb server 1
   | Read_Grant_Valid server => Nat.eqb server 2
   | Read_Grant_EnableActivity _ => false
   | Read_allSuccessful => true
   | _ => tt
   end, s).

End ServersSample.

(** * Notions for the process number *)

(** Every byte of [s] is in the class [l]. *)
Fixpoint all_in (l : list atom) (s : string) : bool :=
  match s with
  | "" => true
  | String c s' => (class_matches l c && all_in l s')%bool
  end.

(** The number that the decimal digits [s] write, after the digits that
    write [n]. *)
Fixpoint decimal_from (n : Z) (s : string) : Z :=
  match s with
  | "" => n
  | String c s' => decimal_from (10 * n + (Z.of_N (N_of_ascii c) - 48)) s'
  end.

Definition decimal (s : string) : Z := decimal_from 0 s.

(** Every group of [r] with the number [g] is [(\d+)] or another
    repetition of [\d]. *)
Fixpoint digit_group (g : nat) (r : regex) : bool :=
  match r with
  | Cat r1 r2 => (digit_group g r1 && digit_group g r2)%bool
  | Rep _ _ r' => digit_group g r'
  | Group i r' =>
      if Nat.eqb i g
      then match r' with
           | Cat (Rep _ _ (One [Digit])) Empty => true
           | _ => false
           end
      else digit_group g r'
  | _ => true
  end.

(** A matcher that keeps the property [I] of the submatches. *)
Definition keeps (I : list string -> Prop)
    (body : string -> list string -> cont -> option (list string)) : Prop :=
  forall s caps k res,
    I caps -> body s caps k = Some res ->
    exists s' caps', I caps' /\ k s' caps' = Some res.
(** * Properties *)

(** ** Strings *)

Lemma append_nil_r (s : string) : s ++ "" = s.
Proof. induction s; simpl; congruence. Qed.

Lemma append_assoc (a b c : string) : (a ++ b) ++ c = a ++ b ++ c.
Proof. induction a; simpl; congruence. Qed.

Lemma length_append (a b : string) :
  String.length (a ++ b) = String.length a + String.length b.
Proof. induction a; simpl; congruence. Qed.

Lemma len_append (a b : string) : (len (a ++ b) = len a + len b)%Z.
Proof. unfold len. rewrite length_append. lia. Qed.

Lemma len_nonneg (s : string) : (0 <= len s)%Z.
Proof. unfold len. lia. Qed.

Lemma pair_snd {A B : Type} (p : A * B) (b : B) : snd p = b -> p = (fst p, b).
Proof. destruct p. simpl. congruence. Qed.

(** ** Machine integers *)

Lemma int64_range (z : Z) : is_int64 (int64 z).
Proof.
  unfold is_int64, int64, wrap, MinInt64, MaxInt64.
  change (64 - 1)%Z with 63%Z.
  pose proof (Z.mod_pos_bound (z + 2 ^ 63) (2 ^ 64) ltac:(lia)). lia.
Qed.

Lemma int64_small (z : Z) : is_int64 z -> int64 z = z.
Proof.
  unfold is_int64, int64, wrap, MinInt64, MaxInt64.
  change (64 - 1)%Z with 63%Z. intros H.
  rewrite Z.mod_small by lia. lia.
Qed.

Lemma int64_idem_add_l (a b : Z) : int64 (int64 a + b) = int64 (a + b).
Proof.
  unfold int64, wrap. change (64 - 1)%Z with 63%Z.
  replace ((a + 2 ^ 63) mod 2 ^ 64 - 2 ^ 63 + b + 2 ^ 63)%Z
    with ((a + 2 ^ 63) mod 2 ^ 64 + b)%Z by lia.
  rewrite Zplus_mod_idemp_l. f_equal. f_equal. lia.
Qed.

Lemma int64_idem_add_r (a b : Z) : int64 (a + int64 b) = int64 (a + b).
Proof. rewrite Z.add_comm, int64_idem_add_l. f_equal. lia. Qed.

Lemma int64_idem (a : Z) : int64 (int64 a) = int64 a.
Proof. apply int64_small, int64_range. Qed.

Lemma add64_int64_r (a b : Z) : add64 a (int64 b) = add64 a b.
Proof. apply int64_idem_add_r. Qed.

Lemma add64_add64 (a b c : Z) : add64 (add64 a b) c = add64 a (b + c).
Proof. unfold add64. rewrite int64_idem_add_l. f_equal. lia. Qed.

Lemma add64_is_int64 (a b : Z) : is_int64 (add64 a b).
Proof. apply int64_range. Qed.

(** ** The reader *)

(** [lines] lists the results of the successive calls of [ReadString]. *)
Lemma lines_ReadString (buffer : string) :
  lines buffer =
  let '(line, rest, eof) := ReadString buffer in
  if eof then ([], line)
  else let '(ls, tail) := lines rest in (line :: ls, tail).
Proof.
  induction buffer as [|c b IH]; [reflexivity|].
  cbn [lines ReadString]. destruct (Ascii.eqb c newline).
  - destruct (lines b). reflexivity.
  - rewrite IH. destruct (ReadString b) as [[line rest] eof].
    destruct eof; [reflexivity|]. destruct (lines rest). reflexivity.
Qed.

(** Every byte of the buffer is in one of the lines read. *)
Lemma lines_concat (buffer : string) :
  fold_right append (snd (lines buffer)) (fst (lines buffer)) = buffer.
Proof.
  induction buffer as [|c b IH]; [reflexivity|].
  cbn [lines]. destruct (lines b) as [ls tail]. simpl in IH.
  destruct (Ascii.eqb c newline).
  - simpl. now rewrite IH.
  - destruct ls as [|l ls]; simpl in *; now rewrite IH.
Qed.

Lemma lines_snoc_nl_lines (b : string) : fst (lines (b ++ nl)) <> [].
Proof.
  induction b as [|c b IH]; [discriminate|].
  cbn [append lines]. destruct (lines (b ++ nl)) as [ls tail].
  destruct (Ascii.eqb c newline); [discriminate|].
  destruct ls; [now elim IH | discriminate].
Qed.

Lemma lines_snoc_nl (b : string) : snd (lines (b ++ nl)) = "".
Proof.
  induction b as [|c b IH]; [reflexivity|].
  pose proof (lines_snoc_nl_lines b) as Hl.
  cbn [append lines]. destruct (lines (b ++ nl)) as [ls tail]. simpl in *.
  subst tail. destruct (Ascii.eqb c newline); [reflexivity|].
  destruct ls as [|l ls]; [now elim Hl | reflexivity].
Qed.

Lemma line_boundary_tail (piece : string) :
  line_boundary piece -> snd (lines piece) = "".
Proof. intros [->|[b ->]]; [reflexivity | apply lines_snoc_nl]. Qed.

(** Every line read with a nil error is a complete line. *)
Lemma lines_is_line (buffer l : string) :
  In l (fst (lines buffer)) -> is_line l.
Proof.
  revert l. induction buffer as [|c b IH]; intros l; [contradiction|].
  cbn [lines]. destruct (lines b) as [ls tail]. simpl fst in IH.
  destruct (Ascii.eqb c newline) eqn:E.
  - apply Ascii.eqb_eq in E. subst c. intros [<-|I]; [reflexivity|now apply IH].
  - destruct ls as [|x ls]; [contradiction|]. intros [<-|I].
    + unfold is_line. cbn [lines]. rewrite (IH x (or_introl eq_refl)).
      now rewrite E.
    + apply IH. now right.
Qed.

(** Reading two pieces one after the other reads the lines of the first
    and then the lines of the second, when the first ends at a line
    boundary. *)
Lemma lines_app (b1 b2 : string) :
  snd (lines b1) = "" ->
  lines (b1 ++ b2) = ((fst (lines b1) ++ fst (lines b2))%list, snd (lines b2)).
Proof.
  induction b1 as [|c b1 IH]; intros H.
  - simpl. now destruct (lines b2).
  - cbn [append lines] in *. destruct (lines b1) as [ls1 tail1].
    destruct (Ascii.eqb c newline).
    + simpl in H. subst tail1. rewrite (IH eq_refl). reflexivity.
    + destruct ls1 as [|l ls1]; [discriminate|].
      simpl in H. subst tail1. rewrite (IH eq_refl). reflexivity.
Qed.

Lemma total_len_lines (buffer : string) :
  (total_len (fst (lines buffer)) + len (snd (lines buffer)) = len buffer)%Z.
Proof.
  rewrite <- (lines_concat buffer) at 3.
  induction (fst (lines buffer)) as [|l ls IH]; simpl; [lia|].
  rewrite len_append. lia.
Qed.

(** ** The scan loop *)

Section ScanLoop.

Context {W : World}.

Variable linesNewerThan : Time.

Lemma step_failed (st : Scan) (line : string) (logLine : LogLine) :
  ParseLogLineWithPrefix "" line = (logLine, false) ->
  step linesNewerThan st line =
  mkScan (stitch (logLines st) logLine)
    (add64 (currentByteStart st) (len line)) (rand st).
Proof. intros H. unfold step. rewrite H, add64_int64_r. reflexivity. Qed.

Lemma step_old (st : Scan) (line : string) (logLine : LogLine) :
  ParseLogLineWithPrefix "" line = (logLine, true) ->
  Before (OccurredAt logLine) linesNewerThan = true ->
  step linesNewerThan st line =
  mkScan (logLines st) (add64 (currentByteStart st) (len line)) (rand st).
Proof. intros H B. unfold step. rewrite H, add64_int64_r. simpl. now rewrite B. Qed.

Lemma step_emit (st : Scan) (line : string) (logLine : LogLine) :
  ParseLogLineWithPrefix "" line = (logLine, true) ->
  Before (OccurredAt logLine) linesNewerThan = false ->
  step linesNewerThan st line =
  emit st (currentByteStart st) line logLine
    (add64 (currentByteStart st) (len line)).
Proof. intros H B. unfold step. rewrite H, add64_int64_r. simpl. now rewrite B. Qed.

(** The three outcomes of an iteration. *)
Lemma step_cases (st : Scan) (line : string) :
  (exists logLine, ParseLogLineWithPrefix "" line = (logLine, false)) \/
  (exists logLine, ParseLogLineWithPrefix "" line = (logLine, true) /\
                   Before (OccurredAt logLine) linesNewerThan = true) \/
  emitted_line linesNewerThan line.
Proof.
  unfold emitted_line.
  destruct (ParseLogLineWithPrefix "" line) as [logLine [|]] eqn:E; eauto.
  destruct (Before (OccurredAt logLine) linesNewerThan) eqn:B; eauto 6.
Qed.

Lemma step_emitted (st : Scan) (line : string) :
  emitted_line linesNewerThan line ->
  step linesNewerThan st line =
  emit st (currentByteStart st) line (fst (ParseLogLineWithPrefix "" line))
    (add64 (currentByteStart st) (len line)).
Proof.
  intros [H B]. destruct (ParseLogLineWithPrefix "" line) as [l ok] eqn:E.
  simpl in *. subst ok. now apply step_emit.
Qed.

(** Every iteration moves the offset by the length of the line. *)
Lemma step_offset (st : Scan) (line : string) :
  currentByteStart (step linesNewerThan st line) =
  add64 (currentByteStart st) (len line).
Proof.
  unfold step. rewrite add64_int64_r.
  destruct (ParseLogLineWithPrefix "" line) as [l [|]]; simpl; [|reflexivity].
  destruct (Before _ _); [reflexivity|].
  unfold emit. now destruct (NewV4 (rand st)).
Qed.

Lemma run_offset (ls : list string) (st : Scan) :
  ls <> [] ->
  currentByteStart (run linesNewerThan ls st) =
  add64 (currentByteStart st) (total_len ls).
Proof.
  revert st. induction ls as [|l ls IH]; intros st H; [easy|].
  destruct ls as [|l' ls].
  - simpl. rewrite step_offset. f_equal. lia.
  - change (run linesNewerThan (l :: l' :: ls) st)
      with (run linesNewerThan (l' :: ls) (step linesNewerThan st l)).
    rewrite IH by discriminate. rewrite step_offset, add64_add64.
    reflexivity.
Qed.

(** The offset a scan returns, in [int64] arithmetic. *)
Lemma scan_offset (buffer : string) (init : Z) (rnd : Rand) :
  currentByteStart (scan buffer init linesNewerThan rnd) =
  add64 init (len buffer).
Proof.
  unfold scan. pose proof (total_len_lines buffer) as T.
  destruct (lines buffer) as [ls tail]. simpl in *.
  rewrite add64_int64_r. destruct ls as [|l ls].
  - simpl in *. now rewrite <- T.
  - fold (run linesNewerThan (l :: ls) (mkScan [] init rnd)).
    rewrite run_offset by discriminate. simpl currentByteStart.
    rewrite add64_add64. now rewrite T.
Qed.

Lemma scan_lines (buffer : string) (init : Z) (rnd : Rand) :
  logLines (scan buffer init linesNewerThan rnd) =
  logLines (run linesNewerThan (fst (lines buffer)) (mkScan [] init rnd)) /\
  rand (scan buffer init linesNewerThan rnd) =
  rand (run linesNewerThan (fst (lines buffer)) (mkScan [] init rnd)).
Proof. unfold scan. destruct (lines buffer). now split. Qed.

(** *** Records already emitted are a frame for the later iterations *)

Lemma update_last_app (f : LogLine -> LogLine) (pre post : list LogLine) :
  post <> [] ->
  update_last f (pre ++ post) = (pre ++ update_last f post)%list.
Proof.
  intros H. induction pre as [|x pre IH]; [reflexivity|].
  simpl. rewrite IH. destruct (pre ++ post)%list eqn:E; [|reflexivity].
  apply app_eq_nil in E. now destruct E.
Qed.

Lemma update_last_snoc (f : LogLine -> LogLine) (pre : list LogLine) (x : LogLine) :
  update_last f (pre ++ [x]) = (pre ++ [f x])%list.
Proof. now rewrite update_last_app. Qed.

Lemma update_last_nonempty (f : LogLine -> LogLine) (l : list LogLine) :
  l <> [] -> update_last f l <> [].
Proof. destruct l as [|x [|y l]]; simpl; congruence. Qed.

Lemma stitch_app (pre post : list LogLine) (logLine : LogLine) :
  post <> [] ->
  stitch (pre ++ post) logLine = (pre ++ stitch post logLine)%list.
Proof.
  intros H. unfold stitch. rewrite length_app.
  destruct post as [|x post]; [easy|]. simpl List.length.
  replace (Nat.ltb 0 (List.length pre + S (List.length post))) with true
    by (symmetry; apply Nat.ltb_lt; lia).
  simpl andb. destruct (negb _); [|reflexivity].
  now apply update_last_app.
Qed.

Lemma stitch_nonempty (l : list LogLine) (logLine : LogLine) :
  l <> [] -> stitch l logLine <> [].
Proof.
  intros H. unfold stitch. destruct (_ && _)%bool; [|assumption].
  now apply update_last_nonempty.
Qed.

Lemma step_frame (pre post : list LogLine) (off : Z) (r : Rand) (line : string) :
  post <> [] ->
  let s := step linesNewerThan (mkScan post off r) line in
  step linesNewerThan (mkScan (pre ++ post) off r) line =
  mkScan (pre ++ logLines s) (currentByteStart s) (rand s) /\
  logLines s <> [].
Proof.
  intros H. unfold step. simpl.
  destruct (ParseLogLineWithPrefix "" line) as [l [|]]; simpl.
  - destruct (Before _ _); simpl; [now split|].
    unfold emit. simpl. destruct (NewV4 r). simpl.
    rewrite <- app_assoc. split; [reflexivity|]. now destruct post.
  - rewrite stitch_app by assumption. split; [reflexivity|].
    now apply stitch_nonempty.
Qed.

Lemma run_frame (ls : list string) (pre post : list LogLine) (off : Z) (r : Rand) :
  post <> [] ->
  let s := run linesNewerThan ls (mkScan post off r) in
  run linesNewerThan ls (mkScan (pre ++ post) off r) =
  mkScan (pre ++ logLines s) (currentByteStart s) (rand s).
Proof.
  revert post off r. induction ls as [|l ls IH]; intros post off r H.
  - reflexivity.
  - simpl. destruct (step_frame pre post off r l H) as [E N].
    rewrite E.
    destruct (step linesNewerThan (mkScan post off r) l) as [post' off' r'].
    simpl in *. now apply IH.
Qed.

(** A scan is resumed by a scan of what follows, when no continuation is
    lost at the seam. *)
Lemma run_resume (ls : list string) (logs : list LogLine) (off : Z) (r : Rand) :
  logs = [] \/
  match ls with [] => True | line :: _ => emitted_line linesNewerThan line end ->
  let s := run linesNewerThan ls (mkScan [] off r) in
  run linesNewerThan ls (mkScan logs off r) =
  mkScan (logs ++ logLines s) (currentByteStart s) (rand s).
Proof.
  intros [->|H].
  - simpl. now destruct (run _ _ _).
  - destruct ls as [|l ls].
    + simpl. now rewrite app_nil_r.
    + simpl. rewrite !step_emitted by assumption. unfold emit. simpl.
      destruct (NewV4 r) as [u r']. simpl.
      match goal with |- context [mkScan [?x] ?o _] =>
        apply (run_frame ls logs [x] o r') end.
      discriminate.
Qed.

End ScanLoop.

(** ** Byte offsets *)

Section Offsets.

Context {W : World}.

Variable linesNewerThan : Time.

Lemma run_app (ls1 ls2 : list string) (st : Scan) :
  run linesNewerThan (ls1 ++ ls2) st =
  run linesNewerThan ls2 (run linesNewerThan ls1 st).
Proof. apply fold_left_app. Qed.

Lemma run_is_int64 (ls : list string) (st : Scan) :
  is_int64 (currentByteStart st) ->
  is_int64 (currentByteStart (run linesNewerThan ls st)).
Proof.
  destruct ls as [|l ls]; [easy|]. intros _.
  rewrite run_offset by discriminate. apply add64_is_int64.
Qed.

(** At a line boundary the state a scan returns is the state of its loop. *)
Lemma scan_at_boundary (buffer : string) (init : Z) (rnd : Rand) :
  is_int64 init -> line_boundary buffer ->
  scan buffer init linesNewerThan rnd =
  run linesNewerThan (fst (lines buffer)) (mkScan [] init rnd).
Proof.
  intros I B. apply line_boundary_tail in B. unfold scan.
  destruct (lines buffer) as [ls tail]. simpl in *. subst tail.
  fold (run linesNewerThan ls (mkScan [] init rnd)).
  pose proof (run_is_int64 ls (mkScan [] init rnd) I) as R.
  destruct (run linesNewerThan ls (mkScan [] init rnd)) as [logs off r].
  simpl in *. f_equal. unfold add64. change (int64 (len "")) with 0%Z.
  rewrite Z.add_0_r. now apply int64_small.
Qed.

Lemma scan_app (b1 b2 : string) (init : Z) (rnd : Rand) :
  is_int64 init -> line_boundary b1 ->
  let s1 := scan b1 init linesNewerThan rnd in
  scan (b1 ++ b2) init linesNewerThan rnd =
  let '(ls, tail) := lines b2 in
  let st := run linesNewerThan ls s1 in
  mkScan (logLines st) (add64 (currentByteStart st) (int64 (len tail))) (rand st).
Proof.
  intros I B. simpl. rewrite (scan_at_boundary b1) by assumption.
  unfold scan at 1. rewrite lines_app by now apply line_boundary_tail.
  destruct (lines b2) as [ls2 tail2]. simpl fst. simpl snd.
  fold (run linesNewerThan (fst (lines b1) ++ ls2) (mkScan [] init rnd)).
  now rewrite run_app.
Qed.

(** *** Monotone offsets *)

Lemma map_ByteStart_update_last (c : string) (l : list LogLine) :
  map ByteStart (update_last (extend c) l) = map ByteStart l.
Proof.
  induction l as [|x l IH]; [reflexivity|].
  destruct l as [|y l]; [reflexivity|].
  change (map ByteStart (x :: update_last (extend c) (y :: l))
          = map ByteStart (x :: y :: l)).
  cbn [map]. f_equal. exact IH.
Qed.

Lemma map_ByteStart_stitch (l : list LogLine) (logLine : LogLine) :
  map ByteStart (stitch l logLine) = map ByteStart l.
Proof.
  unfold stitch. destruct (_ && _)%bool; [|reflexivity].
  apply map_ByteStart_update_last.
Qed.

Lemma StronglySorted_snoc (l : list Z) (x : Z) :
  StronglySorted Z.le l -> Forall (fun b => (b <= x)%Z) l ->
  StronglySorted Z.le (l ++ [x]).
Proof.
  induction 1 as [|a l S IH F]; intros B; simpl.
  - repeat constructor.
  - inversion B; subst. constructor; [now apply IH|].
    apply Forall_app. split; [assumption|]. now constructor.
Qed.

Lemma step_ordered (st : Scan) (line : string) :
  is_int64 (currentByteStart st) ->
  (currentByteStart st + len line <= MaxInt64)%Z ->
  ordered st -> ordered (step linesNewerThan st line).
Proof.
  intros I L [S F]. pose proof (len_nonneg line) as P.
  assert (A : add64 (currentByteStart st) (len line)
              = (currentByteStart st + len line)%Z).
  { apply int64_small. unfold is_int64 in *. lia. }
  assert (F' : Forall (fun b => (b <= currentByteStart st + len line)%Z)
                 (map ByteStart (logLines st))).
  { eapply Forall_impl; [|exact F]. simpl. intros. lia. }
  destruct (step_cases linesNewerThan st line) as [[l E]|[[l [E B]]|E]].
  - rewrite (step_failed _ _ _ _ E). unfold ordered. simpl.
    rewrite map_ByteStart_stitch, A. now split.
  - rewrite (step_old _ _ _ _ E B). unfold ordered. simpl. rewrite A.
    now split.
  - rewrite (step_emitted _ _ _ E). unfold emit, ordered.
    destruct (NewV4 (rand st)). simpl. rewrite A, map_app. simpl. split.
    + now apply StronglySorted_snoc.
    + apply Forall_app. split; [assumption|]. constructor; [lia|constructor].
Qed.

Lemma run_ordered (ls : list string) (st : Scan) :
  is_int64 (currentByteStart st) ->
  (currentByteStart st + total_len ls <= MaxInt64)%Z ->
  ordered st -> ordered (run linesNewerThan ls st).
Proof.
  revert st. induction ls as [|l ls IH]; intros st I L O; [assumption|].
  simpl in *. pose proof (len_nonneg l) as P.
  assert (T : (0 <= total_len ls)%Z).
  { clear. induction ls; simpl; [lia|]. pose proof (len_nonneg a). lia. }
  apply IH.
  - rewrite step_offset. apply add64_is_int64.
  - rewrite step_offset. unfold add64. rewrite int64_small; [lia|].
    unfold is_int64 in *. lia.
  - apply step_ordered; [assumption|lia|assumption].
Qed.

End Offsets.

(** ** What [ParseAndAnalyzeBuffer] returns *)

Lemma ParseAndAnalyzeBuffer_scan {W : World} (S : Type)
    (Analyze : list LogLine -> list LogLine * list S)
    (buffer : string) (init : Z) (linesNewerThan : Time) (rnd : Rand) :
  ParseAndAnalyzeBuffer S Analyze buffer init linesNewerThan rnd =
  let st := scan buffer init linesNewerThan rnd in
  (fst (Analyze (logLines st)), snd (Analyze (logLines st)),
   currentByteStart st, rand st).
Proof.
  unfold ParseAndAnalyzeBuffer. simpl.
  now destruct (Analyze (logLines (scan buffer init linesNewerThan rnd))).
Qed.

(** ** Resuming a scan (C1) *)

(** C1, as stated, fails.  The buffer is a record line followed by a line
    that no grammar matches, cut between the two; no line is older than the
    cutoff.  The single scan appends the second line to the record; the two
    successive scans give the record without it, because the second scan
    has emitted nothing to append to and drops the line. *)
Lemma split_loses_continuation :
  line_boundary Samples.header /\
  Before (OccurredAt (fst (ParseLogLineWithPrefix "" Samples.header)))
    Samples.keep_all = false /\
  (logLines (scan Samples.header 0 Samples.keep_all Samples.seed) ++
   logLines (scan Samples.body1
               (currentByteStart (scan Samples.header 0 Samples.keep_all Samples.seed))
               Samples.keep_all
               (rand (scan Samples.header 0 Samples.keep_all Samples.seed))))%list
  <> logLines (scan (Samples.header ++ Samples.body1) 0 Samples.keep_all Samples.seed).
Proof.
  split; [right; eexists; reflexivity|].
  split; [vm_compute; reflexivity|].
  intros H. apply (f_equal (map Content)) in H. vm_compute in H.
  discriminate H.
Qed.

(** C1, amended.  A buffer is cut in two at a line boundary and scanned by
    two successive calls, the second one starting at the offset (and with
    the identifier generator) the first one returns, both with the same
    cutoff.  If the first call emitted no record, or the second piece has
    no complete line, or the first line of the second piece becomes a
    record, then the records of the two calls, one after the other, are the
    records of the single call on the whole buffer, with all their fields
    and byte offsets, and the offsets returned agree.  (The records are the
    sequence [ParseAndAnalyzeBuffer] hands to the analysis.) *)
Theorem split_scan_resumes {W : World} (linesNewerThan : Time)
    (b1 b2 : string) (init : Z) (rnd : Rand) :
  is_int64 init ->
  line_boundary b1 ->
  logLines (scan b1 init linesNewerThan rnd) = [] \/
  starts_with_record linesNewerThan b2 ->
  logLines (scan (b1 ++ b2) init linesNewerThan rnd) =
    (logLines (scan b1 init linesNewerThan rnd) ++
     logLines (scan b2 (currentByteStart (scan b1 init linesNewerThan rnd))
                 linesNewerThan (rand (scan b1 init linesNewerThan rnd))))%list /\
  currentByteStart (scan (b1 ++ b2) init linesNewerThan rnd) =
    currentByteStart
      (scan b2 (currentByteStart (scan b1 init linesNewerThan rnd))
         linesNewerThan (rand (scan b1 init linesNewerThan rnd))) /\
  rand (scan (b1 ++ b2) init linesNewerThan rnd) =
    rand (scan b2 (currentByteStart (scan b1 init linesNewerThan rnd))
            linesNewerThan (rand (scan b1 init linesNewerThan rnd))).
Proof.
  intros I B H. rewrite (scan_app linesNewerThan b1 b2 init rnd I B).
  unfold starts_with_record in H.
  set (s1 := scan b1 init linesNewerThan rnd) in *.
  unfold scan. destruct (lines b2) as [ls tail]. simpl fst in H.
  fold (run linesNewerThan ls
          (mkScan [] (currentByteStart s1) (rand s1))).
  pose proof (run_resume linesNewerThan ls (logLines s1)
                (currentByteStart s1) (rand s1) H) as R.
  simpl in R. destruct s1 as [logs off r]. simpl in *. rewrite R.
  simpl. auto.
Qed.

Lemma split_scan_resumes_witness :
  logLines (scan ((Samples.header ++ Samples.body1) ++ Samples.later ++ Samples.body2)
              100 Samples.keep_all Samples.seed) =
  (logLines (scan (Samples.header ++ Samples.body1) 100 Samples.keep_all Samples.seed) ++
   logLines (scan (Samples.later ++ Samples.body2)
               (currentByteStart
                  (scan (Samples.header ++ Samples.body1) 100 Samples.keep_all Samples.seed))
               Samples.keep_all
               (rand (scan (Samples.header ++ Samples.body1) 100
                        Samples.keep_all Samples.seed))))%list.
Proof.
  apply (split_scan_resumes (W := GoWorld.world) Samples.keep_all
           (Samples.header ++ Samples.body1)
           (Samples.later ++ Samples.body2) 100 Samples.seed).
  - unfold is_int64, MinInt64, MaxInt64. lia.
  - right. exists (Samples.header ++ String tab "FROM pg_class"). reflexivity.
  - right. split; vm_compute; reflexivity.
Defined.

(** ** Running offsets (C2) *)

(** C2, as stated, fails for offsets at the end of the [int64] range,
    where the additions wrap around.  Two records are emitted from a
    buffer of 159 bytes scanned from offset [MaxInt64 - 10]: the first byte
    of the second record is then below the first byte of the first one. *)
Lemma offsets_wrap_around :
  is_int64 (MaxInt64 - 10) /\
  map ByteStart
    (logLines (scan (Samples.header ++ Samples.later) (MaxInt64 - 10)
                 Samples.keep_all Samples.seed)) =
  [9223372036854775797; -9223372036854775744]%Z /\
  ~ StronglySorted Z.le
      (map ByteStart
         (logLines (scan (Samples.header ++ Samples.later) (MaxInt64 - 10)
                      Samples.keep_all Samples.seed))).
Proof.
  split; [unfold is_int64, MinInt64, MaxInt64; lia|].
  split; [vm_compute; reflexivity|].
  replace (map ByteStart _)
    with [9223372036854775797; -9223372036854775744]%Z
    by (vm_compute; reflexivity).
  intros H. inversion H as [|a l S F]; subst.
  inversion F; subst. lia.
Qed.

(** C2, amended.  For every buffer and initial offset, each iteration
    advances the running offset by the length of the raw line, newline
    included, whatever the outcome of the parse; the bytes of a last line
    without a newline are counted; the offset returned is the initial
    offset plus the length of the buffer, in [int64] arithmetic; and a
    line appended to a buffer that ends at a line boundary, if it becomes
    a record, has the returned offset as its [ByteStart].  When the
    initial offset plus the length of the buffer does not exceed the
    largest [int64], the offset returned is exactly that sum and the
    [ByteStart] of the records are in non-decreasing order. *)
Theorem offsets_advance {W : World} (linesNewerThan : Time)
    (buffer : string) (init : Z) (rnd : Rand) :
  (forall st line,
     currentByteStart (step linesNewerThan st line) =
     add64 (currentByteStart st) (len line)) /\
  currentByteStart (scan buffer init linesNewerThan rnd) =
    add64 init (total_len (fst (lines buffer)) + len (snd (lines buffer))) /\
  currentByteStart (scan buffer init linesNewerThan rnd) =
    add64 init (len buffer) /\
  (forall (S : Type) (Analyze : list LogLine -> list LogLine * list S),
     snd (fst (ParseAndAnalyzeBuffer S Analyze buffer init linesNewerThan rnd)) =
     add64 init (len buffer)) /\
  (forall line,
     is_int64 init -> line_boundary buffer -> is_line line ->
     emitted_line linesNewerThan line ->
     exists pre x,
       logLines (scan (buffer ++ line) init linesNewerThan rnd) = (pre ++ [x])%list /\
       ByteStart x = currentByteStart (scan buffer init linesNewerThan rnd)) /\
  (is_int64 init -> (init + len buffer <= MaxInt64)%Z ->
   currentByteStart (scan buffer init linesNewerThan rnd) = (init + len buffer)%Z /\
   StronglySorted Z.le
     (map ByteStart (logLines (scan buffer init linesNewerThan rnd)))).
Proof.
  pose proof (len_nonneg buffer) as P.
  pose proof (total_len_lines buffer) as T.
  split; [intros; apply step_offset|].
  split; [rewrite T; apply scan_offset|].
  split; [apply scan_offset|].
  split; [intros; rewrite ParseAndAnalyzeBuffer_scan; apply scan_offset|].
  split.
  - intros line I B Hl E.
    rewrite (scan_app linesNewerThan buffer line init rnd I B).
    unfold is_line in Hl. rewrite Hl. simpl run.
    rewrite (step_emitted _ _ _ E). unfold emit.
    destruct (NewV4 _) as [u r']. simpl. eauto.
  - intros I L. split.
    + rewrite scan_offset. apply int64_small. unfold is_int64 in *. lia.
    + destruct (scan_lines linesNewerThan buffer init rnd) as [-> _].
      pose proof (len_nonneg (snd (lines buffer))) as T'.
      apply (run_ordered linesNewerThan (fst (lines buffer)) (mkScan [] init rnd)).
      * exact I.
      * simpl. lia.
      * split; constructor.
Qed.

Lemma offsets_advance_witness :
  currentByteStart
    (scan (Samples.header ++ Samples.body1 ++ Samples.later ++ "2018-01-01 12:")
       100 Samples.keep_all Samples.seed) = 288%Z /\
  StronglySorted Z.le
    (map ByteStart
       (logLines
          (scan (Samples.header ++ Samples.body1 ++ Samples.later ++ "2018-01-01 12:")
             100 Samples.keep_all Samples.seed))).
Proof.
  pose proof (offsets_advance (W := GoWorld.world) Samples.keep_all
                (Samples.header ++ Samples.body1 ++ Samples.later ++ "2018-01-01 12:")
                100 Samples.seed) as H.
  destruct H as (_ & _ & _ & _ & _ & H). destruct H as (O & S).
  - unfold is_int64, MinInt64, MaxInt64. lia.
  - vm_compute. intros H. discriminate H.
  - split; [rewrite O; vm_compute; reflexivity | exact S].
Defined.

(** ** Lines that are no new record (C3, C6) *)

Section Continuations.

Context {W : World}.

Variable linesNewerThan : Time.

(** A line that no grammar matches comes back whole as the content of the
    result, with [ok = false], since [time.Parse] rejects the empty time
    text. *)
Lemma parse_unmatched (line : string) :
  time_Parse defaultTimeFormat "" = None ->
  time_Parse defaultTimeFormatAlt "" = None ->
  detect line = ("", false) ->
  ParseLogLineWithPrefix "" line = (set_Content line zeroLogLine, false).
Proof.
  intros T1 T2 D. unfold ParseLogLineWithPrefix, locals.
  change ("" =? "") with true. cbv iota. rewrite D.
  change (extract "" false line)
    with (Some (mkLocals (set_Content line zeroLogLine)
                  defaultTimeFormat defaultTimeFormatAlt
                  (mkParts "" "" "" "" "" "" ""))).
  unfold finish, parse_time. simpl. rewrite T1.
  change (defaultTimeFormatAlt =? "") with false. cbv iota. rewrite T2.
  reflexivity.
Qed.

Lemma extend_same (c : string) (l : LogLine) :
  same_but_content_and_end l (extend c l).
Proof. unfold same_but_content_and_end. simpl. repeat split. Qed.

Lemma stitch_nil (logLine : LogLine) : stitch [] logLine = [].
Proof. reflexivity. Qed.

Lemma stitch_empty_content (l : list LogLine) (logLine : LogLine) :
  Content logLine = "" -> stitch l logLine = l.
Proof. intros E. unfold stitch. rewrite E. simpl. now rewrite andb_false_r. Qed.

Lemma stitch_snoc (pre : list LogLine) (last logLine : LogLine) :
  Content logLine <> "" ->
  stitch (pre ++ [last]) logLine = (pre ++ [extend (Content logLine) last])%list.
Proof.
  intros N. unfold stitch. rewrite length_app. simpl List.length.
  replace (Nat.ltb 0 (List.length pre + 1)) with true
    by (symmetry; apply Nat.ltb_lt; lia).
  apply String.eqb_neq in N. rewrite N. simpl.
  apply update_last_snoc.
Qed.

(** On lines that are no new record the loop only stitches. *)
Lemma run_failed (us : list string) (st : Scan) :
  Forall (fun u => snd (ParseLogLineWithPrefix "" u) = false) us ->
  logLines (run linesNewerThan us st) =
  fold_left stitch (map (fun u => fst (ParseLogLineWithPrefix "" u)) us)
    (logLines st).
Proof.
  intros F. revert st. induction F as [|u us H F IH]; intros st; [reflexivity|].
  simpl. rewrite IH. f_equal.
  destruct (ParseLogLineWithPrefix "" u) as [l ok] eqn:E. simpl in *.
  subst ok. now rewrite (step_failed _ _ _ _ E).
Qed.

Lemma is_line_lines_app (l b : string) :
  is_line l -> lines (l ++ b) = (l :: fst (lines b), snd (lines b)).
Proof.
  unfold is_line. intros H. rewrite lines_app by now rewrite H.
  now rewrite H.
Qed.

End Continuations.

(** C3.  When a line fails to parse as a new record, the loop leaves an
    empty output empty (the line is dropped), and otherwise appends the
    content of the failed result, when it is not empty, to the content of
    the last record and adds its length to that record's [ByteEnd] (an
    [int64] addition), leaving every other field of that record and all
    the earlier records as they are.  In particular, for a record line
    followed by two lines that no grammar matches, the output is the
    record of the header with the two lines appended in order to its
    content and their lengths added to its [ByteEnd].  ([time.Parse]
    rejects the empty string, which is what the time text of an unmatched
    line is.) *)
Theorem continuation_merge {W : World} (linesNewerThan : Time) :
  (forall st line logLine,
     ParseLogLineWithPrefix "" line = (logLine, false) ->
     (logLines st = [] -> logLines (step linesNewerThan st line) = []) /\
     (Content logLine = "" ->
      logLines (step linesNewerThan st line) = logLines st) /\
     (forall pre last,
        logLines st = (pre ++ [last])%list -> Content logLine <> "" ->
        exists last',
          logLines (step linesNewerThan st line) = (pre ++ [last'])%list /\
          Content last' = Content last ++ Content logLine /\
          ByteEnd last' = add64 (ByteEnd last) (len (Content logLine)) /\
          same_but_content_and_end last last')) /\
  (forall h u1 u2 init rnd,
     time_Parse defaultTimeFormat "" = None ->
     time_Parse defaultTimeFormatAlt "" = None ->
     is_line h -> is_line u1 -> is_line u2 ->
     emitted_line linesNewerThan h ->
     detect u1 = ("", false) -> detect u2 = ("", false) ->
     exists r0 r,
       logLines (scan h init linesNewerThan rnd) = [r0] /\
       Content r0 = Content (fst (ParseLogLineWithPrefix "" h)) /\
       logLines (scan (h ++ u1 ++ u2) init linesNewerThan rnd) = [r] /\
       Content r = Content r0 ++ u1 ++ u2 /\
       ByteEnd r = add64 (ByteEnd r0) (len u1 + len u2) /\
       same_but_content_and_end r0 r).
Proof.
  split.
  - intros st line logLine E. rewrite (step_failed _ _ _ _ E). simpl.
    split; [intros ->; reflexivity|].
    split; [now apply stitch_empty_content|].
    intros pre last -> N. rewrite stitch_snoc by assumption.
    exists (extend (Content logLine) last).
    split; [reflexivity|]. split; [reflexivity|].
    split; [simpl; apply add64_int64_r|]. apply extend_same.
  - intros h u1 u2 init rnd T1 T2 Hh H1 H2 E D1 D2.
    pose proof (parse_unmatched u1 T1 T2 D1) as P1.
    pose proof (parse_unmatched u2 T1 T2 D2) as P2.
    assert (N : forall u, is_line u -> u <> "").
    { intros u Hu ->. discriminate Hu. }
    unfold scan. rewrite (is_line_lines_app h (u1 ++ u2) Hh).
    rewrite (is_line_lines_app u1 u2 H1). rewrite H2, Hh. simpl fold_left.
    rewrite (step_emitted _ _ _ E). unfold emit. simpl.
    destruct (NewV4 rnd) as [u r']. simpl.
    rewrite (step_failed _ _ _ _ P1). simpl.
    rewrite (step_failed _ _ _ _ P2). simpl.
    unfold stitch. simpl.
    pose proof (N u1 H1) as N1. pose proof (N u2 H2) as N2.
    apply String.eqb_neq in N1, N2. rewrite N1, N2. simpl.
    eexists. eexists. split; [reflexivity|]. split; [reflexivity|].
    split; [reflexivity|]. simpl.
    split; [now rewrite append_assoc|].
    split; [|repeat split].
    rewrite !add64_int64_r. apply add64_add64.
Qed.

Lemma continuation_merge_witness :
  exists r0 r,
    logLines (scan Samples.header 100 Samples.keep_all Samples.seed) = [r0] /\
    Content r0 = Content (fst (ParseLogLineWithPrefix "" Samples.header)) /\
    logLines (scan (Samples.header ++ Samples.body1 ++ Samples.body2) 100
                Samples.keep_all Samples.seed) = [r] /\
    Content r = Content r0 ++ Samples.body1 ++ Samples.body2 /\
    ByteEnd r = add64 (ByteEnd r0) (len Samples.body1 + len Samples.body2) /\
    same_but_content_and_end r0 r.
Proof.
  apply (proj2 (continuation_merge (W := GoWorld.world) Samples.keep_all)
           Samples.header Samples.body1 Samples.body2 100%Z Samples.seed).
  - reflexivity.
  - reflexivity.
  - vm_compute; reflexivity.
  - vm_compute; reflexivity.
  - vm_compute; reflexivity.
  - split; vm_compute; reflexivity.
  - vm_compute; reflexivity.
  - vm_compute; reflexivity.
Defined.

(** C6.  A line that parses as a new record with [OccurredAt] strictly
    before the cutoff adds nothing to the output and draws no identifier:
    only the running offset moves.  The lines after it that are no new
    record are stitched exactly as if the old line were not there: to the
    last record emitted before it, or dropped when there is none.  At the
    level of a buffer: after a piece that ends at a line boundary, an old
    line followed by a line that is no new record gives the records of the
    piece with that last line stitched to them. *)
Theorem old_line_is_no_target {W : World} (linesNewerThan : Time)
    (line : string) (logLine : LogLine) :
  ParseLogLineWithPrefix "" line = (logLine, true) ->
  Before (OccurredAt logLine) linesNewerThan = true ->
  (forall st,
     step linesNewerThan st line =
     mkScan (logLines st) (add64 (currentByteStart st) (len line)) (rand st)) /\
  (forall st us,
     Forall (fun u => snd (ParseLogLineWithPrefix "" u) = false) us ->
     logLines (run linesNewerThan (line :: us) st) =
     fold_left stitch (map (fun u => fst (ParseLogLineWithPrefix "" u)) us)
       (logLines st) /\
     logLines (run linesNewerThan (line :: us) st) =
     logLines (run linesNewerThan us st)) /\
  (forall piece u init rnd,
     is_int64 init -> line_boundary piece -> is_line line -> is_line u ->
     snd (ParseLogLineWithPrefix "" u) = false ->
     logLines (scan (piece ++ line ++ u) init linesNewerThan rnd) =
     stitch (logLines (scan piece init linesNewerThan rnd))
       (fst (ParseLogLineWithPrefix "" u))).
Proof.
  intros E B.
  assert (S1 : forall st,
             step linesNewerThan st line =
             mkScan (logLines st) (add64 (currentByteStart st) (len line)) (rand st))
    by (intros; now apply (step_old _ _ _ _ E B)).
  split; [exact S1|]. split.
  - intros st us F. change (run linesNewerThan (line :: us) st)
      with (run linesNewerThan us (step linesNewerThan st line)).
    rewrite S1, !run_failed by assumption. now split.
  - intros piece u init rnd I Bd Hl Hu F.
    rewrite (scan_app linesNewerThan piece (line ++ u) init rnd I Bd).
    rewrite (is_line_lines_app line u Hl). rewrite Hu. simpl.
    rewrite S1. simpl.
    destruct (ParseLogLineWithPrefix "" u) as [lu ok] eqn:Eu. simpl in *.
    subst ok. now rewrite (step_failed _ _ _ _ Eu).
Qed.

Lemma old_line_is_no_target_witness :
  logLines (scan (Samples.later ++ Samples.header ++ Samples.body1) 100
              Samples.after_header Samples.seed) =
  stitch (logLines (scan Samples.later 100 Samples.after_header Samples.seed))
    (fst (ParseLogLineWithPrefix "" Samples.body1)).
Proof.
  refine (proj2 (proj2 (old_line_is_no_target (W := GoWorld.world)
                          Samples.after_header Samples.header
                          (fst (ParseLogLineWithPrefix "" Samples.header))
                          (pair_snd (ParseLogLineWithPrefix "" Samples.header) true _)
                          _))
            Samples.later Samples.body1 100%Z Samples.seed _ _ _ _ _).
  - vm_compute; reflexivity.
  - vm_compute; reflexivity.
  - unfold is_int64, MinInt64, MaxInt64. lia.
  - right. exists "2018-01-01 12:00:05 UTC [124] [user=app,db=prod,app=[unknown]] ERROR:  syntax error".
    vm_compute; reflexivity.
  - vm_compute; reflexivity.
  - vm_compute; reflexivity.
  - vm_compute; reflexivity.
Defined.

(** ** The result of [ParseLogLineWithPrefix] (C4, C7, C8) *)

Section ParseLine.

Context {W : World}.

Lemma parse_time_none (fmt alt value : string) :
  parse_time fmt alt value = None <->
  time_Parse fmt value = None /\ (alt = "" \/ time_Parse alt value = None).
Proof.
  unfold parse_time. destruct (time_Parse fmt value) as [t|].
  - split; [discriminate | intros [H _]; discriminate H].
  - destruct (String.eqb_spec alt "") as [->|N].
    + split; auto.
    + split; [auto | intros [_ [E|E]]; [contradiction | exact E]].
Qed.

(** The result when the time parses. *)
Lemma finish_time (v : Locals) (t : Time) :
  parse_time (timeFormat v) (timeFormatAlt v) (timePart (parts_of v)) = Some t ->
  OccurredAt (fst (finish v)) = t /\
  Content (fst (finish v)) = contentPart (parts_of v) /\
  snd (finish v) = negb (levelPart (parts_of v) =? "") /\
  (levelPart (parts_of v) <> "" ->
   LogLevel (fst (finish v)) = int32 (level_value (levelPart (parts_of v)))).
Proof.
  intros T. unfold finish. rewrite T.
  destruct (String.eqb_spec (levelPart (parts_of v)) "") as [E|N]; simpl;
    repeat split; intros; try contradiction; reflexivity.
Qed.

(** The result when the time does not parse. *)
Lemma finish_no_time (v : Locals) :
  parse_time (timeFormat v) (timeFormatAlt v) (timePart (parts_of v)) = None ->
  finish v = (set_OccurredAt zeroTime (logLine0 v), false).
Proof. intros T. unfold finish. now rewrite T. Qed.

(** A success of the function, read backwards. *)
Lemma parse_ok_inv (prefix line : string) (logLine : LogLine) :
  ParseLogLineWithPrefix prefix line = (logLine, true) ->
  exists v t,
    locals prefix line = Some v /\
    levelPart (parts_of v) <> "" /\
    parse_time (timeFormat v) (timeFormatAlt v) (timePart (parts_of v)) = Some t /\
    OccurredAt logLine = t /\
    LogLevel logLine = int32 (level_value (levelPart (parts_of v))).
Proof.
  unfold ParseLogLineWithPrefix. destruct (locals prefix line) as [v|];
    [|discriminate].
  intros H. exists v.
  destruct (parse_time (timeFormat v) (timeFormatAlt v) (timePart (parts_of v)))
    as [t|] eqn:T.
  - destruct (finish_time v t T) as (O & _ & S & L). rewrite H in *.
    simpl in *. exists t.
    destruct (String.eqb_spec (levelPart (parts_of v)) "") as [E|N];
      [discriminate|]. repeat split; auto.
  - rewrite (finish_no_time v T) in H. discriminate H.
Qed.

(** What the grammars leave in the result under construction: nothing, or
    the whole line when the [switch] takes its default case. *)
Lemma extract_logLine0 (prefix : string) (rsyslog : bool) (line : string)
    (v : Locals) :
  extract prefix rsyslog line = Some v ->
  logLine0 v = zeroLogLine \/ logLine0 v = set_Content line zeroLogLine.
Proof.
  unfold extract, extract_rsyslog, grammar.
  repeat match goal with
         | |- context [if ?b then _ else _] => destruct b
         end;
    intros H; inversion H; subst; simpl; auto.
Qed.

(** The syslog branch has no second time format. *)
Lemma extract_rsyslog_formats (line : string) (v : Locals) :
  extract_rsyslog line = Some v ->
  timeFormat v = syslogTimeFormat /\ timeFormatAlt v = "".
Proof.
  unfold extract_rsyslog. destruct (Nat.eqb _ 0); [discriminate|].
  intros H. inversion H; subst. now split.
Qed.

Lemma extract_formats (prefix : string) (line : string) (v : Locals) :
  extract prefix false line = Some v ->
  timeFormat v = defaultTimeFormat /\ timeFormatAlt v = defaultTimeFormatAlt.
Proof.
  unfold extract, grammar.
  repeat match goal with
         | |- context [if ?b then _ else _] => destruct b
         end;
    intros H; inversion H; subst; simpl; auto.
Qed.

Lemma locals_hint (prefix line : string) :
  prefix <> "" -> locals prefix line = extract prefix false line.
Proof.
  intros N. unfold locals. apply String.eqb_neq in N. now rewrite N.
Qed.

Lemma Forall_update_last (P : LogLine -> Prop) (f : LogLine -> LogLine)
    (l : list LogLine) :
  (forall x, P x -> P (f x)) -> Forall P l -> Forall P (update_last f l).
Proof.
  intros Hf. induction 1 as [|x l Hx Hl IH]; [constructor|].
  destruct l as [|y l]; simpl.
  - constructor; auto.
  - constructor; [assumption | exact IH].
Qed.

End ParseLine.

Lemma locals_logLine0 {W : World} (prefix line : string) (v : Locals) :
  locals prefix line = Some v ->
  logLine0 v = zeroLogLine \/ logLine0 v = set_Content line zeroLogLine.
Proof.
  unfold locals. destruct (if prefix =? "" then detect line else (prefix, false)).
  apply extract_logLine0.
Qed.

(** After the detection chain either a prefix is chosen or the syslog flag
    is set, never both. *)
Lemma detect_cases (line : string) :
  fst (detect line) = "" \/ snd (detect line) = false.
Proof.
  unfold detect.
  repeat match goal with
         | |- context [if ?b then _ else _] => destruct b
         end; simpl; auto.
Qed.

(** *** Level names and time stamps of the records (C4) *)

(** C4, as stated, fails: a level name that the level-name table does not
    have does not make the line fail.  The sample line parses under the
    grammar that detection selects; its level name is [FOO], which is not
    in the table; the function returns [ok = true] with the level 0, the
    [UNKNOWN] of the enumeration, and the scan emits that record. *)
Lemma unknown_level_is_emitted :
  option_map (fun v => levelPart (parts_of v)) (locals "" Samples.odd_level)
    = Some "FOO" /\
  LogLineInformation_LogLevel_value (World := GoWorld.world) "FOO" = None /\
  snd (ParseLogLineWithPrefix "" Samples.odd_level) = true /\
  map LogLevel
    (logLines (scan Samples.odd_level 0 Samples.keep_all Samples.seed)) = [0%Z].
Proof. repeat split; vm_compute; reflexivity. Qed.

(** C4, amended.  Every record of a scan comes from a line of the buffer
    whose level name is not empty and whose time text parsed, and has that
    time and the table's number for that name.  A line whose level name is
    empty is no new record ([ok = false]).  A line whose level name is not
    empty and not in the table is a new record all the same, when its time
    parses: [ok = true], with the level 0. *)
Theorem emitted_records_have_level_and_time {W : World} :
  (forall linesNewerThan buffer init rnd r,
     In r (logLines (scan buffer init linesNewerThan rnd)) ->
     exists line v t,
       In line (fst (lines buffer)) /\
       locals "" line = Some v /\
       levelPart (parts_of v) <> "" /\
       parse_time (timeFormat v) (timeFormatAlt v) (timePart (parts_of v)) = Some t /\
       OccurredAt r = t /\
       LogLevel r = int32 (level_value (levelPart (parts_of v)))) /\
  (forall prefix line v,
     locals prefix line = Some v -> levelPart (parts_of v) = "" ->
     snd (ParseLogLineWithPrefix prefix line) = false) /\
  (forall prefix line v t,
     locals prefix line = Some v -> levelPart (parts_of v) <> "" ->
     LogLineInformation_LogLevel_value (levelPart (parts_of v)) = None ->
     parse_time (timeFormat v) (timeFormatAlt v) (timePart (parts_of v)) = Some t ->
     snd (ParseLogLineWithPrefix prefix line) = true /\
     LogLevel (fst (ParseLogLineWithPrefix prefix line)) = 0%Z).
Proof.
  split; [|split].
  - intros c buffer init rnd r.
    destruct (scan_lines c buffer init rnd) as [-> _].
    set (P := fun r : LogLine =>
      exists line v t,
        In line (fst (lines buffer)) /\
        locals "" line = Some v /\
        levelPart (parts_of v) <> "" /\
        parse_time (timeFormat v) (timeFormatAlt v) (timePart (parts_of v)) = Some t /\
        OccurredAt r = t /\
        LogLevel r = int32 (level_value (levelPart (parts_of v)))).
    assert (G : forall ls st,
               (forall l, In l ls -> In l (fst (lines buffer))) ->
               Forall P (logLines st) -> Forall P (logLines (run c ls st))).
    { induction ls as [|l ls IH]; intros st S F; [exact F|].
      simpl. apply IH; [intros; apply S; now right|].
      destruct (step_cases c st l) as [[x E]|[[x [E B]]|E]].
      - rewrite (step_failed _ _ _ _ E). simpl. unfold stitch.
        destruct (_ && _)%bool; [|exact F].
        apply Forall_update_last; [|exact F].
        intros y (line & v & t & H). now exists line, v, t.
      - now rewrite (step_old _ _ _ _ E B).
      - rewrite (step_emitted _ _ _ E). unfold emit.
        destruct (NewV4 (rand st)). simpl. apply Forall_app.
        split; [exact F|]. constructor; [|constructor].
        destruct E as [E _].
        apply pair_snd in E. apply parse_ok_inv in E.
        destruct E as (v & t & E). exists l, v, t. simpl.
        split; [apply S; now left | exact E]. }
    intros H.
    pose proof (G (fst (lines buffer)) (mkScan [] init rnd)
                  (fun l H => H) (Forall_nil P)) as F.
    rewrite Forall_forall in F. exact (F r H).
  - intros prefix line v E L. unfold ParseLogLineWithPrefix. rewrite E.
    unfold finish. destruct (parse_time _ _ _); [|reflexivity].
    now rewrite L.
  - intros prefix line v t E L T P. unfold ParseLogLineWithPrefix. rewrite E.
    destruct (finish_time v t P) as (_ & _ & S & V).
    apply String.eqb_neq in L. rewrite S, L. split; [reflexivity|].
    apply String.eqb_neq in L. rewrite (V L). unfold level_value.
    now rewrite T.
Qed.

Lemma emitted_records_have_level_and_time_witness :
  snd (ParseLogLineWithPrefix "" Samples.odd_level) = true /\
  LogLevel (fst (ParseLogLineWithPrefix "" Samples.odd_level)) = 0%Z.
Proof.
  destruct (locals (W := GoWorld.world) "" Samples.odd_level) as [v|] eqn:E.
  2: { exfalso.
       assert (X : option_map (fun _ => tt) (locals "" Samples.odd_level) = Some tt)
         by (vm_compute; reflexivity).
       rewrite E in X. discriminate X. }
  refine (proj2 (proj2 (emitted_records_have_level_and_time (W := GoWorld.world)))
            "" Samples.odd_level v (1514808000, 0)%Z E _ _ _).
  - assert (L : option_map (fun v => levelPart (parts_of v))
                  (locals "" Samples.odd_level) = Some "FOO")
      by (vm_compute; reflexivity).
    rewrite E in L. simpl in L. injection L as ->. discriminate.
  - assert (L : option_map (fun v => levelPart (parts_of v))
                  (locals "" Samples.odd_level) = Some "FOO")
      by (vm_compute; reflexivity).
    rewrite E in L. simpl in L. injection L as ->. vm_compute; reflexivity.
  - assert (L : option_map (fun v =>
                    parse_time (timeFormat v) (timeFormatAlt v)
                      (timePart (parts_of v)))
                  (locals "" Samples.odd_level) = Some (Some (1514808000, 0)%Z))
      by (vm_compute; reflexivity).
    rewrite E in L. simpl in L. now injection L.
Defined.

(** When detection has found a grammar, or the syslog wrapper, the result
    under construction is still the zero value when the time is parsed. *)
Lemma extract_matched {W : World} (prefix : string) (rsyslog : bool)
    (line : string) (v : Locals) :
  extract prefix rsyslog line = Some v ->
  rsyslog = true \/ In prefix (map fst detection_order) ->
  logLine0 v = zeroLogLine.
Proof.
  intros H [->|I].
  - unfold extract, extract_rsyslog in H.
    destruct (Nat.eqb _ 0); [discriminate|]. now injection H as <-.
  - destruct rsyslog.
    + unfold extract, extract_rsyslog in H.
      destruct (Nat.eqb _ 0); [discriminate|]. now injection H as <-.
    + cbn [map fst detection_order] in I.
      repeat (destruct I as [<-|I];
              [unfold extract, grammar in H;
               cbv [LogPrefixAmazonRds LogPrefixCustom1 LogPrefixCustom2
                    LogPrefixCustom3 LogPrefixCustom4 LogPrefixCustom5
                    LogPrefixCustom6 LogPrefixCustom7 LogPrefixSimple
                    String.eqb Ascii.eqb Bool.eqb] in H;
               destruct (Nat.eqb _ 0); [discriminate|];
               now injection H as <-|]).
      contradiction.
Qed.

Lemma detect_matched (line : string) :
  detect line <> ("", false) ->
  snd (detect line) = true \/ In (fst (detect line)) (map fst detection_order).
Proof.
  unfold detect, detection_order. cbn [map fst].
  repeat match goal with
         | |- context [if MatchString ?r line then _ else _] =>
             destruct (MatchString r line);
             [intros _; cbn [fst snd]; auto 12 using in_eq, in_cons|]
         end.
  congruence.
Qed.

(** *** A time text that does not parse (C7) *)

(** C7, as stated, fails: upstream, a line whose time text does not parse
    is told apart from a line that no grammar matches.  The sample line is
    matched by a grammar and its month is 13, so that both time formats
    reject it: the function returns [ok = false] with an empty content,
    where for a line that no grammar matches it returns the whole line as
    content.  In a scan the first is dropped, the second is appended to
    the record before it. *)
Lemma unparsable_time_is_told_apart :
  detect Samples.bad_time = (LogPrefixCustom4, false) /\
  option_map (fun v => timePart (parts_of v)) (locals "" Samples.bad_time)
    = Some "2018-13-01 12:00:00 UTC" /\
  time_Parse (World := GoWorld.world) defaultTimeFormat
    "2018-13-01 12:00:00 UTC" = None /\
  time_Parse (World := GoWorld.world) defaultTimeFormatAlt
    "2018-13-01 12:00:00 UTC" = None /\
  snd (ParseLogLineWithPrefix "" Samples.bad_time) = false /\
  Content (fst (ParseLogLineWithPrefix "" Samples.bad_time)) = "" /\
  detect Samples.body1 = ("", false) /\
  snd (ParseLogLineWithPrefix "" Samples.body1) = false /\
  Content (fst (ParseLogLineWithPrefix "" Samples.body1)) = Samples.body1 /\
  map Content
    (logLines (scan (Samples.header ++ Samples.bad_time) 0
                 Samples.keep_all Samples.seed)) =
  map Content (logLines (scan Samples.header 0 Samples.keep_all Samples.seed)) /\
  map Content
    (logLines (scan (Samples.header ++ Samples.body1) 0
                 Samples.keep_all Samples.seed)) =
  map (fun r => Content r ++ Samples.body1)
    (logLines (scan Samples.header 0 Samples.keep_all Samples.seed)).
Proof. repeat split; vm_compute; reflexivity. Qed.

(** C7, amended.  When the time text that a grammar extracted parses under
    neither the first format nor, if there is one, the second (the syslog
    branch has none), the function returns [ok = false], and the result it
    returns is the one under construction: the zero value, with an empty
    content, when a grammar matched, and the whole line as content when
    none did.  In the scan loop the line takes the branch of the lines
    that are no new record; when detection found a grammar, or the syslog
    wrapper, nothing is appended to the last record: the line is
    dropped. *)
Theorem unparsable_time_is_dropped {W : World} (prefix line : string)
    (v : Locals) :
  locals prefix line = Some v ->
  time_Parse (timeFormat v) (timePart (parts_of v)) = None ->
  timeFormatAlt v = "" \/
  time_Parse (timeFormatAlt v) (timePart (parts_of v)) = None ->
  ParseLogLineWithPrefix prefix line = (logLine0 v, false) /\
  (logLine0 v = zeroLogLine \/ logLine0 v = set_Content line zeroLogLine) /\
  (prefix = "" -> snd (detect line) = true -> timeFormatAlt v = "") /\
  (prefix = "" ->
   forall linesNewerThan st,
     step linesNewerThan st line =
     mkScan (stitch (logLines st) (logLine0 v))
       (add64 (currentByteStart st) (len line)) (rand st)) /\
  (prefix = "" -> detect line <> ("", false) ->
   logLine0 v = zeroLogLine /\
   forall linesNewerThan st,
     logLines (step linesNewerThan st line) = logLines st).
Proof.
  intros E T1 T2.
  assert (T : parse_time (timeFormat v) (timeFormatAlt v)
                (timePart (parts_of v)) = None)
    by (apply parse_time_none; now split).
  assert (Z : set_OccurredAt zeroTime (logLine0 v) = logLine0 v)
    by (destruct (locals_logLine0 prefix line v E) as [->| ->]; reflexivity).
  assert (P : ParseLogLineWithPrefix prefix line = (logLine0 v, false)).
  { unfold ParseLogLineWithPrefix. rewrite E, (finish_no_time v T).
    now rewrite Z. }
  split; [exact P|].
  split; [exact (locals_logLine0 prefix line v E)|].
  split.
  { intros -> D. unfold locals in E. change ("" =? "") with true in E.
    cbv iota in E. destruct (detect line) as [p rs]. simpl in D. subst rs.
    unfold extract in E. now apply extract_rsyslog_formats in E. }
  split.
  - intros -> c st. now apply step_failed.
  - intros -> D.
    assert (Z0 : logLine0 v = zeroLogLine).
    { unfold locals in E. change ("" =? "") with true in E. cbv iota in E.
      pose proof (detect_matched line D) as M.
      destruct (detect line) as [p rs]. simpl in M.
      now apply (extract_matched p rs line v E). }
    split; [exact Z0|]. intros c st.
    rewrite (step_failed c st line _ P). simpl.
    apply stitch_empty_content. now rewrite Z0.
Qed.

Lemma unparsable_time_is_dropped_witness :
  logLines (step Samples.keep_all
              (scan Samples.header 0 Samples.keep_all Samples.seed)
              Samples.bad_time)
  = logLines (scan Samples.header 0 Samples.keep_all Samples.seed).
Proof.
  destruct (locals (W := GoWorld.world) "" Samples.bad_time) as [v|] eqn:E.
  2: { exfalso.
       assert (X : option_map (fun _ => tt) (locals "" Samples.bad_time) = Some tt)
         by (vm_compute; reflexivity).
       rewrite E in X. discriminate X. }
  assert (F : option_map (fun v =>
                  (time_Parse (timeFormat v) (timePart (parts_of v)),
                   time_Parse (timeFormatAlt v) (timePart (parts_of v)),
                   Content (logLine0 v)))
                (locals "" Samples.bad_time) = Some (None, None, ""))
    by (vm_compute; reflexivity).
  rewrite E in F. simpl in F. injection F as F1 F2 F3.
  destruct (unparsable_time_is_dropped (W := GoWorld.world) ""
              Samples.bad_time v E F1 (or_intror F2)) as (_ & _ & _ & _ & D).
  refine (proj2 (D eq_refl _) Samples.keep_all
            (scan Samples.header 0 Samples.keep_all Samples.seed)).
  vm_compute. intros H. discriminate H.
Defined.

(** *** A prefix given by the caller (C8) *)

(** C8, as stated, fails for the empty prefix: [LogPrefixEmpty] is a
    supported prefix, and it is the empty string, which the function takes
    as "no prefix given".  With it the sample line goes through detection
    and parses as a record; the [switch] entered directly with the empty
    prefix takes its default case and gives [ok = false]. *)
Lemma empty_prefix_is_detected :
  IsSupportedPrefix LogPrefixEmpty = true /\
  snd (ParseLogLineWithPrefix LogPrefixEmpty Samples.header) = true /\
  snd (direct LogPrefixEmpty Samples.header) = false /\
  ParseLogLineWithPrefix LogPrefixEmpty Samples.header
  <> direct LogPrefixEmpty Samples.header.
Proof.
  split; [reflexivity|]. split; [vm_compute; reflexivity|].
  split; [vm_compute; reflexivity|].
  intros H. apply (f_equal snd) in H. vm_compute in H. discriminate H.
Qed.

(** C8, amended.  A prefix that is not the empty string is used directly,
    with no detection: the result is that of the [switch] entered with it
    (for a supported prefix, of its grammar).  The empty prefix,
    [LogPrefixEmpty], is the absence of a prefix and starts detection.  For
    every line, the call with the prefix that detection leaves in [prefix]
    gives the result of the call with detection. *)
Theorem given_prefix_is_used_directly {W : World} :
  (forall prefix line,
     prefix <> LogPrefixEmpty ->
     ParseLogLineWithPrefix prefix line = direct prefix line) /\
  (forall line,
     locals LogPrefixEmpty line
     = extract (fst (detect line)) (snd (detect line)) line) /\
  (forall line,
     ParseLogLineWithPrefix (fst (detect line)) line
     = ParseLogLineWithPrefix "" line).
Proof.
  split; [|split].
  - intros prefix line N. unfold ParseLogLineWithPrefix, direct.
    now rewrite locals_hint.
  - intros line. unfold locals, LogPrefixEmpty. change ("" =? "") with true.
    cbv iota. now destruct (detect line).
  - intros line. unfold ParseLogLineWithPrefix.
    replace (locals (fst (detect line)) line) with (locals "" line);
      [reflexivity|].
    destruct (String.eqb_spec (fst (detect line)) "") as [->|N];
      [reflexivity|].
    rewrite (locals_hint _ line N). unfold locals.
    change ("" =? "") with true. cbv iota.
    destruct (detect_cases line) as [E|E]; [contradiction|].
    destruct (detect line) as [p rs]. simpl in *. now subst rs.
Qed.

Lemma given_prefix_is_used_directly_witness :
  ParseLogLineWithPrefix LogPrefixCustom3 Samples.with_host
  = direct LogPrefixCustom3 Samples.with_host.
Proof.
  refine (proj1 (given_prefix_is_used_directly (W := GoWorld.world))
            LogPrefixCustom3 Samples.with_host _).
  discriminate.
Defined.

(** ** The debug scan (C9) *)

(** C9.  In [DebugParseAndAnalyzeBuffer], a line that matches
    [HerokuPostgresDebugRegexp] and lacks the SQLSTATE or the level is
    taken as a continuation, and the last element of [logLines] is
    indexed with no test of the length.  When such a line is the first
    line of the buffer, [logLines] is empty and the call ends in the
    run-time panic of an index out of range.  (The sibling branch, for a
    line that [ParseLogLineWithPrefix] rejects, tests the length and
    returns.) *)
Theorem debug_scan_indexes_empty_output {W : World} (S : Type)
    (Analyze : list LogLine -> list LogLine * list S)
    (buffer first : string) (rest : list string) (tail : string) (rnd : Rand) :
  lines buffer = (first :: rest, tail) ->
  List.length (FindStringSubmatch HerokuPostgresDebugRegexp first) = 7 ->
  part (FindStringSubmatch HerokuPostgresDebugRegexp first) 4 = "" \/
  part (FindStringSubmatch HerokuPostgresDebugRegexp first) 5 = "" ->
  (forall off r, debug_step (mkScan [] off r) first = PanicIndexOutOfRange) /\
  DebugParseAndAnalyzeBuffer S Analyze buffer rnd = PanicIndexOutOfRange /\
  (forall line off r,
     List.length (FindStringSubmatch HerokuPostgresDebugRegexp line) <> 7 ->
     snd (ParseLogLineWithPrefix "" line) = false ->
     debug_step (mkScan [] off r) line
     = Returns (mkScan [] (add64 off (len line)) r)).
Proof.
  intros L N E.
  assert (P : forall off r, debug_step (mkScan [] off r) first
                            = PanicIndexOutOfRange).
  { intros off r. unfold debug_step. rewrite N. simpl Nat.eqb. cbv iota.
    destruct E as [-> | ->]; simpl; [reflexivity|].
    now rewrite andb_false_r. }
  split; [exact P|]. split.
  - unfold DebugParseAndAnalyzeBuffer. rewrite L. simpl. now rewrite P.
  - intros line off r N' F. unfold debug_step.
    apply Nat.eqb_neq in N'. rewrite N'.
    destruct (ParseLogLineWithPrefix "" line) as [l ok]. simpl in F.
    subst ok. simpl. now rewrite add64_int64_r.
Qed.

Lemma debug_scan_indexes_empty_output_witness :
  DebugParseAndAnalyzeBuffer unit (fun l => (l, []))
    (Samples.heroku_body ++ Samples.header) Samples.seed
  = PanicIndexOutOfRange.
Proof.
  refine (proj1 (proj2 (debug_scan_indexes_empty_output (W := GoWorld.world)
                          unit (fun l => (l, []))
                          (Samples.heroku_body ++ Samples.header)
                          Samples.heroku_body [Samples.header] "" Samples.seed
                          _ _ _))).
  - vm_compute; reflexivity.
  - vm_compute; reflexivity.
  - left. vm_compute; reflexivity.
Defined.

(** ** The matcher finds matches *)

Module RegexpFacts.

Lemma length_set_nth (i : nat) (v : string) (l : list string) :
  List.length (set_nth i v l) = List.length l.
Proof.
  revert i. induction l as [|x l IH]; intros [|i]; simpl; auto.
Qed.

Lemma rep_loop_sound (P : string -> string -> Prop)
    (body : string -> list string -> cont -> option (list string)) (k : cont) :
  sound P body ->
  forall fuel mn mx s caps res,
    rep_loop body k fuel mn mx s caps = Some res ->
    exists s' caps',
      iter P mn mx s s' /\ List.length caps' = List.length caps /\
      k s' caps' = Some res.
Proof.
  intros B. induction fuel as [|fuel IH]; intros mn mx s caps res H;
    [discriminate|].
  cbn [rep_loop] in H.
  set (k' := fun (s' : string) (caps' : list string) =>
               if (Nat.eqb mn 0 && Nat.eqb (String.length s') (String.length s))%bool
               then None
               else rep_loop body k fuel (pred mn) (option_map pred mx) s' caps')
    in H.
  assert (More : forall res',
             body s caps k' = Some res' -> mx <> Some 0 ->
             exists s' caps',
               iter P mn mx s s' /\ List.length caps' = List.length caps /\
               k s' caps' = Some res').
  { intros res' E N. destruct (B _ _ _ _ E) as (mid & caps1 & Pm & L1 & K).
    unfold k' in K. destruct (_ && _)%bool; [discriminate|].
    destruct (IH _ _ _ _ _ K) as (s' & caps' & I & L & K').
    exists s', caps'. split; [|split; [congruence | exact K']].
    now apply iter_more with mid. }
  assert (Stop : (if Nat.eqb mn 0 then k s caps else None) = Some res ->
                 exists s' caps',
                   iter P mn mx s s' /\ List.length caps' = List.length caps /\
                   k s' caps' = Some res).
  { destruct (Nat.eqb_spec mn 0) as [->|]; [|discriminate].
    intros K. exists s, caps. split; [constructor | now split]. }
  destruct mx as [[|m]|].
  - now apply Stop.
  - destruct (body s caps k') as [res'|] eqn:E; [|now apply Stop].
    injection H as <-. apply More; [reflexivity | discriminate].
  - destruct (body s caps k') as [res'|] eqn:E; [|now apply Stop].
    injection H as <-. apply More; [reflexivity | discriminate].
Qed.

Lemma exec_sound (r : regex) (n : nat) : sound (spans r n) (exec r n).
Proof.
  induction r as [|l| | |r1 IH1 r2 IH2|mn mx r IH|i r IH];
    intros s caps k res H; cbn [exec spans] in *.
  - now exists s, caps.
  - destruct s as [|c s]; [discriminate|].
    destruct (class_matches l c) eqn:C; [|discriminate].
    exists s, caps. repeat split; eauto.
  - destruct (Nat.eqb_spec (String.length s) n); [|discriminate].
    now exists s, caps.
  - destruct s; [|discriminate]. now exists "", caps.
  - destruct (IH1 _ _ _ _ H) as (mid & caps1 & S1 & L1 & K1).
    destruct (IH2 _ _ _ _ K1) as (s' & caps' & S2 & L2 & K2).
    exists s', caps'. split; [now exists mid|]. split; congruence.
  - now apply (rep_loop_sound _ _ k IH) in H.
  - destruct (IH _ _ _ _ H) as (s' & caps' & S1 & L1 & K1).
    exists s', (set_nth i (consumed s s') caps').
    split; [exact S1|]. split; [|exact K1].
    now rewrite length_set_nth.
Qed.

(** *** The fuel of the repetition is enough *)

Lemma rep_loop_local
    (body : string -> list string -> cont -> option (list string)) :
  local body ->
  forall fuel mn mx s caps (k k' : cont),
    (forall s' caps',
       String.length s' <= String.length s -> k s' caps' = k' s' caps') ->
    rep_loop body k fuel mn mx s caps = rep_loop body k' fuel mn mx s caps.
Proof.
  intros B. induction fuel as [|fuel IH]; intros mn mx s caps k k' E;
    [reflexivity|].
  cbn [rep_loop]. rewrite (E s caps (Nat.le_refl _)).
  assert (M : forall kk : cont,
             (forall s' caps',
                String.length s' <= String.length s ->
                kk s' caps' =
                if (Nat.eqb mn 0 && Nat.eqb (String.length s') (String.length s))%bool
                then None
                else rep_loop body k' fuel (pred mn) (option_map pred mx) s' caps') ->
             body s caps kk =
             body s caps (fun s' caps' =>
               if (Nat.eqb mn 0 && Nat.eqb (String.length s') (String.length s))%bool
               then None
               else rep_loop body k' fuel (pred mn) (option_map pred mx) s' caps'))
    by (intros kk H; now apply B).
  rewrite (M (fun s' caps' =>
               if (Nat.eqb mn 0 && Nat.eqb (String.length s') (String.length s))%bool
               then None
               else rep_loop body k fuel (pred mn) (option_map pred mx) s' caps')).
  - reflexivity.
  - intros s' caps' L. destruct (_ && _)%bool; [reflexivity|].
    apply IH. intros s'' caps'' L'. apply E. lia.
Qed.

Lemma exec_local (r : regex) (n : nat) : local (exec r n).
Proof.
  induction r as [|l| | |r1 IH1 r2 IH2|mn mx r IH|i r IH];
    intros s caps k k' E; cbn [exec].
  - now apply E.
  - destruct s as [|c s]; [reflexivity|].
    destruct (class_matches l c); [|reflexivity]. apply E. simpl. lia.
  - destruct (Nat.eqb _ n); [now apply E | reflexivity].
  - destruct s; [now apply E | reflexivity].
  - apply IH1. intros s' caps' L. apply IH2. intros s'' caps'' L'.
    apply E. lia.
  - now apply rep_loop_local.
  - apply IH. intros s' caps' L. now apply E.
Qed.

(** Any fuel above the bound gives the result of the fuel that [exec]
    gives to the loop: the loop never stops for lack of fuel. *)
Lemma rep_loop_enough
    (body : string -> list string -> cont -> option (list string)) (k : cont) :
  local body ->
  forall fuel fuel' mn mx s caps,
    mn + String.length s < fuel -> mn + String.length s < fuel' ->
    rep_loop body k fuel mn mx s caps = rep_loop body k fuel' mn mx s caps.
Proof.
  intros B. induction fuel as [|fuel IH]; intros fuel' mn mx s caps F F';
    [lia|].
  destruct fuel' as [|fuel']; [lia|]. cbn [rep_loop].
  replace (body s caps (fun s' caps' =>
             if (Nat.eqb mn 0 && Nat.eqb (String.length s') (String.length s))%bool
             then None
             else rep_loop body k fuel (pred mn) (option_map pred mx) s' caps'))
    with (body s caps (fun s' caps' =>
             if (Nat.eqb mn 0 && Nat.eqb (String.length s') (String.length s))%bool
             then None
             else rep_loop body k fuel' (pred mn) (option_map pred mx) s' caps'));
    [reflexivity|].
  apply B. intros s' caps' L.
  destruct (Nat.eqb_spec mn 0) as [->|N]; simpl andb.
  - destruct (Nat.eqb_spec (String.length s') (String.length s)) as [|N'];
      [reflexivity|].
    symmetry. apply IH; simpl; lia.
  - symmetry. apply IH; lia.
Qed.

Lemma exec_Rep_fuel (mn : nat) (mx : option nat) (r : regex) (n : nat)
    (s : string) (caps : list string) (k : cont) (extra : nat) :
  exec (Rep mn mx r) n s caps k =
  rep_loop (exec r n) k (S (mn + String.length s) + extra) mn mx s caps.
Proof.
  cbn [exec]. apply rep_loop_enough; [apply exec_local | lia | lia].
Qed.

(** Every pattern of [parse.go] compiles: the compiled expressions have
    the capturing groups of their patterns. *)
Lemma patterns_compile :
  map ngroups
    [LogPrefixAmazonRdsRegxp; LogPrefixCustom1Regexp; LogPrefixCustom2Regexp;
     LogPrefixCustom3Regexp; LogPrefixCustom4Regexp; LogPrefixCustom5Regexp;
     LogPrefixCustom6Regexp; LogPrefixCustom7Regexp; LogPrefixSimpleRegexp;
     LogPrefixNoTimestampUserDatabaseAppRegexp; RsyslogRegexp;
     HerokuPostgresDebugRegexp]
  = [7; 7; 7; 7; 8; 8; 9; 8; 4; 5; 7; 6].
Proof. vm_compute. reflexivity. Qed.

(** A successful search: the match starts at some suffix of the text and
    there are as many submatches as groups, and one for the whole match. *)
Lemma search_sound (r : Regexp) (n : nat) (s : string) (caps : list string) :
  search r n s = Some caps ->
  List.length caps = S (ngroups r) /\
  exists k s', spans (re r) n (drop k s) s'.
Proof.
  induction s as [|c s IH]; cbn [search].
  - destruct (exec (re r) n "" _ _) as [res|] eqn:E; [|discriminate].
    intros H. injection H as H. subst res.
    destruct (exec_sound _ _ _ _ _ _ E) as (s' & caps' & S1 & L & K).
    assert (Ln : List.length caps = List.length caps')
      by (injection K as K; rewrite <- K; destruct caps'; reflexivity).
    rewrite Ln, L, repeat_length.
    split; [reflexivity|]. now exists 0, s'.
  - destruct (exec (re r) n (String c s) _ _) as [res|] eqn:E.
    + intros H. injection H as H. subst res.
      destruct (exec_sound _ _ _ _ _ _ E) as (s' & caps' & S1 & L & K).
      assert (Ln : List.length caps = List.length caps')
        by (injection K as K; rewrite <- K; destruct caps'; reflexivity).
      rewrite Ln, L, repeat_length.
      split; [reflexivity|]. now exists 0, s'.
    + intros H. destruct (IH H) as (L & k & s' & S1).
      split; [exact L|]. now exists (S k), s'.
Qed.

Lemma length_drop (k : nat) (s : string) :
  String.length (drop k s) = String.length s - k.
Proof.
  revert s. induction k as [|k IH]; intros [|c s]; simpl; auto.
Qed.

Lemma drop_all (k : nat) (s : string) :
  String.length (drop k s) = String.length s -> drop k s = s.
Proof.
  destruct k as [|k]; [now destruct s|]. destruct s as [|c s]; [reflexivity|].
  rewrite length_drop. simpl. lia.
Qed.

(** An expression that starts with [^] only matches from the first byte. *)
Lemma anchored_match (r : Regexp) (r' : regex) (s : string) :
  re r = Cat Bol r' ->
  MatchString r s = true ->
  exists s', spans r' (String.length s) s s'.
Proof.
  intros A. unfold MatchString.
  destruct (search r (String.length s) s) as [caps|] eqn:E; [|discriminate].
  intros _. destruct (search_sound _ _ _ _ E) as (_ & k & s' & S1).
  rewrite A in S1. cbn [spans] in S1.
  destruct S1 as (mid & [-> L] & S2). apply drop_all in L.
  rewrite L in S2. now exists s'.
Qed.

(** A match has its submatches. *)
Lemma MatchString_FindStringSubmatch (r : Regexp) (s : string) :
  MatchString r s = true ->
  List.length (FindStringSubmatch r s) = S (ngroups r).
Proof.
  unfold MatchString, FindStringSubmatch.
  destruct (search r (String.length s) s) as [caps|] eqn:E; [|discriminate].
  intros _. now apply search_sound in E.
Qed.

End RegexpFacts.

(** ** The payload of a syslog line (C10) *)

Lemma drop_nil (k : nat) : drop k "" = "".
Proof. now destruct k. Qed.

Lemma replace_from_drop (k : nat) (old new s : string) :
  replace_from k old new s = replace_from 0 old new (drop k s).
Proof.
  revert s. induction k as [|k IH]; intros s; [now destruct s|].
  destruct s as [|c s]; [reflexivity|]. simpl. apply IH.
Qed.

(** The replacement of the escaped tabs, one step at a time. *)
Lemma Replace_tab_step (c : ascii) (s : string) :
  Replace (String c s) "#011" (String tab "") =
  if HasPrefix (String c s) "#011"
  then String tab (Replace (drop 3 s) "#011" (String tab ""))
  else String c (Replace s "#011" (String tab "")).
Proof.
  unfold Replace. cbn [replace_from].
  destruct (HasPrefix (String c s) "#011"); [|reflexivity].
  cbn [String.length Nat.sub append]. now rewrite replace_from_drop.
Qed.

(** A prefix without tabs of the replaced text is a prefix of the text. *)
Lemma Replace_tab_prefix (p s : string) :
  (forall i, HasPrefix (drop i p) (String tab "") = false) ->
  HasPrefix (Replace s "#011" (String tab "")) p = true ->
  HasPrefix s p = true.
Proof.
  revert s. induction p as [|a p IH]; intros s T H; [reflexivity|].
  assert (Ta : Ascii.eqb tab a = false).
  { specialize (T 0). simpl in T. now rewrite andb_true_r in T. }
  assert (Tp : forall i, HasPrefix (drop i p) (String tab "") = false)
    by (intros i; exact (T (S i))).
  destruct s as [|c s]; [discriminate H|].
  rewrite Replace_tab_step in H.
  destruct (HasPrefix (String c s) "#011").
  - cbn [HasPrefix] in H. rewrite Ascii.eqb_sym, Ta in H. discriminate H.
  - cbn [HasPrefix] in *. apply andb_true_iff in H. destruct H as [-> H].
    simpl. now apply IH.
Qed.

(** No escaped tab is left. *)
Lemma Replace_tab_all (s : string) (i : nat) :
  HasPrefix (drop i (Replace s "#011" (String tab ""))) "#011" = false.
Proof.
  remember (String.length s) as n eqn:L.
  assert (Le : String.length s <= n) by lia. clear L.
  revert s i Le. induction n as [|n IH]; intros s i Le.
  - destruct s; [|simpl in Le; lia]. now rewrite drop_nil.
  - destruct s as [|c s]; [now rewrite drop_nil|].
    rewrite Replace_tab_step.
    destruct (HasPrefix (String c s) "#011") eqn:P.
    + destruct i as [|i]; [reflexivity|].
      change (drop (S i) (String tab (Replace (drop 3 s) "#011" (String tab ""))))
        with (drop i (Replace (drop 3 s) "#011" (String tab ""))).
      apply IH. simpl in Le.
      pose proof (RegexpFacts.length_drop 3 s). lia.
    + destruct i as [|i]; [|cbn [drop]; apply IH; simpl in Le; lia].
      cbn [drop].
      destruct (HasPrefix (String c (Replace s "#011" (String tab ""))) "#011")
        eqn:Q; [|reflexivity].
      exfalso. cbn [HasPrefix] in Q, P.
      apply andb_true_iff in Q. destruct Q as [Q1 Q2].
      rewrite Q1 in P. simpl in P.
      apply (Replace_tab_prefix "011") in Q2.
      * simpl in Q2. congruence.
      * intros [|[|[|[|j]]]]; reflexivity.
Qed.

Lemma detect_rsyslog (line : string) :
  snd (detect line) = true -> MatchString RsyslogRegexp line = true.
Proof.
  unfold detect.
  repeat match goal with
         | |- context [if ?b then _ else _] => destruct b eqn:?
         end; simpl; congruence.
Qed.

Lemma detect_rsyslog_prefix (line : string) :
  snd (detect line) = true -> detect line = ("", true).
Proof.
  intros H. destruct (detect_cases line) as [E|E]; [|congruence].
  destruct (detect line). simpl in *. congruence.
Qed.

(** The parts that the syslog branch extracts. *)
Lemma syslog_extraction {W : World} (line : string) :
  snd (detect line) = true ->
  exists v,
    locals "" line = Some v /\
    (List.length (syslog_sub line) <> 6 ->
     contentPart (parts_of v) = syslog_text line /\
     levelPart (parts_of v) = part (FindStringSubmatch RsyslogRegexp line) 6 /\
     userPart (parts_of v) = "" /\ dbPart (parts_of v) = "" /\
     appPart (parts_of v) = "") /\
    (List.length (syslog_sub line) = 6 ->
     userPart (parts_of v) = part (syslog_sub line) 1 /\
     dbPart (parts_of v) = part (syslog_sub line) 2 /\
     appPart (parts_of v) = part (syslog_sub line) 3 /\
     levelPart (parts_of v) = part (syslog_sub line) 4 /\
     contentPart (parts_of v) = part (syslog_sub line) 5) /\
    (forall t,
       parse_time (timeFormat v) (timeFormatAlt v) (timePart (parts_of v))
         = Some t ->
       Content (fst (ParseLogLineWithPrefix "" line))
         = contentPart (parts_of v)).
Proof.
  intros D.
  pose proof (RegexpFacts.MatchString_FindStringSubmatch _ _
                (detect_rsyslog line D)) as M.
  assert (E : locals "" line = extract_rsyslog line).
  { unfold locals. change ("" =? "") with true. cbv iota.
    now rewrite (detect_rsyslog_prefix line D). }
  assert (V : exists v, extract_rsyslog line = Some v).
  { unfold extract_rsyslog. rewrite M. simpl Nat.eqb. cbv iota. eauto. }
  destruct V as (v & V). exists v. split; [congruence|].
  pose proof V as V0.
  unfold extract_rsyslog in V. rewrite M in V. simpl Nat.eqb in V.
  cbv iota in V. unfold syslog_sub, syslog_text, syslog_payload.
  split; [|split].
  - intros N. apply Nat.eqb_neq in N. rewrite N in V.
    injection V as <-. simpl. auto.
  - intros N. rewrite N in V. simpl Nat.eqb in V. cbv iota in V.
    injection V as <-. simpl. auto.
  - intros t T. unfold ParseLogLineWithPrefix. rewrite E, V0.
    now destruct (finish_time v t T) as (_ & C & _).
Qed.

(** C10.  For a line that detection takes as syslog, every occurrence of
    the four bytes [#011] in the payload (the last submatch of
    [RsyslogRegexp]) is replaced by a tab: no [#011] is left in the
    replaced text.  The bracketed sub-format is matched against the
    replaced text; the user, database, application, level and content
    come from it when it matches, and otherwise the content is the
    replaced text.  When the time parses, that content is the [Content] of
    the result.  There are lines whose content is not their payload. *)
Theorem syslog_payload_tabs {W : World} :
  (forall line,
     snd (detect line) = true ->
     (forall i, HasPrefix (drop i (syslog_text line)) "#011" = false) /\
     exists v,
       locals "" line = Some v /\
       (List.length (syslog_sub line) <> 6 ->
        contentPart (parts_of v) = syslog_text line /\
        levelPart (parts_of v) = part (FindStringSubmatch RsyslogRegexp line) 6 /\
        userPart (parts_of v) = "" /\ dbPart (parts_of v) = "" /\
        appPart (parts_of v) = "") /\
       (List.length (syslog_sub line) = 6 ->
        userPart (parts_of v) = part (syslog_sub line) 1 /\
        dbPart (parts_of v) = part (syslog_sub line) 2 /\
        appPart (parts_of v) = part (syslog_sub line) 3 /\
        levelPart (parts_of v) = part (syslog_sub line) 4 /\
        contentPart (parts_of v) = part (syslog_sub line) 5) /\
       (forall t,
          parse_time (timeFormat v) (timeFormatAlt v) (timePart (parts_of v))
            = Some t ->
          Content (fst (ParseLogLineWithPrefix "" line))
            = contentPart (parts_of v))) /\
  (exists line v,
     snd (detect line) = true /\
     locals "" line = Some v /\
     contentPart (parts_of v) <> syslog_payload line).
Proof.
  split.
  - intros line D. split; [intros i; apply Replace_tab_all|].
    now apply syslog_extraction.
  - exists Samples.syslog.
    assert (D : snd (detect Samples.syslog) = true) by (vm_compute; reflexivity).
    destruct (syslog_extraction _ D) as (v & E & C & _). exists v.
    split; [exact D|]. split; [exact E|].
    destruct C as (C & _).
    + vm_compute. intros H. discriminate H.
    + rewrite C. vm_compute. intros H. discriminate H.
Qed.

Lemma syslog_payload_tabs_witness :
  map Content
    (logLines (scan Samples.syslog 0 Samples.keep_all Samples.seed))
  = ["database" ++ String tab "system is ready" ++ nl] /\
  syslog_payload Samples.syslog = "database#011system is ready" ++ nl /\
  exists v,
    locals (W := GoWorld.world) "" Samples.syslog = Some v /\
    contentPart (parts_of v) = syslog_text Samples.syslog.
Proof.
  split; [vm_compute; reflexivity|]. split; [vm_compute; reflexivity|].
  destruct (proj1 (syslog_payload_tabs (W := GoWorld.world)) Samples.syslog)
    as (_ & v & E & C & _).
  - vm_compute; reflexivity.
  - exists v. split; [exact E|]. apply C. vm_compute. intros H. discriminate H.
Defined.

(** ** The order of detection (C5) *)

Module Detection.

Import RegexpFacts.

Lemma drop_drop (a b : nat) (s : string) : drop a (drop b s) = drop (b + a) s.
Proof.
  revert s. induction b as [|b IH]; intros s; [now destruct s|].
  destruct s as [|c s]; [now rewrite !drop_nil|]. apply IH.
Qed.

Lemma spans_One (l : list atom) (n : nat) (s s' : string) :
  spans (One l) n s s' -> head_in l s = true /\ s' = drop 1 s.
Proof. intros (c & -> & C). now split. Qed.

Lemma iter_exact (l : list atom) (n k : nat) (s s' : string) :
  iter (spans (One l) n) k (Some k) s s' -> s' = drop k s.
Proof.
  revert s. induction k as [|k IH]; intros s H;
    inversion H as [mx0 s0|mn0 mx0 s0 mid s0' N P I]; subst.
  - now destruct s'.
  - congruence.
  - destruct P as (c & -> & C). simpl in I. now apply IH in I.
Qed.

Lemma skip_class_stop (l : list atom) (s : string) :
  head_in l s = false -> skip_class l s = s.
Proof. destruct s as [|c s]; simpl; [reflexivity|]. now intros ->. Qed.

Lemma iter_munch (l : list atom) (n mn : nat) (mx : option nat) (s s' : string) :
  iter (spans (One l) n) mn mx s s' ->
  head_in l s' = false -> s' = skip_class l s.
Proof.
  induction 1 as [mx s|mn mx s mid s' N P I IH]; intros E.
  - now rewrite skip_class_stop.
  - destruct P as (c & -> & C). simpl. rewrite C. now apply IH.
Qed.

Lemma iter_first (l : list atom) (n : nat) (mx : option nat) (s s' : string) :
  iter (spans (One l) n) 1 mx s s' -> head_in l s = true.
Proof.
  intros H. inversion H as [|mn0 mx0 s0 mid s0' N P I]; subst.
  now destruct (spans_One _ _ _ _ P).
Qed.

Lemma iter_option (P : string -> string -> Prop) (s s' : string) :
  iter P 0 (Some 1) s s' -> s' = s \/ P s s'.
Proof.
  intros H. inversion H as [|mn0 mx0 s0 mid s0' N P0 I]; subst; [now left|].
  right. simpl in I.
  inversion I as [|mn1 mx1 s1 mid1 s1' N1 P1 I1]; subst;
    [assumption | congruence].
Qed.

Lemma word_is_no_sign (c : ascii) :
  class_matches [Word] c = true -> class_matches [Ch "-"; Ch "+"] c = false.
Proof.
  destruct c as [[] [] [] [] [] [] [] []]; vm_compute; congruence.
Qed.

Lemma head_word_is_no_sign (s : string) :
  head_in [Word] s = true -> head_in [Ch "-"; Ch "+"] s = false.
Proof. destruct s; [discriminate|]. apply word_is_no_sign. Qed.

Lemma spans_width (r : regex) (n w : nat) (s s' : string) :
  width r = Some w -> spans r n s s' -> s' = drop w s.
Proof.
  destruct r as [|l| | |r1 r2|mn [mx|] r|i r]; try discriminate.
  - intros [= <-] (c & -> & _). reflexivity.
  - destruct r as [|l| | | | |]; try discriminate. simpl.
    destruct (Nat.eqb_spec mn mx) as [<-|]; [|discriminate].
    intros [= <-] H. exact (iter_exact l n _ _ _ H).
Qed.

Lemma spans_cat_fixed (r1 r2 : regex) (n w : nat) (s m : string) :
  width r1 = Some w -> spans (Cat r1 r2) n s m -> spans r2 n (drop w s) m.
Proof.
  intros Wd (mid & S1 & S2). now rewrite <- (spans_width _ _ _ _ _ Wd S1).
Qed.

Lemma class_Ch (x c : ascii) : class_matches [Ch x] c = true -> c = x.
Proof.
  unfold class_matches. simpl. rewrite orb_false_r. apply Ascii.eqb_eq.
Qed.

Lemma time_regex_end (n : nat) (s m : string) :
  spans time_regex n s m -> head_in [Word] m = false -> m = time_end s.
Proof.
  unfold time_regex, time_end. intros H E.
  do 11 (eapply spans_cat_fixed in H; [|reflexivity]).
  rewrite !drop_drop in H. simpl Nat.add in H.
  generalize dependent (drop 19 s). clear s. intros t H.
  cbn [spans] in H. destruct H as (t1 & F & t2 & (c & -> & C) & t3 & G & m' & I & ->).
  apply class_Ch in C. subst c.
  assert (A : (if HasPrefix t "." then skip_class [Digit] (drop 1 t) else t)
              = String " " t2).
  { apply iter_option in F.
    destruct F as [<-|(mid & (c & -> & C) & mid0 & D & Em)].
    - reflexivity.
    - apply class_Ch in C. subst c mid0. simpl.
      symmetry. exact (iter_munch [Digit] n _ _ _ _ D eq_refl). }
  rewrite A. simpl drop.
  apply iter_option in G. destruct G as [->|(c & -> & C)].
  - pose proof (iter_first [Word] n _ _ _ I) as Wd.
    rewrite (head_word_is_no_sign _ Wd).
    exact (iter_munch [Word] n _ _ _ _ I E).
  - change (head_in [Ch "-"; Ch "+"] (String c t3))
      with (class_matches [Ch "-"; Ch "+"] c).
    rewrite C. simpl drop.
    exact (iter_munch [Word] n _ _ _ _ I E).
Qed.

(** The grammars that detection tries all start with [^]: a match is a
    match from the first byte of the line. *)
Lemma anchored_spans (r : Regexp) (s : string) :
  anchored r = true -> MatchString r s = true ->
  exists s', spans (re r) (String.length s) s s'.
Proof.
  unfold anchored. destruct (re r) as [| | | |r1 r2| |] eqn:A; try discriminate.
  destruct r1; try discriminate. intros _ M.
  destruct (anchored_match r r2 s A M) as (s' & S1).
  exists s'. cbn [spans]. exists s. now split.
Qed.

(** A match of a grammar whose expression is the time stamp followed by
    [tail]: the time stamp ends at [time_end] when [tail] starts with a
    byte that is no word byte. *)
Lemma time_then (r : Regexp) (tail : regex) (s : string) :
  re r = Cat Bol (Cat (Group 1 time_regex) tail) ->
  MatchString r s = true ->
  exists m s', spans time_regex (String.length s) s m /\
               spans tail (String.length s) m s'.
Proof.
  intros A M. destruct (anchored_match r _ s A M) as (s' & m & S1 & S2).
  now exists m, s'.
Qed.

Lemma HasPrefix_cons (c : ascii) (s p : string) :
  HasPrefix (String c s) (String c p) = HasPrefix s p.
Proof. simpl. now rewrite Ascii.eqb_refl. Qed.

(** The process number in brackets after the time stamp. *)
Lemma bracket_pid (tail : regex) (s m s' : string) :
  spans time_regex (String.length s) s m ->
  spans (Cat (One [Ch " "]) (Cat (One [Ch "["])
           (Cat (Group 2 (Cat (Rep 1 None (One [Digit])) Empty)) tail)))
    (String.length s) m s' ->
  HasPrefix (time_end s) " [" = true /\
  exists y, spans tail (String.length s) y s' /\
            (head_in [Digit] y = false -> y = pid_end s).
Proof.
  intros T (m1 & (c1 & -> & C1) & m2 & (c2 & -> & C2) & y & (y' & D & ->) & S).
  apply class_Ch in C1, C2. subst c1 c2.
  rewrite <- (time_regex_end _ _ _ T eq_refl). split; [reflexivity|].
  exists y'. split; [exact S|]. intros E. unfold pid_end.
  rewrite <- (time_regex_end _ _ _ T eq_refl).
  exact (iter_munch [Digit] (String.length s) 1 None m2 y' D E).
Qed.

Lemma rds_sig (s : string) :
  MatchString LogPrefixAmazonRdsRegxp s = true ->
  HasPrefix (time_end s) ":" = true.
Proof.
  intros M.
  assert (A : re LogPrefixAmazonRdsRegxp
              = Cat Bol (Cat (Group 1 time_regex)
                  (Cat (One [Ch ":"]) (after 3 (re LogPrefixAmazonRdsRegxp)))))
    by (vm_compute; reflexivity).
  destruct (time_then _ _ s A M) as (m & s' & T & m1 & (c & -> & C) & _).
  apply class_Ch in C. subst c.
  now rewrite <- (time_regex_end _ _ _ T eq_refl).
Qed.

Lemma custom1_sig (s : string) :
  MatchString LogPrefixCustom1Regexp s = true ->
  HasPrefix (time_end s) " [" = true /\ HasPrefix (pid_end s) "][" = true.
Proof.
  intros M.
  assert (A : re LogPrefixCustom1Regexp
              = Cat Bol (Cat (Group 1 time_regex)
                  (Cat (One [Ch " "]) (Cat (One [Ch "["])
                     (Cat (Group 2 (Cat (Rep 1 None (One [Digit])) Empty))
                        (Cat (One [Ch "]"]) (Cat (One [Ch "["])
                           (after 7 (re LogPrefixCustom1Regexp)))))))))
    by (vm_compute; reflexivity).
  destruct (time_then _ _ s A M) as (m & s' & T & S).
  destruct (bracket_pid _ _ _ _ T S)
    as (P & y & (y1 & (c1 & -> & C1) & y2 & (c2 & -> & C2) & _) & E).
  apply class_Ch in C1, C2. subst c1 c2. split; [exact P|].
  now rewrite <- (E eq_refl).
Qed.

Lemma custom2_sig (s : string) :
  MatchString LogPrefixCustom2Regexp s = true ->
  HasPrefix (time_end s) " [" = true /\ HasPrefix (pid_end s) "-" = true.
Proof.
  intros M.
  assert (A : re LogPrefixCustom2Regexp
              = Cat Bol (Cat (Group 1 time_regex)
                  (Cat (One [Ch " "]) (Cat (One [Ch "["])
                     (Cat (Group 2 (Cat (Rep 1 None (One [Digit])) Empty))
                        (Cat (One [Ch "-"])
                           (after 6 (re LogPrefixCustom2Regexp))))))))
    by (vm_compute; reflexivity).
  destruct (time_then _ _ s A M) as (m & s' & T & S).
  destruct (bracket_pid _ _ _ _ T S)
    as (P & y & (y1 & (c1 & -> & C1) & _) & E).
  apply class_Ch in C1. subst c1. split; [exact P|].
  now rewrite <- (E eq_refl).
Qed.

Lemma custom4_sig (s : string) :
  MatchString LogPrefixCustom4Regexp s = true ->
  HasPrefix (time_end s) " [" = true /\ HasPrefix (pid_end s) "] " = true.
Proof.
  intros M.
  assert (A : re LogPrefixCustom4Regexp
              = Cat Bol (Cat (Group 1 time_regex)
                  (Cat (One [Ch " "]) (Cat (One [Ch "["])
                     (Cat (Group 2 (Cat (Rep 1 None (One [Digit])) Empty))
                        (Cat (One [Ch "]"]) (Cat (One [Ch " "])
                           (after 7 (re LogPrefixCustom4Regexp)))))))))
    by (vm_compute; reflexivity).
  destruct (time_then _ _ s A M) as (m & s' & T & S).
  destruct (bracket_pid _ _ _ _ T S)
    as (P & y & (y1 & (c1 & -> & C1) & y2 & (c2 & -> & C2) & _) & E).
  apply class_Ch in C1, C2. subst c1 c2. split; [exact P|].
  now rewrite <- (E eq_refl).
Qed.

Lemma HasPrefix_inv (c : ascii) (p s : string) :
  HasPrefix s (String c p) = true ->
  exists s', s = String c s' /\ HasPrefix s' p = true.
Proof.
  destruct s as [|d s]; [discriminate|]. cbn [HasPrefix]. intros H.
  apply andb_true_iff in H. destruct H as [E H].
  apply Ascii.eqb_eq in E. subst d. now exists s.
Qed.

(** A line that the grammar of [LogPrefixCustom4] matches is matched by
    none of the three grammars tried before it. *)
Lemma custom4_excludes (s : string) :
  MatchString LogPrefixCustom4Regexp s = true ->
  MatchString LogPrefixAmazonRdsRegxp s = false /\
  MatchString LogPrefixCustom1Regexp s = false /\
  MatchString LogPrefixCustom2Regexp s = false.
Proof.
  intros M. destruct (custom4_sig s M) as [T P].
  apply HasPrefix_inv in T. destruct T as (t1 & T & _).
  apply HasPrefix_inv in P. destruct P as (p1 & P & P').
  apply HasPrefix_inv in P'. destruct P' as (p2 & -> & _).
  repeat split.
  - destruct (MatchString LogPrefixAmazonRdsRegxp s) eqn:R; [|reflexivity].
    apply rds_sig, HasPrefix_inv in R. destruct R as (r1 & R & _).
    congruence.
  - destruct (MatchString LogPrefixCustom1Regexp s) eqn:R; [|reflexivity].
    apply custom1_sig in R. destruct R as [_ R].
    apply HasPrefix_inv in R. destruct R as (r1 & R & R').
    apply HasPrefix_inv in R'. destruct R' as (r2 & -> & _).
    congruence.
  - destruct (MatchString LogPrefixCustom2Regexp s) eqn:R; [|reflexivity].
    apply custom2_sig in R. destruct R as [_ R].
    apply HasPrefix_inv in R. destruct R as (r1 & R & _).
    congruence.
Qed.

(** Detection gives the first grammar of [detection_order] that matches,
    and tries the syslog wrapper when none does. *)
Lemma detect_first (line : string) :
  detect line =
  match find (fun g => MatchString (snd g) line) detection_order with
  | Some g => (fst g, false)
  | None => ("", MatchString RsyslogRegexp line)
  end.
Proof.
  unfold detect, detection_order. cbn [find snd fst].
  repeat match goal with
         | |- context [if MatchString ?r line then _ else _] =>
             destruct (MatchString r line); [reflexivity|]
         end.
  reflexivity.
Qed.

End Detection.

(** C5.  With no prefix given, detection takes the first grammar that
    matches in the order Amazon RDS, custom 1, custom 2, custom 4,
    custom 3, custom 5, custom 6, custom 7, simple, and tries the syslog
    wrapper when none of them matches.  All these expressions start with
    [^], so that a match is a match from the first byte of the line.  A
    line that both the grammar of custom format 3 and the grammar of
    custom format 4 match is classified as custom format 4: no grammar
    tried before custom 4 matches such a line. *)
Theorem detection_takes_first_match :
  map fst detection_order =
    [LogPrefixAmazonRds; LogPrefixCustom1; LogPrefixCustom2; LogPrefixCustom4;
     LogPrefixCustom3; LogPrefixCustom5; LogPrefixCustom6; LogPrefixCustom7;
     LogPrefixSimple] /\
  (forall line,
     detect line =
     match find (fun g => MatchString (snd g) line) detection_order with
     | Some g => (fst g, false)
     | None => ("", MatchString RsyslogRegexp line)
     end) /\
  (forall r line,
     In r (RsyslogRegexp :: map snd detection_order) ->
     MatchString r line = true ->
     exists rest, spans (re r) (String.length line) line rest) /\
  (forall line,
     MatchString LogPrefixCustom3Regexp line = true ->
     MatchString LogPrefixCustom4Regexp line = true ->
     detect line = (LogPrefixCustom4, false)).
Proof.
  split; [reflexivity|]. split; [exact Detection.detect_first|]. split.
  - intros r line I. apply Detection.anchored_spans.
    simpl in I.
    repeat (destruct I as [<-|I]; [vm_compute; reflexivity|]).
    contradiction.
  - intros line _ M.
    destruct (Detection.custom4_excludes line M) as (R & C1 & C2).
    unfold detect. now rewrite R, C1, C2, M.
Qed.

Lemma detection_takes_first_match_witness :
  detect Samples.with_host = (LogPrefixCustom4, false).
Proof.
  refine (proj2 (proj2 (proj2 detection_takes_first_match))
            Samples.with_host _ _).
  - vm_compute; reflexivity.
  - vm_compute; reflexivity.
Defined.

(** * Further properties of the engine *)

Section ScanRecords.

Context {W : World}.

Variable linesNewerThan : Time.

Lemma emitsb_spec (line : string) :
  emitsb linesNewerThan line = true <-> emitted_line linesNewerThan line.
Proof.
  unfold emitsb, emitted_line. rewrite andb_true_iff, negb_true_iff.
  reflexivity.
Qed.

Lemma map_UUID_stitch (l : list LogLine) (logLine : LogLine) :
  map UUID (stitch l logLine) = map UUID l /\
  List.length (stitch l logLine) = List.length l.
Proof.
  unfold stitch. destruct (_ && _)%bool; [|now split].
  induction l as [|x l [IH1 IH2]]; [now split|].
  destruct l as [|y l]; [now split|].
  change (update_last (extend (Content logLine)) (x :: y :: l))
    with (x :: update_last (extend (Content logLine)) (y :: l)).
  cbn [map List.length]. now rewrite IH1, IH2.
Qed.

(** The records and the identifiers after the iterations on [ls]. *)
Lemma run_records (ls : list string) (st : Scan) :
  let k := List.length (filter (emitsb linesNewerThan) ls) in
  List.length (logLines (run linesNewerThan ls st))
    = List.length (logLines st) + k /\
  map UUID (logLines (run linesNewerThan ls st))
    = (map UUID (logLines st) ++ fst (draws k (rand st)))%list /\
  rand (run linesNewerThan ls st) = snd (draws k (rand st)).
Proof.
  revert st. induction ls as [|l ls IH]; intros st.
  - simpl. rewrite Nat.add_0_r, app_nil_r. auto.
  - cbn [run fold_left filter].
    fold (run linesNewerThan ls (step linesNewerThan st l)).
    destruct (IH (step linesNewerThan st l)) as (L & U & R).
    destruct (step_cases linesNewerThan st l) as [[x E]|[[x [E B]]|E]].
    + assert (N : emitsb linesNewerThan l = false)
        by (unfold emitsb; now rewrite E).
      rewrite N. rewrite (step_failed _ _ _ _ E) in *. simpl in *.
      destruct (map_UUID_stitch (logLines st) x) as [U' L'].
      rewrite L, U, R, U', L'. auto.
    + assert (N : emitsb linesNewerThan l = false)
        by (unfold emitsb; rewrite E; simpl; now rewrite B).
      rewrite N. rewrite (step_old _ _ _ _ E B) in *. simpl in *. auto.
    + pose proof (proj2 (emitsb_spec l) E) as N. rewrite N.
      rewrite (step_emitted _ _ _ E) in *. unfold emit in *.
      cbn [List.length draws].
      destruct (NewV4 (rand st)) as [u r']. simpl in L, U, R.
      destruct (draws _ r') as [us r'']. simpl in *.
      rewrite L, U, R, length_app, map_app, <- app_assoc. simpl.
      repeat split; lia.
Qed.

End ScanRecords.

(** X1.  A scan emits one record for each complete line that parses as a
    new record and is not older than the cutoff, and no other: lines that
    are continuations, lines that are filtered out and the bytes after the
    last newline add no record and remove none. *)
Theorem one_record_per_emitted_line {W : World} (linesNewerThan : Time)
    (buffer : string) (init : Z) (rnd : Rand) :
  List.length (logLines (scan buffer init linesNewerThan rnd))
  = List.length (filter (emitsb linesNewerThan) (fst (lines buffer))).
Proof.
  destruct (scan_lines linesNewerThan buffer init rnd) as [-> _].
  now destruct (run_records linesNewerThan (fst (lines buffer))
                  (mkScan [] init rnd)) as (-> & _).
Qed.

(** X2.  The identifiers of the records of a scan are the identifiers that
    the generator gives, in the order of the records, one for each record:
    a line that is merged into a record or filtered out draws none, and the
    generator is left in the state after as many draws as there are
    records. *)
Theorem identifiers_are_drawn_per_record {W : World} (linesNewerThan : Time)
    (buffer : string) (init : Z) (rnd : Rand) :
  map UUID (logLines (scan buffer init linesNewerThan rnd))
  = fst (draws (List.length (logLines (scan buffer init linesNewerThan rnd))) rnd) /\
  rand (scan buffer init linesNewerThan rnd)
  = snd (draws (List.length (logLines (scan buffer init linesNewerThan rnd))) rnd).
Proof.
  destruct (scan_lines linesNewerThan buffer init rnd) as [-> ->].
  destruct (run_records linesNewerThan (fst (lines buffer))
              (mkScan [] init rnd)) as (-> & -> & ->).
  now split.
Qed.

Section ScanInvariant.

Context {W : World}.

Variable linesNewerThan : Time.

(** A property of records that holds of every new record and that a
    continuation keeps holds of every record of a scan. *)
Lemma run_Forall (P : LogLine -> Prop) :
  (forall c x, P x -> P (extend c x)) ->
  (forall line byteStart u,
     emitted_line linesNewerThan line ->
     let l := fst (ParseLogLineWithPrefix "" line) in
     P (mkLogLine (OccurredAt l) (Username l) (Database l) (Application l)
          (BackendPid l) (LogLevel l) (Content l) byteStart
          (add64 byteStart (int64 (len line - len (Content l))))
          (sub64 (add64 byteStart (int64 (len line))) 1) u)) ->
  forall ls st,
    Forall P (logLines st) -> Forall P (logLines (run linesNewerThan ls st)).
Proof.
  intros Hext Hnew. induction ls as [|l ls IH]; intros st F; [exact F|].
  simpl. apply IH.
  destruct (step_cases linesNewerThan st l) as [[x E]|[[x [E B]]|E]].
  - rewrite (step_failed _ _ _ _ E). simpl. unfold stitch.
    destruct (_ && _)%bool; [|exact F].
    apply Forall_update_last; [|exact F]. intros y. apply Hext.
  - now rewrite (step_old _ _ _ _ E B).
  - rewrite (step_emitted _ _ _ E). unfold emit.
    destruct (NewV4 (rand st)) as [u r']. simpl.
    apply Forall_app. split; [exact F|].
    constructor; [|constructor]. now apply Hnew.
Qed.

Lemma scan_Forall (P : LogLine -> Prop) :
  (forall c x, P x -> P (extend c x)) ->
  (forall line byteStart u,
     emitted_line linesNewerThan line ->
     let l := fst (ParseLogLineWithPrefix "" line) in
     P (mkLogLine (OccurredAt l) (Username l) (Database l) (Application l)
          (BackendPid l) (LogLevel l) (Content l) byteStart
          (add64 byteStart (int64 (len line - len (Content l))))
          (sub64 (add64 byteStart (int64 (len line))) 1) u)) ->
  forall buffer init rnd,
    Forall P (logLines (scan buffer init linesNewerThan rnd)).
Proof.
  intros Hext Hnew buffer init rnd.
  destruct (scan_lines linesNewerThan buffer init rnd) as [-> _].
  apply run_Forall; auto.
Qed.

End ScanInvariant.

Lemma int64_congr_add (a b c : Z) :
  int64 a = int64 b -> int64 (a + c) = int64 (b + c).
Proof.
  intros H. rewrite <- (int64_idem_add_l a), <- (int64_idem_add_l b).
  now rewrite H.
Qed.

(** X3.  In every record of a scan the content is accounted as the last
    bytes of the record's range: [ByteContentStart + len(Content)] and
    [ByteEnd + 1] are the same [int64], for a record of one line and after
    any number of continuation lines were merged into it. *)
Theorem content_ends_the_record {W : World} (linesNewerThan : Time)
    (buffer : string) (init : Z) (rnd : Rand) :
  Forall (fun r => int64 (ByteContentStart r + len (Content r))
                   = int64 (ByteEnd r + 1))
    (logLines (scan buffer init linesNewerThan rnd)).
Proof.
  apply scan_Forall.
  - intros c x H. unfold extend. simpl. rewrite len_append.
    unfold add64. rewrite int64_idem_add_r, int64_idem_add_l.
    replace (ByteContentStart x + (len (Content x) + len c))%Z
      with (ByteContentStart x + len (Content x) + len c)%Z by lia.
    rewrite (int64_congr_add _ _ (len c) H). f_equal. lia.
  - intros line bs u _ l. simpl. unfold add64, sub64.
    rewrite int64_idem_add_r, !int64_idem_add_l.
    replace (int64 (bs + int64 (len line)) - 1 + 1)%Z
      with (int64 (bs + int64 (len line))) by lia.
    rewrite int64_idem, int64_idem_add_r. f_equal. lia.
Qed.

(** ** The result of [ParseLogLineWithPrefix] *)

Lemma scrub_known (s : string) : scrub s <> "[unknown]".
Proof.
  unfold scrub. destruct (String.eqb_spec s "[unknown]"); [discriminate|assumption].
Qed.

Lemma FindStringSubmatch_no_match (r : Regexp) (s : string) :
  MatchString r s = false -> FindStringSubmatch r s = [].
Proof.
  unfold MatchString, FindStringSubmatch.
  now destruct (search r (String.length s) s).
Qed.

Lemma parse_names {W : World} (prefix line : string) :
  let r := fst (ParseLogLineWithPrefix prefix line) in
  Username r <> "[unknown]" /\ Database r <> "[unknown]" /\
  Application r <> "[unknown]".
Proof.
  unfold ParseLogLineWithPrefix.
  destruct (locals prefix line) as [v|] eqn:E;
    [|simpl; repeat split; discriminate].
  unfold finish.
  destruct (parse_time _ _ _) as [t|].
  - destruct (levelPart (parts_of v) =? ""); simpl;
      auto using scrub_known.
  - destruct (locals_logLine0 _ _ _ E) as [-> | ->]; simpl;
      repeat split; discriminate.
Qed.

(** X4.  The placeholder [[unknown]] that Postgres writes for a user, a
    database or an application that it does not know is never reported:
    no result of [ParseLogLineWithPrefix], with or without a prefix, and
    no record of a scan, has it as its user, database or application. *)
Theorem unknown_names_are_left_empty {W : World} :
  (forall prefix line,
     let r := fst (ParseLogLineWithPrefix prefix line) in
     Username r <> "[unknown]" /\ Database r <> "[unknown]" /\
     Application r <> "[unknown]") /\
  (forall linesNewerThan buffer init rnd,
     Forall (fun r => Username r <> "[unknown]" /\ Database r <> "[unknown]" /\
                      Application r <> "[unknown]")
       (logLines (scan buffer init linesNewerThan rnd))).
Proof.
  split; [exact parse_names|].
  intros c. apply scan_Forall.
  - intros x y H. exact H.
  - intros line bs u _ l. simpl. exact (parse_names "" line).
Qed.

(** X5.  A prefix that is not one of [SupportedPrefixes] never parses a
    line: the call answers [ok = false] for every line, there is no
    detection to fall back on, and unless the empty text parses as a time
    the result holds the whole line as its content and nothing else, as
    for a continuation line. *)
Theorem unsupported_prefix_never_parses {W : World} (prefix line : string) :
  IsSupportedPrefix prefix = false ->
  snd (ParseLogLineWithPrefix prefix line) = false /\
  (parse_time defaultTimeFormat defaultTimeFormatAlt "" = None ->
   ParseLogLineWithPrefix prefix line
   = (set_OccurredAt zeroTime (set_Content line zeroLogLine), false)).
Proof.
  unfold IsSupportedPrefix, SupportedPrefixes. cbn [existsb].
  intros H. repeat (apply orb_false_iff in H; destruct H as [?E H]).
  unfold ParseLogLineWithPrefix, LogPrefixEmpty in *.
  assert (X : locals prefix line
              = Some (mkLocals (set_Content line zeroLogLine)
                        defaultTimeFormat defaultTimeFormatAlt
                        (mkParts "" "" "" "" "" "" ""))).
  { unfold locals. rewrite E8. unfold extract.
    now rewrite E, E0, E1, E2, E3, E4, E5, E6, E7. }
  rewrite X. unfold finish. cbn [parts_of timePart timeFormat timeFormatAlt
                                 levelPart logLine0].
  split.
  - destruct (parse_time _ _ _); reflexivity.
  - now intros ->.
Qed.

Lemma unsupported_prefix_never_parses_witness :
  snd (ParseLogLineWithPrefix MoreSamples.other_prefix Samples.header) = false /\
  (parse_time defaultTimeFormat defaultTimeFormatAlt "" = None ->
   ParseLogLineWithPrefix MoreSamples.other_prefix Samples.header
   = (set_OccurredAt zeroTime (set_Content Samples.header zeroLogLine), false)).
Proof.
  refine (unsupported_prefix_never_parses (W := GoWorld.world)
            MoreSamples.other_prefix Samples.header _).
  reflexivity.
Defined.

(** X6.  A supported prefix given by the caller is the only grammar that
    is tried: when its regular expression does not match the line, the
    call returns the zero record and [ok = false], whatever the other
    grammars would make of the line, and the content of the line is not
    kept. *)
Theorem given_prefix_has_no_fallback {W : World} (prefix : string)
    (r : Regexp) (line : string) :
  In (prefix, r) detection_order ->
  MatchString r line = false ->
  ParseLogLineWithPrefix prefix line = (zeroLogLine, false).
Proof.
  intros I M. apply FindStringSubmatch_no_match in M.
  unfold ParseLogLineWithPrefix.
  assert (X : locals prefix line = None); [|now rewrite X].
  unfold detection_order in I.
  repeat (destruct I as [E|I];
          [injection E as <- <-;
           rewrite locals_hint by discriminate;
           unfold extract, grammar; rewrite M;
           cbv [LogPrefixAmazonRds LogPrefixCustom1 LogPrefixCustom2
                LogPrefixCustom3 LogPrefixCustom4 LogPrefixCustom5
                LogPrefixCustom6 LogPrefixCustom7 LogPrefixSimple
                String.eqb Ascii.eqb Bool.eqb];
           reflexivity|]).
  contradiction.
Qed.

Lemma given_prefix_has_no_fallback_witness :
  ParseLogLineWithPrefix LogPrefixCustom1 Samples.header = (zeroLogLine, false).
Proof.
  refine (given_prefix_has_no_fallback (W := GoWorld.world)
            LogPrefixCustom1 LogPrefixCustom1Regexp Samples.header _ _).
  - right. left. reflexivity.
  - vm_compute. reflexivity.
Defined.

(** ** The end of the buffer *)

Lemma lines_no_newline (s : string) :
  has_newline s = false -> lines s = ([], s).
Proof.
  induction s as [|c s IH]; [reflexivity|]. simpl.
  intros H. apply orb_false_iff in H. destruct H as [E H].
  now rewrite (IH H), E.
Qed.

(** X7.  The bytes after the last newline of a buffer are never parsed:
    whatever they are, also a whole record short of its newline, they add
    no record, change no record and draw no identifier, and they are
    counted in the offset that the scan returns, so that a caller that
    resumes from that offset does not see them again. *)
Theorem unterminated_tail_is_skipped {W : World} (linesNewerThan : Time)
    (b tail : string) (init : Z) (rnd : Rand) :
  line_boundary b -> has_newline tail = false ->
  logLines (scan (b ++ tail) init linesNewerThan rnd)
  = logLines (scan b init linesNewerThan rnd) /\
  rand (scan (b ++ tail) init linesNewerThan rnd)
  = rand (scan b init linesNewerThan rnd) /\
  currentByteStart (scan (b ++ tail) init linesNewerThan rnd)
  = add64 (currentByteStart (scan b init linesNewerThan rnd)) (len tail).
Proof.
  intros B T.
  destruct (scan_lines linesNewerThan (b ++ tail) init rnd) as [-> ->].
  destruct (scan_lines linesNewerThan b init rnd) as [-> ->].
  rewrite lines_app by now apply line_boundary_tail.
  rewrite (lines_no_newline tail T). simpl fst. rewrite app_nil_r.
  repeat split. rewrite !scan_offset, add64_add64. now rewrite len_append.
Qed.

Lemma unterminated_tail_is_skipped_witness :
  logLines (scan (Samples.header ++ MoreSamples.partial) 0 Samples.keep_all
              Samples.seed)
  = logLines (scan Samples.header 0 Samples.keep_all Samples.seed) /\
  rand (scan (Samples.header ++ MoreSamples.partial) 0 Samples.keep_all
          Samples.seed)
  = rand (scan Samples.header 0 Samples.keep_all Samples.seed) /\
  currentByteStart (scan (Samples.header ++ MoreSamples.partial) 0
                      Samples.keep_all Samples.seed)
  = add64 (currentByteStart (scan Samples.header 0 Samples.keep_all
                               Samples.seed))
      (len MoreSamples.partial).
Proof.
  refine (unterminated_tail_is_skipped (W := GoWorld.world) Samples.keep_all
            Samples.header MoreSamples.partial 0 Samples.seed _ _).
  - right. eexists. reflexivity.
  - reflexivity.
Defined.

(** ** The debug scan *)

Section DebugScan.

Context {W : World}.

Lemma update_last_nil (f : LogLine -> LogLine) (l : list LogLine) :
  update_last f l = [] <-> l = [].
Proof.
  destruct l as [|x [|y l]]; simpl; split; intros H;
    try reflexivity; discriminate.
Qed.

Lemma stitch_is_nil (l : list LogLine) (x : LogLine) :
  stitch l x = [] <-> l = [].
Proof.
  unfold stitch. destruct (_ && _)%bool; [apply update_last_nil|reflexivity].
Qed.

Lemma emit_not_nil (st : Scan) (bs : Z) (line : string) (x : LogLine) (next : Z) :
  logLines (emit st bs line x next) <> [].
Proof.
  unfold emit. destruct (NewV4 (rand st)). simpl.
  destruct (logLines st); discriminate.
Qed.

(** The three kinds of line of the debug scan. *)
Lemma debug_step_cases (st : Scan) (line : string) :
  (heroku_continuation line = true /\ debug_emits line = false /\
   (logLines st = [] -> debug_step st line = PanicIndexOutOfRange) /\
   (logLines st <> [] ->
    exists st', debug_step st line = Returns st' /\ logLines st' <> [])) \/
  (heroku_continuation line = false /\ debug_emits line = true /\
   exists st', debug_step st line = Returns st' /\ logLines st' <> []) \/
  (heroku_continuation line = false /\ debug_emits line = false /\
   exists st', debug_step st line = Returns st' /\
               (logLines st' = [] <-> logLines st = [])).
Proof.
  unfold heroku_continuation, debug_emits, debug_step.
  destruct (Nat.eqb _ 7).
  - assert (K : forall c,
               (logLines st = [] ->
                match logLines st with
                | [] => PanicIndexOutOfRange
                | _ :: _ =>
                    Returns (mkScan (update_last (extend c) (logLines st))
                               (add64 (currentByteStart st) (int64 (len line)))
                               (rand st))
                end = PanicIndexOutOfRange) /\
               (logLines st <> [] ->
                exists st',
                  match logLines st with
                  | [] => PanicIndexOutOfRange
                  | _ :: _ =>
                      Returns (mkScan (update_last (extend c) (logLines st))
                                 (add64 (currentByteStart st) (int64 (len line)))
                                 (rand st))
                  end = Returns st' /\ logLines st' <> [])).
    { intros c. split; [now intros ->|]. intros N.
      destruct (logLines st) as [|x l] eqn:E; [now elim N|].
      eexists. split; [reflexivity|]. cbn [logLines].
      intros H. now apply update_last_nil in H. }
    destruct (part _ 4 =? ""), (part _ 5 =? ""); simpl.
    + left. split; [reflexivity|]. split; [reflexivity|]. apply K.
    + left. split; [reflexivity|]. split; [reflexivity|]. apply K.
    + left. split; [reflexivity|]. split; [reflexivity|]. apply K.
    + right. left. split; [reflexivity|]. split; [reflexivity|].
      eexists. split; [reflexivity|]. apply emit_not_nil.
  - destruct (ParseLogLineWithPrefix "" line) as [inner [|]]; simpl.
    + right. left. split; [reflexivity|]. split; [reflexivity|].
      eexists. split; [reflexivity|]. apply emit_not_nil.
    + right. right. split; [reflexivity|]. split; [reflexivity|].
      eexists. split; [reflexivity|]. simpl. apply stitch_is_nil.
Qed.

Lemma debug_loop_nonempty (ls : list string) (st : Scan) :
  logLines st <> [] ->
  exists st', debug_loop ls st = Returns st' /\ logLines st' <> [].
Proof.
  revert st. induction ls as [|l ls IH]; intros st N; [now exists st|].
  simpl.
  destruct (debug_step_cases st l)
    as [(_ & _ & _ & H)|[(_ & _ & H)|(_ & _ & H)]].
  - destruct (H N) as (st' & -> & N'). now apply IH.
  - destruct H as (st' & -> & N'). now apply IH.
  - destruct H as (st' & -> & N'). apply IH. intros E. now apply N' in E.
Qed.

Lemma debug_loop_panics (ls : list string) (st : Scan) :
  logLines st = [] ->
  debug_loop ls st = PanicIndexOutOfRange <->
  exists pre line post,
    ls = (pre ++ line :: post)%list /\
    forallb (fun l => negb (debug_emits l)) pre = true /\
    heroku_continuation line = true.
Proof.
  revert st. induction ls as [|l ls IH]; intros st E.
  - simpl. split; [discriminate|].
    intros (pre & line & post & H & _). now destruct pre.
  - simpl.
    destruct (debug_step_cases st l)
      as [(C & D & H & _)|[(C & D & H)|(C & D & H)]].
    + rewrite (H E). split; [intros _|reflexivity].
      now exists [], l, ls.
    + destruct H as (st' & -> & N').
      destruct (debug_loop_nonempty ls st' N') as (st'' & -> & _).
      split; [discriminate|].
      intros (pre & line & post & H & F & K).
      destruct pre as [|x pre]; simpl in H; injection H as <- _.
      * congruence.
      * simpl in F. rewrite D in F. discriminate.
    + destruct H as (st' & -> & N'). rewrite (IH st' (proj2 N' E)).
      split; intros (pre & line & post & H & F & K).
      * exists (l :: pre), line, post. subst ls. simpl. rewrite D. auto.
      * destruct pre as [|x pre]; simpl in H; injection H as <- H.
        -- congruence.
        -- exists pre, line, post. simpl in F. rewrite D in F. auto.
Qed.

Lemma anonymous_extend (c : string) (x : LogLine) :
  anonymous x -> anonymous (extend c x).
Proof. intros H. exact H. Qed.

Lemma debug_step_anonymous (st : Scan) (line : string) :
  Forall anonymous (logLines st) ->
  Forall anonymous (records_of (debug_step st line)).
Proof.
  assert (Z0 : forall c v, anonymous (set_LogLevel v (set_Content c zeroLogLine)))
    by (intros; repeat split).
  intros F. unfold debug_step.
  destruct (Nat.eqb _ 7).
  - destruct (_ && _)%bool.
    + unfold emit. destruct (NewV4 (rand st)). simpl.
      apply Forall_app. split; [exact F|]. repeat constructor.
    + destruct (logLines st) as [|x l] eqn:E; [constructor|].
      cbn [records_of logLines].
      apply Forall_update_last; [apply anonymous_extend|exact F].
  - destruct (ParseLogLineWithPrefix "" line) as [inner [|]]; simpl.
    + unfold emit. destruct (NewV4 (rand st)). simpl.
      apply Forall_app. split; [exact F|]. repeat constructor.
    + unfold stitch. destruct (_ && _)%bool; [|exact F].
      apply Forall_update_last; [apply anonymous_extend|exact F].
Qed.

Lemma debug_loop_anonymous (ls : list string) (st : Scan) :
  Forall anonymous (logLines st) ->
  Forall anonymous (records_of (debug_loop ls st)).
Proof.
  revert st. induction ls as [|l ls IH]; intros st F; [exact F|].
  simpl. pose proof (debug_step_anonymous st l F) as H.
  destruct (debug_step st l) as [st'|]; [|constructor].
  now apply IH.
Qed.

End DebugScan.

(** X8.  [DebugParseAndAnalyzeBuffer] panics with an index out of range
    exactly when, among the complete lines of the buffer, a line in the
    Heroku envelope that lacks the SQLSTATE or the level comes before every
    line that adds a record.  Once one record is there, no line makes it
    panic. *)
Theorem debug_scan_panics_exactly_on_leading_continuation {W : World}
    (S : Type) (Analyze : list LogLine -> list LogLine * list S)
    (buffer : string) (rnd : Rand) :
  DebugParseAndAnalyzeBuffer S Analyze buffer rnd = PanicIndexOutOfRange <->
  exists pre line post,
    fst (lines buffer) = (pre ++ line :: post)%list /\
    forallb (fun l => negb (debug_emits l)) pre = true /\
    heroku_continuation line = true.
Proof.
  unfold DebugParseAndAnalyzeBuffer.
  destruct (lines buffer) as [ls tail]. simpl fst.
  rewrite <- (debug_loop_panics ls (mkScan [] 0 rnd) eq_refl).
  destruct (debug_loop ls (mkScan [] 0 rnd)) as [st|]; [|tauto].
  destruct (Analyze (logLines st)). split; discriminate.
Qed.

(** X9.  No record of the debug scan carries a time, a user, a database,
    an application or a backend pid: the records of the Heroku branch get a
    content and a level only, and the result of [ParseLogLineWithPrefix]
    in the other branch is bound to a variable of the inner block, so that
    the record appended for such a line is the zero value with its offsets
    and its identifier. *)
Theorem debug_scan_records_are_anonymous {W : World} (buffer : string)
    (rnd : Rand) :
  Forall anonymous
    (records_of (debug_loop (fst (lines buffer)) (mkScan [] 0 rnd))) /\
  (forall st line,
     List.length (FindStringSubmatch HerokuPostgresDebugRegexp line) <> 7 ->
     snd (ParseLogLineWithPrefix "" line) = true ->
     exists r,
       records_of (debug_step st line) = (logLines st ++ [r])%list /\
       anonymous r /\ Content r = "" /\ LogLevel r = 0%Z /\
       ByteStart r = currentByteStart st /\
       ByteContentStart r = add64 (currentByteStart st) (len line) /\
       ByteEnd r = sub64 (add64 (currentByteStart st) (len line)) 1).
Proof.
  split; [apply debug_loop_anonymous; constructor|].
  intros st line N K. unfold debug_step.
  apply Nat.eqb_neq in N. rewrite N.
  destruct (ParseLogLineWithPrefix "" line) as [inner ok]. simpl in K.
  subst ok. simpl. unfold emit. destruct (NewV4 (rand st)) as [u r'].
  eexists. split; [reflexivity|]. simpl.
  rewrite !add64_int64_r. change (len "") with 0%Z. rewrite Z.sub_0_r.
  repeat split.
Qed.

(** ** The submatches are parts of the text *)

Module Submatches.

Lemma length_take (k : nat) (s : string) : String.length (take k s) <= k.
Proof.
  revert s. induction k as [|k IH]; intros [|c s]; simpl; try lia.
  specialize (IH s). lia.
Qed.

Lemma length_consumed (s s' : string) :
  String.length (consumed s s') <= String.length s.
Proof.
  unfold consumed. pose proof (length_take (String.length s - String.length s') s).
  lia.
Qed.

Lemma bounded_set_nth (N i : nat) (v : string) (caps : list string) :
  String.length v <= N -> bounded N caps -> bounded N (set_nth i v caps).
Proof.
  intros V B. revert i. induction B as [|x l X B IH]; intros [|i]; simpl;
    try constructor; auto.
  apply IH.
Qed.

Lemma rep_loop_keeps_bound (N : nat)
    (body : string -> list string -> cont -> option (list string)) (k : cont) :
  keeps_bound N body ->
  forall fuel mn mx s caps res,
    String.length s <= N -> bounded N caps ->
    rep_loop body k fuel mn mx s caps = Some res ->
    exists s' caps',
      String.length s' <= String.length s /\ bounded N caps' /\
      k s' caps' = Some res.
Proof.
  intros B. induction fuel as [|fuel IH]; intros mn mx s caps res Ls Bc H;
    [discriminate|].
  cbn [rep_loop] in H.
  set (k' := fun (s' : string) (caps' : list string) =>
               if (Nat.eqb mn 0 && Nat.eqb (String.length s') (String.length s))%bool
               then None
               else rep_loop body k fuel (pred mn) (option_map pred mx) s' caps')
    in H.
  assert (More : forall res',
             body s caps k' = Some res' ->
             exists s' caps',
               String.length s' <= String.length s /\ bounded N caps' /\
               k s' caps' = Some res').
  { intros res' E. destruct (B _ _ _ _ Ls Bc E) as (mid & caps1 & Lm & B1 & K).
    unfold k' in K. destruct (_ && _)%bool; [discriminate|].
    assert (Lm' : String.length mid <= N) by lia.
    destruct (IH _ _ _ _ _ Lm' B1 K) as (s' & caps' & L & B' & K').
    exists s', caps'. split; [lia|now split]. }
  assert (Stop : (if Nat.eqb mn 0 then k s caps else None) = Some res ->
                 exists s' caps',
                   String.length s' <= String.length s /\ bounded N caps' /\
                   k s' caps' = Some res).
  { destruct (Nat.eqb mn 0); [|discriminate].
    intros K. exists s, caps. auto. }
  destruct mx as [[|m]|].
  - now apply Stop.
  - destruct (body s caps k') as [res'|] eqn:E; [|now apply Stop].
    injection H as <-. now apply More.
  - destruct (body s caps k') as [res'|] eqn:E; [|now apply Stop].
    injection H as <-. now apply More.
Qed.

Lemma exec_keeps_bound (N : nat) (r : regex) (n : nat) :
  keeps_bound N (exec r n).
Proof.
  induction r as [|l| | |r1 IH1 r2 IH2|mn mx r IH|i r IH];
    intros s caps k res Ls Bc H; cbn [exec] in *.
  - now exists s, caps.
  - destruct s as [|c s]; [discriminate|].
    destruct (class_matches l c); [|discriminate].
    exists s, caps. simpl. auto.
  - destruct (Nat.eqb _ n); [|discriminate]. now exists s, caps.
  - destruct s; [|discriminate]. now exists "", caps.
  - destruct (IH1 _ _ _ _ Ls Bc H) as (mid & caps1 & L1 & B1 & K1).
    assert (Lm : String.length mid <= N) by lia.
    destruct (IH2 _ _ _ _ Lm B1 K1) as (s' & caps' & L2 & B2 & K2).
    exists s', caps'. split; [lia|now split].
  - now apply (rep_loop_keeps_bound N _ k IH) in H.
  - destruct (IH _ _ _ _ Ls Bc H) as (s' & caps' & L1 & B1 & K1).
    exists s', (set_nth i (consumed s s') caps').
    split; [exact L1|]. split; [|exact K1].
    apply bounded_set_nth; [|exact B1].
    pose proof (length_consumed s s'). lia.
Qed.

Lemma bounded_repeat (N k : nat) : bounded N (repeat "" k).
Proof. induction k; simpl; constructor; simpl; auto. lia. Qed.

Lemma search_bounded (r : Regexp) (n N : nat) (s : string) (caps : list string) :
  String.length s <= N -> search r n s = Some caps -> bounded N caps.
Proof.
  assert (X : forall s res,
            String.length s <= N ->
            exec (re r) n s (repeat "" (S (ngroups r)))
              (fun s' caps' => Some (set_nth 0 (consumed s s') caps'))
            = Some res -> bounded N res).
  { intros s0 res L E.
    destruct (exec_keeps_bound N _ _ _ _ _ _ L (bounded_repeat N _) E)
      as (s' & caps' & _ & B & K).
    injection K as <-.
    apply (bounded_set_nth N 0 (consumed s0 s') caps'); [|exact B].
    pose proof (length_consumed s0 s'). lia. }
  induction s as [|c s IH]; cbn [search]; intros L.
  - destruct (exec (re r) n "" _ _) as [res|] eqn:E; [|discriminate].
    intros H. injection H as <-. now apply X in E.
  - destruct (exec (re r) n (String c s) _ _) as [res|] eqn:E.
    + intros H. injection H as <-. now apply X in E.
    + apply IH. simpl in L. lia.
Qed.

(** No submatch is longer than the text. *)
Lemma length_part (r : Regexp) (s : string) (i : nat) :
  String.length (part (FindStringSubmatch r s) i) <= String.length s.
Proof.
  unfold FindStringSubmatch, part.
  destruct (search r (String.length s) s) as [caps|] eqn:E.
  - apply (search_bounded _ _ (String.length s)) in E; [|lia].
    unfold bounded in E. rewrite Forall_forall in E.
    destruct (Nat.lt_ge_cases i (List.length caps)) as [I|I].
    + apply E. now apply nth_In.
    + rewrite nth_overflow by assumption. simpl. lia.
  - destruct i; simpl; lia.
Qed.

Lemma HasPrefix_length (s p : string) :
  HasPrefix s p = true -> String.length p <= String.length s.
Proof.
  revert s. induction p as [|a p IH]; intros s; [simpl; lia|].
  destruct s as [|b s]; [discriminate|]. cbn [HasPrefix].
  intros H. apply andb_true_iff in H. destruct H as [_ H].
  apply IH in H. simpl. lia.
Qed.

(** Replacing by a text that is not longer does not make the text longer. *)
Lemma length_replace_from (skip : nat) (old new s : string) :
  String.length new <= String.length old ->
  String.length (replace_from skip old new s) + Nat.min skip (String.length s)
  <= String.length s.
Proof.
  intros L. revert skip. induction s as [|c s IH]; intros skip.
  - simpl. lia.
  - destruct skip as [|k].
    + cbn [replace_from]. destruct (HasPrefix (String c s) old) eqn:P.
      * apply HasPrefix_length in P. rewrite length_append.
        specialize (IH (String.length old - 1)). simpl in *. lia.
      * specialize (IH 0). simpl in *. lia.
    + cbn [replace_from]. specialize (IH k). simpl. lia.
Qed.

Lemma length_Replace_tab (s : string) :
  String.length (Replace s "#011" (String tab "")) <= String.length s.
Proof.
  unfold Replace.
  pose proof (length_replace_from 0 "#011" (String tab "") s) as H.
  simpl in H. lia.
Qed.

End Submatches.

(** ** The content of a result is no longer than the line *)

Lemma extract_content_bound {W : World} (prefix : string) (rsyslog : bool)
    (line : string) (v : Locals) :
  extract prefix rsyslog line = Some v ->
  String.length (contentPart (parts_of v)) <= String.length line.
Proof.
  unfold extract. destruct rsyslog.
  - unfold extract_rsyslog. destruct (Nat.eqb _ 0); [discriminate|].
    intros H. injection H as <-. cbn [parts_of].
    pose proof (Submatches.length_part RsyslogRegexp line 7) as P7.
    pose proof (Submatches.length_Replace_tab
                  (part (FindStringSubmatch RsyslogRegexp line) 7)) as R.
    destruct (Nat.eqb _ 6); cbn [contentPart]; [|lia].
    pose proof (Submatches.length_part LogPrefixNoTimestampUserDatabaseAppRegexp
                  (Replace (part (FindStringSubmatch RsyslogRegexp line) 7)
                     "#011" (String tab "")) 5).
    lia.
  - unfold grammar.
    repeat match goal with
           | |- (if ?b then _ else _) = _ -> _ => destruct b
           end;
      try discriminate;
      intros H; injection H as <-; cbn [parts_of contentPart];
      try apply Submatches.length_part.
    simpl. lia.
Qed.

Lemma length_Content {W : World} (prefix line : string) :
  String.length (Content (fst (ParseLogLineWithPrefix prefix line)))
  <= String.length line.
Proof.
  unfold ParseLogLineWithPrefix.
  destruct (locals prefix line) as [v|] eqn:E; [|simpl; lia].
  assert (B : String.length (contentPart (parts_of v)) <= String.length line).
  { unfold locals in E.
    destruct (if prefix =? "" then detect line else (prefix, false)) as [p rs].
    now apply extract_content_bound in E. }
  unfold finish. destruct (parse_time _ _ _) as [t|].
  - now destruct (levelPart (parts_of v) =? "").
  - destruct (locals_logLine0 _ _ _ E) as [-> | ->]; simpl; lia.
Qed.

(** ** The byte ranges of the records *)

Section ByteRanges.

Context {W : World}.

Variable linesNewerThan : Time.

Lemma MinInt64_neg : (MinInt64 < 0)%Z.
Proof. reflexivity. Qed.

Lemma packed_le (lo hi : Z) (l : list LogLine) : packed lo l hi -> (lo <= hi)%Z.
Proof.
  revert lo. induction l as [|r l IH]; intros lo; simpl; [auto|].
  intros [(A & B & C) P]. apply IH in P. lia.
Qed.

Lemma packed_mono (lo hi hi' : Z) (l : list LogLine) :
  packed lo l hi -> (hi <= hi')%Z -> packed lo l hi'.
Proof.
  revert lo. induction l as [|r l IH]; intros lo; simpl; [lia|].
  intros [A P] H. split; [exact A|]. now apply IH.
Qed.

Lemma packed_snoc (lo hi hi' : Z) (l : list LogLine) (r : LogLine) :
  packed lo l hi ->
  (hi <= ByteStart r)%Z -> (ByteStart r <= ByteContentStart r)%Z ->
  (ByteContentStart r <= ByteEnd r + 1)%Z -> (ByteEnd r + 1 <= hi')%Z ->
  packed lo (l ++ [r]) hi'.
Proof.
  revert lo. induction l as [|x l IH]; intros lo; simpl.
  - intros. repeat split; lia.
  - intros [A P] H1 H2 H3 H4. split; [exact A|]. now apply IH.
Qed.

(** A continuation of [c] bytes, read in a line that has at least as many,
    keeps the ranges apart. *)
Lemma packed_extend (lo hi d : Z) (l : list LogLine) (c : string) :
  (0 <= lo)%Z -> (len c <= d)%Z -> (hi + d <= MaxInt64)%Z ->
  packed lo l hi ->
  packed lo (update_last (extend c) l) (hi + d).
Proof.
  intros L C H. pose proof (len_nonneg c) as N. pose proof MinInt64_neg as M.
  revert lo L. induction l as [|x l IH]; intros lo L; [simpl; lia|].
  destruct l as [|y l].
  - simpl. intros [(A1 & A2 & A3) P].
    assert (E : add64 (ByteEnd x) (int64 (len c)) = (ByteEnd x + len c)%Z).
    { rewrite add64_int64_r. apply int64_small. unfold is_int64. lia. }
    rewrite E. repeat split; lia.
  - change (update_last (extend c) (x :: y :: l))
      with (x :: update_last (extend c) (y :: l)).
    cbn [packed]. intros [(A1 & A2 & A3) P]. split; [auto|].
    apply IH; [lia | exact P].
Qed.

Lemma run_packed (ls : list string) (st : Scan) (lo : Z) :
  (0 <= lo)%Z ->
  (currentByteStart st + total_len ls <= MaxInt64)%Z ->
  packed lo (logLines st) (currentByteStart st) ->
  packed lo (logLines (run linesNewerThan ls st))
    (currentByteStart st + total_len ls) /\
  currentByteStart (run linesNewerThan ls st)
  = (currentByteStart st + total_len ls)%Z.
Proof.
  pose proof MinInt64_neg as M.
  revert st. induction ls as [|l ls IH]; intros st L H P.
  - simpl. rewrite Z.add_0_r. auto.
  - cbn [total_len] in *. pose proof (len_nonneg l) as Nl.
    assert (Nt : (0 <= total_len ls)%Z).
    { clear. induction ls as [|x ls IH]; simpl; [lia|].
      pose proof (len_nonneg x). lia. }
    pose proof (packed_le _ _ _ P) as Lo.
    assert (O : currentByteStart (step linesNewerThan st l)
                = (currentByteStart st + len l)%Z).
    { rewrite step_offset. apply int64_small. unfold is_int64. lia. }
    assert (S1 : packed lo (logLines (step linesNewerThan st l))
                   (currentByteStart st + len l)).
    { pose proof (length_Content "" l) as B.
      destruct (step_cases linesNewerThan st l) as [[x E]|[[x [E Bf]]|E]].
      - rewrite (step_failed _ _ _ _ E). cbn [logLines]. rewrite E in B.
        cbn [fst] in B. unfold stitch.
        destruct (_ && _)%bool; [|now apply packed_mono with (currentByteStart st); [|lia]].
        assert (Bz : (len (Content x) <= len l)%Z) by (unfold len; lia).
        apply packed_extend; auto; lia.
      - rewrite (step_old _ _ _ _ E Bf). cbn [logLines].
        apply packed_mono with (currentByteStart st); [exact P|lia].
      - rewrite (step_emitted _ _ _ E). unfold emit.
        destruct (NewV4 (rand st)) as [u r']. cbn [logLines].
        set (C := Content (fst (ParseLogLineWithPrefix "" l))) in *.
        assert (Bz : (0 <= len C <= len l)%Z) by (unfold len; lia).
        apply packed_snoc with (currentByteStart st); auto; cbn
          [ByteStart ByteContentStart ByteEnd]; unfold add64, sub64;
          rewrite ?int64_idem_add_r, ?int64_idem_add_l.
        + lia.
        + rewrite int64_small by (unfold is_int64; lia). lia.
        + rewrite (int64_small (currentByteStart st + (len l - len C)))
            by (unfold is_int64; lia).
          rewrite (int64_small (currentByteStart st + len l))
            by (unfold is_int64; lia).
          rewrite int64_small by (unfold is_int64; lia). lia.
        + rewrite (int64_small (currentByteStart st + len l))
            by (unfold is_int64; lia).
          rewrite int64_small by (unfold is_int64; lia). lia. }
    change (run linesNewerThan (l :: ls) st)
      with (run linesNewerThan ls (step linesNewerThan st l)).
    destruct (IH (step linesNewerThan st l) L) as [P' O'].
    + rewrite O. lia.
    + now rewrite O.
    + rewrite O in P', O'. rewrite O'. split; [|lia].
      now replace (currentByteStart st + (len l + total_len ls))%Z
        with (currentByteStart st + len l + total_len ls)%Z by lia.
Qed.

End ByteRanges.

(** X10.  When the offsets do not leave the range of [int64], the byte
    ranges [[ByteStart, ByteEnd]] of the records of a scan follow each other
    in the order of the records without overlapping, also after
    continuations were merged; they lie between the initial offset and the
    returned one, and in each record [ByteContentStart] is inside the
    range or just after its end. *)
Theorem records_do_not_overlap {W : World} (linesNewerThan : Time)
    (buffer : string) (init : Z) (rnd : Rand) :
  (0 <= init)%Z -> (init + len buffer <= MaxInt64)%Z ->
  packed init (logLines (scan buffer init linesNewerThan rnd))
    (currentByteStart (scan buffer init linesNewerThan rnd)).
Proof.
  intros L H. pose proof MinInt64_neg as M.
  pose proof (len_nonneg buffer) as Nb.
  rewrite scan_offset. unfold add64.
  rewrite int64_small by (unfold is_int64; lia).
  destruct (scan_lines linesNewerThan buffer init rnd) as [-> _].
  pose proof (total_len_lines buffer) as T.
  pose proof (len_nonneg (snd (lines buffer))) as Nt.
  destruct (run_packed linesNewerThan (fst (lines buffer))
              (mkScan [] init rnd) init L) as [P _].
  - simpl. lia.
  - simpl. lia.
  - simpl in P. apply packed_mono with (init + total_len (fst (lines buffer)))%Z;
      [exact P|lia].
Qed.

Lemma records_do_not_overlap_witness :
  packed 0
    (logLines (scan (Samples.header ++ Samples.body1 ++ Samples.later) 0
                 Samples.keep_all Samples.seed))
    (currentByteStart (scan (Samples.header ++ Samples.body1 ++ Samples.later) 0
                         Samples.keep_all Samples.seed)).
Proof.
  refine (records_do_not_overlap (W := GoWorld.world) Samples.keep_all
            (Samples.header ++ Samples.body1 ++ Samples.later) 0 Samples.seed
            _ _).
  - lia.
  - vm_compute. discriminate.
Defined.

(** ** The content is the end of the line *)

Module ContentTail.

Lemma drop_length (s : string) : drop (String.length s) s = "".
Proof. induction s; simpl; auto. Qed.

Lemma drop_beyond (j : nat) (s : string) :
  String.length s <= j -> drop j s = "".
Proof.
  revert s. induction j as [|j IH]; intros [|c s]; simpl; try reflexivity;
    try lia.
  intros H. apply IH. lia.
Qed.

Lemma take_all (s : string) : take (String.length s) s = s.
Proof. induction s; simpl; congruence. Qed.

Lemma iter_suffix (P : string -> string -> Prop) :
  (forall s s', P s s' -> exists j, s' = drop j s) ->
  forall mn mx s s', iter P mn mx s s' -> exists j, s' = drop j s.
Proof.
  intros HP mn mx s s' I. induction I as [mx s|mn mx s mid s' N Pm I IH].
  - now exists 0; destruct s.
  - destruct (HP _ _ Pm) as [a ->]. destruct IH as [b ->].
    exists (a + b). apply Detection.drop_drop.
Qed.

Lemma spans_suffix (r : regex) (n : nat) (s s' : string) :
  spans r n s s' -> exists j, s' = drop j s.
Proof.
  revert s s'.
  induction r as [|l| | |r1 IH1 r2 IH2|mn mx r IH|i r IH]; intros s s';
    cbn [spans].
  - intros ->. now exists 0; destruct s.
  - intros (c & -> & _). now exists 1; destruct s'.
  - intros [-> _]. now exists 0; destruct s.
  - intros [-> _]. now exists 0; destruct s.
  - intros (mid & S1 & S2).
    destruct (IH1 _ _ S1) as [a ->]. destruct (IH2 _ _ S2) as [b ->].
    exists (a + b). apply Detection.drop_drop.
  - apply iter_suffix. exact IH.
  - apply IH.
Qed.

Lemma nth_set_nth (i : nat) (v : string) (l : list string) :
  i < List.length l -> nth i (set_nth i v l) "" = v.
Proof.
  revert i. induction l as [|x l IH]; intros [|i]; simpl; try lia; auto.
  intros H. apply IH. lia.
Qed.

Lemma nth_set_nth_other (i j : nat) (v : string) (l : list string) :
  i <> j -> nth i (set_nth j v l) "" = nth i l "".
Proof.
  revert i j. induction l as [|x l IH]; intros [|i] [|j]; simpl; auto;
    try congruence.
Qed.

(** In an expression that ends with the group [g] and [$], the group is the
    rest of the text from where it starts. *)
Lemma exec_tail (r : regex) (g n : nat) (s s0 : string)
    (caps res : list string) :
  ends_with_group g r = true -> g <> 0 -> g < List.length caps ->
  exec r n s caps (fun s' caps' => Some (set_nth 0 (consumed s0 s') caps'))
  = Some res ->
  exists j, nth g res "" = drop j s.
Proof.
  revert s caps.
  induction r as [|l| | |r1 _ r2 IH2|mn mx r _|i r _]; intros s caps E G L H;
    try discriminate.
  assert (Tail : ends_with_group g r2 = true -> exists j, nth g res "" = drop j s).
  { intros E2. cbn [exec] in H.
    destruct (RegexpFacts.exec_sound _ _ _ _ _ _ H) as (mid & c1 & S1 & L1 & K).
    destruct (spans_suffix _ _ _ _ S1) as [a ->].
    assert (L' : g < List.length c1) by lia.
    destruct (IH2 _ _ E2 G L' K) as [b ->].
    exists (a + b). apply Detection.drop_drop. }
  cbn [ends_with_group] in E.
  destruct r1 as [|l| | |a b|mn mx a|i a]; try (now apply Tail).
  destruct r2 as [|l| | |b c|mn mx b|j b]; try (now apply Tail).
  destruct b as [|l| | |b1 b2|mn mx b|j b]; try (now apply Tail).
  destruct c as [|l| | |c1 c2|mn mx c|j c]; try (now apply Tail).
  apply Nat.eqb_eq in E. subst i. cbn [exec] in H.
  destruct (RegexpFacts.exec_sound _ _ _ _ _ _ H) as (s1 & c1 & S1 & L1 & K).
  destruct s1; [|discriminate].
  assert (R : res = set_nth 0 (consumed s0 "") (set_nth g (consumed s "") c1))
    by exact (eq_sym (f_equal (fun o => match o with
                                        | Some x => x
                                        | None => res
                                        end) K)).
  subst res.
  exists 0. rewrite nth_set_nth_other by exact G.
  rewrite nth_set_nth by lia. unfold consumed. simpl String.length.
  rewrite Nat.sub_0_r, take_all. now destruct s.
Qed.

Lemma search_tail (r : Regexp) (g n : nat) (s : string) (caps : list string) :
  ends_with_group g (re r) = true -> g <> 0 -> g <= ngroups r ->
  search r n s = Some caps ->
  exists j, nth g caps "" = drop j s.
Proof.
  intros E G L. induction s as [|c s IH]; cbn [search].
  - destruct (exec (re r) n "" _ _) as [res|] eqn:X; [|discriminate].
    intros H. injection H as <-. apply (exec_tail (re r) g) in X; auto.
    rewrite repeat_length. lia.
  - destruct (exec (re r) n (String c s) _ _) as [res|] eqn:X.
    + intros H. injection H as <-. apply (exec_tail (re r) g) in X; auto.
      rewrite repeat_length. lia.
    + intros H. destruct (IH H) as [j ->]. now exists (S j).
Qed.

Lemma part_tail (r : Regexp) (g : nat) (s : string) :
  ends_with_group g (re r) = true -> g <> 0 -> g <= ngroups r ->
  exists j, part (FindStringSubmatch r s) g = drop j s.
Proof.
  intros E G L. unfold FindStringSubmatch, part.
  destruct (search r (String.length s) s) as [caps|] eqn:X.
  - now apply (search_tail r g) in X.
  - exists (String.length s). rewrite drop_length. now destruct g.
Qed.

Lemma tail_by_length (j : nat) (c s : string) :
  c = drop j s -> c = drop (String.length s - String.length c) s.
Proof.
  intros ->. destruct (Nat.le_gt_cases j (String.length s)) as [H|H].
  - rewrite RegexpFacts.length_drop. f_equal. lia.
  - rewrite (drop_beyond j s) by lia. simpl. rewrite Nat.sub_0_r.
    now rewrite drop_length.
Qed.

End ContentTail.

Lemma extract_content_tail {W : World} (prefix line : string) (v : Locals) :
  extract prefix false line = Some v ->
  exists j, contentPart (parts_of v) = drop j line.
Proof.
  unfold extract, grammar.
  repeat match goal with
         | |- (if ?b then _ else _) = _ -> _ => destruct b
         end;
    try discriminate;
    intros H; injection H as <-; cbn [parts_of contentPart];
    try (apply ContentTail.part_tail;
         [vm_compute; reflexivity | discriminate | vm_compute; lia]).
  exists (String.length line). now rewrite ContentTail.drop_length.
Qed.

(** X11.  Apart from the syslog wrapper, the content of a result is the end
    of the line: the bytes of the line from the position
    [len(line) - len(Content)], up to and with the newline.  This is what
    lets [ByteContentStart], which the scan sets to
    [byteStart + len(line) - len(Content)], point at the content in the
    file. *)
Theorem content_is_the_end_of_the_line {W : World} (prefix line : string) :
  (prefix = "" -> snd (detect line) = false) ->
  Content (fst (ParseLogLineWithPrefix prefix line))
  = drop (String.length line
          - String.length (Content (fst (ParseLogLineWithPrefix prefix line))))
      line.
Proof.
  intros D.
  assert (X : exists j, Content (fst (ParseLogLineWithPrefix prefix line))
                        = drop j line);
    [|destruct X as [j X]; now apply ContentTail.tail_by_length with j].
  unfold ParseLogLineWithPrefix.
  destruct (locals prefix line) as [v|] eqn:E.
  - assert (T : exists j, contentPart (parts_of v) = drop j line).
    { unfold locals in E. destruct (String.eqb_spec prefix "") as [P|P].
      - specialize (D P). destruct (detect line) as [p rs]. simpl in D.
        subst rs. now apply extract_content_tail in E.
      - now apply extract_content_tail in E. }
    unfold finish. destruct (parse_time _ _ _) as [t|].
    + now destruct (levelPart (parts_of v) =? "").
    + destruct (locals_logLine0 _ _ _ E) as [-> | ->]; simpl.
      * exists (String.length line). now rewrite ContentTail.drop_length.
      * exists 0. now destruct line.
  - exists (String.length line). now rewrite ContentTail.drop_length.
Qed.

Lemma content_is_the_end_of_the_line_witness :
  Content (fst (ParseLogLineWithPrefix "" Samples.later))
  = drop (String.length Samples.later
          - String.length (Content (fst (ParseLogLineWithPrefix "" Samples.later))))
      Samples.later.
Proof.
  refine (content_is_the_end_of_the_line (W := GoWorld.world) "" Samples.later _).
  intros _. vm_compute. reflexivity.
Defined.

(** ** The matcher finds the matches *)

Module Completeness.

Lemma suffix_length (j : nat) (s : string) :
  String.length (drop j s) <= String.length s.
Proof. rewrite RegexpFacts.length_drop. lia. Qed.

Lemma bound_le_pred (mx mx0 : option nat) :
  bound_le mx mx0 ->
  bound_le (option_map pred mx) mx0 /\
  bound_le (option_map pred mx) (option_map pred mx0).
Proof. destruct mx0, mx; simpl; auto; lia. Qed.

Lemma rep_loop_complete (P : string -> string -> Prop)
    (body : string -> list string -> cont -> option (list string)) (k : cont) :
  complete P body ->
  (forall s s', P s s' -> exists j, s' = drop j s) ->
  forall mn mx s s',
    iter P mn mx s s' ->
    forall fuel mx0 caps,
      bound_le mx mx0 -> mn + String.length s < fuel ->
      (forall caps', k s' caps' <> None) ->
      rep_loop body k fuel mn mx0 s caps <> None.
Proof.
  intros C Suf mn mx s s' I.
  induction I as [mx s|mn mx s mid s' N Pm I IH]; intros fuel mx0 caps B F K.
  - destruct fuel as [|fuel]; [lia|]. cbn [rep_loop].
    destruct (match mx0 with Some 0 => None | _ => _ end); [discriminate|].
    apply K.
  - destruct fuel as [|fuel]; [lia|].
    destruct (Suf _ _ Pm) as [j Ej].
    pose proof (suffix_length j s) as Lj. rewrite <- Ej in Lj.
    destruct (Nat.eqb mn 0 && Nat.eqb (String.length mid) (String.length s))%bool
      eqn:Z.
    + apply andb_true_iff in Z. destruct Z as [Z1 Z2].
      apply Nat.eqb_eq in Z1, Z2. subst mn.
      assert (Em : mid = s)
        by (rewrite Ej; apply RegexpFacts.drop_all; congruence).
      clear Ej. subst mid. change (pred 0) with 0 in IH.
      apply IH; [|simpl; lia|exact K].
      now apply bound_le_pred.
    + assert (N0 : mx0 <> Some 0).
      { intros ->. destruct mx as [a|]; simpl in B; [|exact B].
        apply N. f_equal. lia. }
      assert (M : body s caps
                    (fun s1 c1 =>
                       if (Nat.eqb mn 0
                           && Nat.eqb (String.length s1) (String.length s))%bool
                       then None
                       else rep_loop body k fuel (pred mn) (option_map pred mx0)
                              s1 c1) <> None).
      { apply (C s mid); [exact Pm|]. intros c1. rewrite Z.
        apply IH; [| |exact K].
        - now apply bound_le_pred.
        - apply andb_false_iff in Z. destruct Z as [Z|Z].
          + apply Nat.eqb_neq in Z. lia.
          + apply Nat.eqb_neq in Z. lia. }
      cbn [rep_loop].
      destruct mx0 as [[|b]|]; [congruence| |];
        match goal with
        | |- match ?x with _ => _ end <> None =>
            destruct x; [discriminate | congruence]
        end.
Qed.

Lemma exec_complete (r : regex) (n : nat) : complete (spans r n) (exec r n).
Proof.
  induction r as [|l| | |r1 IH1 r2 IH2|mn mx r IH|i r IH];
    intros s s' caps k S1 K; cbn [exec spans] in *.
  - subst s'. apply K.
  - destruct S1 as (c & -> & ->). apply K.
  - destruct S1 as [-> <-]. rewrite Nat.eqb_refl. apply K.
  - destruct S1 as [-> ->]. apply K.
  - destruct S1 as (mid & S1 & S2).
    apply (IH1 s mid); [exact S1|]. intros c1. now apply (IH2 mid s').
  - apply (rep_loop_complete _ _ k IH (ContentTail.spans_suffix r n))
      with (mx := mx) (s' := s'); auto.
    destruct mx as [a|]; simpl; auto.
  - apply (IH s s'); [exact S1|]. intros c1. apply K.
Qed.

(** A match from the first byte makes [MatchString] answer [true]. *)
Lemma MatchString_complete (r : Regexp) (s s' : string) :
  spans (re r) (String.length s) s s' -> MatchString r s = true.
Proof.
  intros S1. unfold MatchString.
  assert (X : exec (re r) (String.length s) s (repeat "" (S (ngroups r)))
                (fun s' caps' => Some (set_nth 0 (consumed s s') caps'))
              <> None)
    by (apply (exec_complete _ _ s s'); [exact S1|discriminate]).
  destruct s; cbn [search];
    match goal with
    | |- match match ?x with _ => _ end with _ => _ end = true =>
        destruct x; [reflexivity | congruence]
    end.
Qed.

Lemma iter_ext (P Q : string -> string -> Prop) :
  (forall s s', P s s' -> Q s s') ->
  forall mn mx s s', iter P mn mx s s' -> iter Q mn mx s s'.
Proof.
  intros H mn mx s s' I. induction I; [constructor|].
  eapply iter_more; eauto.
Qed.

(** The numbers of the groups play no part in what an expression matches. *)
Lemma spans_strip (r : regex) (n : nat) (s s' : string) :
  spans (strip r) n s s' <-> spans r n s s'.
Proof.
  revert s s'.
  induction r as [|l| | |r1 IH1 r2 IH2|mn mx r IH|i r IH]; intros s s';
    cbn [strip spans]; try reflexivity.
  - split; intros (mid & A & B); exists mid; split;
      try (now apply IH1); now apply IH2.
  - split; apply iter_ext; intros a b; apply IH.
  - apply IH.
Qed.

(** An item that may match nothing can be passed over. *)
Lemma spans_without_optional (k : nat) (r : regex) (n : nat) (s s' : string) :
  spans (without_optional k r) n s s' -> spans r n s s'.
Proof.
  revert k s. induction r as [|l| | |r1 _ r2 IH2|mn mx r _|i r _];
    intros k s; try (destruct k; exact (fun H => H)).
  destruct k as [|k].
  - destruct r1 as [|l| | |a b|[|mn] mx a|i a]; try exact (fun H => H).
    cbn [without_optional spans]. intros H. exists s. split; [constructor|exact H].
  - destruct r1 as [|l| | |a b|[|mn] mx a|i a]; cbn [without_optional spans];
      intros (mid & A & B); exists mid; (split; [exact A|now apply (IH2 k)]).
Qed.

Lemma anchored_spans_of_match (r : Regexp) (s : string) :
  anchored r = true -> MatchString r s = true ->
  exists s', spans (re r) (String.length s) s s'.
Proof.
  unfold anchored. destruct (re r) as [|l| | |r1 r2|mn mx a|i a] eqn:E;
    try discriminate.
  destruct r1; try discriminate. intros _ M.
  destruct (RegexpFacts.anchored_match r r2 s E M) as [s' S1].
  exists s'. cbn [spans]. exists s. auto.
Qed.

Lemma simple_is_custom4 (line : string) :
  MatchString LogPrefixSimpleRegexp line = true ->
  MatchString LogPrefixCustom4Regexp line = true.
Proof.
  intros M.
  assert (A : anchored LogPrefixSimpleRegexp = true) by (vm_compute; reflexivity).
  destruct (anchored_spans_of_match _ _ A M) as [s' S1].
  apply (MatchString_complete _ line s').
  apply (spans_without_optional 7), spans_strip.
  apply spans_strip in S1.
  replace (strip (without_optional 7 (re LogPrefixCustom4Regexp)))
    with (strip (re LogPrefixSimpleRegexp)) by (vm_compute; reflexivity).
  exact S1.
Qed.

End Completeness.

(** X12.  Detection never selects [LogPrefixSimple]: every line that
    [LogPrefixSimpleRegexp] matches is matched by [LogPrefixCustom4Regexp],
    whose bracketed part is optional and which is tried before it.  The
    [LogPrefixSimple] case of the [switch] is reached only with a prefix
    given by the caller. *)
Theorem simple_prefix_is_never_detected :
  (forall line,
     MatchString LogPrefixSimpleRegexp line = true ->
     MatchString LogPrefixCustom4Regexp line = true) /\
  (forall line, fst (detect line) <> LogPrefixSimple).
Proof.
  split; [exact Completeness.simple_is_custom4|].
  intros line. unfold detect.
  pose proof (Completeness.simple_is_custom4 line) as S.
  destruct (MatchString LogPrefixAmazonRdsRegxp line); [discriminate|].
  destruct (MatchString LogPrefixCustom1Regexp line); [discriminate|].
  destruct (MatchString LogPrefixCustom2Regexp line); [discriminate|].
  destruct (MatchString LogPrefixCustom4Regexp line); [discriminate|].
  destruct (MatchString LogPrefixCustom3Regexp line); [discriminate|].
  destruct (MatchString LogPrefixCustom5Regexp line); [discriminate|].
  destruct (MatchString LogPrefixCustom6Regexp line); [discriminate|].
  destruct (MatchString LogPrefixCustom7Regexp line); [discriminate|].
  destruct (MatchString LogPrefixSimpleRegexp line);
    [now specialize (S eq_refl)|].
  destruct (MatchString RsyslogRegexp line); discriminate.
Qed.

(** * The collection runs *)

(** One step of the run of a program: the answer of the environment to the
    next call, or the value of the next test. *)
Ltac run_step h :=
  cbn [perform bind returned trace fst snd];
  match goal with
  | |- context [h ?c ?s] =>
      let x := fresh "x" in
      let s' := fresh "s" in
      destruct (h c s) as [x s']; cbn in x;
      repeat match type of x with
             | (_ * _)%type => let y := fresh "y" in destruct x as [y x]
             | option _ => destruct x as [x|]
             end
  | |- context [if ?b then _ else _] => destruct b eqn:?
  end.

Module ActivityFacts.

Import Activity ActivityTrace.

Section Run.

Context {P : Packages}.

Variable S : Type.
Variable h : forall c : call, S -> answer c * S.

(** The runs of [processActivityForServer], path by path. *)
Lemma activity_paths (server : Server) (opts : CollectionOpts) (logger : Logger) (s0 : S) :
  let r := perform h (processActivityForServer server opts logger) s0 in
  exists prev rest,
    trace r = existT answer (Read_ActivityPrevState server) prev :: rest /\
    (* the result *)
    ((snd (fst (returned r)) = true /\ snd (returned r) = None /\
      exists g a,
        flat_map submitted (trace r) = [(g, a)] /\
        fst (fst (returned r)) = set_ActivitySnapshotAt (CollectedAt a) prev /\
        In (existT answer Now (CollectedAt a)) (trace r) /\
        (ForceEmptyGrant opts = true -> g = zeroGrant) /\
        (ForceEmptyGrant opts = false ->
         flat_map granted (trace r) = [(g, None)])) \/
     (snd (fst (returned r)) = false /\ fst (fst (returned r)) = prev /\
      flat_map submitted (trace r) = [])) /\
    (* the connection *)
    flat_map closed (trace r) = flat_map opened (trace r) /\
    (forall c, In c (flat_map opened (trace r)) ->
               flat_map opened (trace r) = [c] /\
               exists pre x, trace r = (pre ++ [existT answer (Close c) x])%list) /\
    (* the grant *)
    (ForceEmptyGrant opts = true -> flat_map granted (trace r) = []) /\
    (forall g, flat_map granted (trace r) = [(g, None)] ->
               EnableActivity g = false ->
               returned r = (prev, false, None) /\ never connects (trace r)) /\
    (forall g e, flat_map granted (trace r) = [(g, Some e)] ->
                 returned r
                 = (prev, false,
                    Some (errors_Wrap e
                            "could not get default grant for activity snapshot")) /\
                 never connects (trace r)) /\
    (* the version *)
    (forall v, flat_map versions (trace r) = [(v, None)] ->
               (Numeric v < MinRequiredPostgresVersion)%Z ->
               returned r
               = (prev, false,
                  Some (fmt_Errorf
                          "Error: Your PostgreSQL server version (%s) is too old, 9.2 or newer is required"
                          (Short v))) /\
               never samples (trace r)).
Proof.
  unfold processActivityForServer, connect, collect.
  repeat run_step h;
    cbn [perform bind returned trace fst snd];
    eexists; eexists; (split; [reflexivity|]);
    cbn [flat_map submitted opened closed granted versions app fst snd projT1];
    unfold never; cbn [forallb projT1 connects samples negb andb];
    (split; [|split; [|split; [|split; [|split; [|split]]]]]).
  (* the result *)
  all: try solve
    [ right; repeat split; reflexivity
    | left; (split; [reflexivity|]); (split; [reflexivity|]);
      eexists; eexists; (split; [reflexivity|]); (split; [reflexivity|]);
      split; [cbn [In CollectedAt]; tauto|];
      split; intros E; first [reflexivity | rewrite E in *; discriminate] ].
  (* the connection *)
  all: try reflexivity.
  all: try solve
    [ intros c I; cbn [In] in I; destruct I as [<-|[]];
      split; [reflexivity|];
      match goal with
      | |- exists pre x, ?tr = _ =>
          exists (removelast tr); cbn [removelast]; eexists; reflexivity
      end
    | intros c [] ].
  (* the grant *)
  all: try solve [ intros E; first [reflexivity | rewrite E in *; discriminate] ].
  all: try solve
    [ intros g E; try discriminate E; injection E as <-; intros F;
      first [ split; reflexivity | rewrite F in *; discriminate ] ].
  all: try solve
    [ intros g e E; try discriminate E; injection E as <- <-; split; reflexivity ].
  (* the version *)
  all: try solve
    [ intros v E; try discriminate E; injection E as <-; intros L;
      first [ split; reflexivity
            | apply Z.ltb_lt in L; congruence ] ].
Qed.

End Run.

End ActivityFacts.

Section ActivityRun.

Import Activity ActivityTrace.

Context {P : Packages}.

Variable S : Type.
Variable h : forall c : call, S -> answer c * S.
Variable s0 : S.
Variable server : Server.
Variable globalCollectionOpts : CollectionOpts.
Variable logger : Logger.

Local Abbreviation r :=
  (perform h (processActivityForServer server globalCollectionOpts logger) s0).

(** X13.  Whatever the calls answer, [processActivityForServer] returns
    the state it read from [server.ActivityPrevState] at its start, unless
    it reports success; it reports success only with a nil error and after
    exactly one snapshot was submitted and accepted, and then the state
    differs from the one read by [ActivitySnapshotAt], set to the
    [CollectedAt] of that snapshot, which is the time [time.Now] gave. *)
Theorem activity_state_moves_only_with_a_snapshot :
  exists prev rest,
    trace r = existT answer (Read_ActivityPrevState server) prev :: rest /\
    ((success (returned r) = true /\ err (returned r) = None /\
      exists g a,
        flat_map submitted (trace r) = [(g, a)] /\
        newState (returned r) = set_ActivitySnapshotAt (CollectedAt a) prev /\
        In (existT answer Now (CollectedAt a)) (trace r)) \/
     (success (returned r) = false /\ newState (returned r) = prev /\
      flat_map submitted (trace r) = [])).
Proof.
  destruct (ActivityFacts.activity_paths S h server globalCollectionOpts logger s0)
    as (prev & rest & T & R & _).
  exists prev, rest. split; [exact T|].
  unfold success, err, newState.
  destruct R as [(A & B & g & a & C & D & E & _)|R]; [left|right; exact R].
  split; [exact A|]. split; [exact B|]. exists g, a. auto.
Qed.

(** X14.  On every path the connections closed are the connections
    opened: when [EstablishConnection] fails, or is not reached, nothing is
    closed, and a connection that was opened is the only one and is closed
    by the last call of the function, whatever [return] is taken. *)
Theorem activity_connection_is_closed :
  flat_map closed (trace r) = flat_map opened (trace r) /\
  (forall c,
     In c (flat_map opened (trace r)) ->
     flat_map opened (trace r) = [c] /\
     exists pre x, trace r = (pre ++ [existT answer (Close c) x])%list).
Proof.
  destruct (ActivityFacts.activity_paths S h server globalCollectionOpts logger s0)
    as (prev & rest & _ & _ & C & L & _).
  split; assumption.
Qed.

(** X15.  When the grant that [GetDefaultGrant] returns has activity
    snapshots disabled, the function returns no error and no success and
    does not try to connect to the database. *)
Theorem disabled_activity_opens_no_connection (g : Grant) :
  flat_map granted (trace r) = [(g, None)] ->
  EnableActivity g = false ->
  success (returned r) = false /\ err (returned r) = None /\
  never connects (trace r).
Proof.
  destruct (ActivityFacts.activity_paths S h server globalCollectionOpts logger s0)
    as (prev & rest & _ & _ & _ & _ & _ & D & _).
  intros G E. destruct (D g G E) as [-> N]. now repeat split.
Qed.

(** X16.  With [ForceEmptyGrant] no grant is fetched, and a snapshot that
    is submitted is submitted with the zero grant. *)
Theorem forced_empty_grant_fetches_no_grant :
  ForceEmptyGrant globalCollectionOpts = true ->
  flat_map granted (trace r) = [] /\
  (forall g a, In (g, a) (flat_map submitted (trace r)) -> g = zeroGrant).
Proof.
  destruct (ActivityFacts.activity_paths S h server globalCollectionOpts logger s0)
    as (prev & rest & _ & R & _ & _ & F & _).
  intros E. split; [now apply F|].
  intros g a I.
  destruct R as [(_ & _ & g' & a' & C & _ & _ & Z & _)|(_ & _ & C)];
    rewrite C in I; [|contradiction].
  destruct I as [I|[]]. injection I as <- <-. now apply Z.
Qed.

(** X17.  When the server answers with a version below
    [MinRequiredPostgresVersion], the function returns the too-old error
    with that version's short name and no success, takes no sample and
    submits nothing; the connection is closed all the same. *)
Theorem old_server_is_not_sampled (v : PostgresVersion) :
  flat_map versions (trace r) = [(v, None)] ->
  (Numeric v < MinRequiredPostgresVersion)%Z ->
  success (returned r) = false /\
  err (returned r)
  = Some (fmt_Errorf
            "Error: Your PostgreSQL server version (%s) is too old, 9.2 or newer is required"
            (Short v)) /\
  never samples (trace r) /\
  flat_map closed (trace r) = flat_map opened (trace r).
Proof.
  destruct (ActivityFacts.activity_paths S h server globalCollectionOpts logger s0)
    as (prev & rest & _ & _ & C & _ & _ & _ & _ & V).
  intros E L. destruct (V v E L) as [-> N]. now repeat split.
Qed.

End ActivityRun.

Lemma disabled_activity_opens_no_connection_witness :
  ActivityTrace.never ActivityTrace.connects
    (trace (perform (ActivitySample.answers 90600 false)
              (Activity.processActivityForServer 0 (false, false) tt) tt)).
Proof.
  refine (proj2 (proj2 (disabled_activity_opens_no_connection unit
                          (ActivitySample.answers 90600 false) tt 0
                          (false, false) tt false _ _))); reflexivity.
Defined.

Lemma forced_empty_grant_fetches_no_grant_witness :
  flat_map ActivityTrace.granted
    (trace (perform (ActivitySample.answers 90600 true)
              (Activity.processActivityForServer 0 (true, false) tt) tt))
  = [].
Proof.
  refine (proj1 (forced_empty_grant_fetches_no_grant unit
                   (ActivitySample.answers 90600 true) tt 0
                   (true, false) tt _)); reflexivity.
Defined.

Lemma old_server_is_not_sampled_witness :
  ActivityTrace.never ActivityTrace.samples
    (trace (perform (ActivitySample.answers 90100 true)
              (Activity.processActivityForServer 0 (false, false) tt) tt)).
Proof.
  refine (proj1 (proj2 (proj2 (old_server_is_not_sampled unit
                                 (ActivitySample.answers 90100 true) tt 0
                                 (false, false) tt 90100%Z _ _))));
    reflexivity.
Defined.

Module FullFacts.

Import Full FullTrace.

Section Run.

Context {P : Packages}.

Variable S : Type.
Variable h : forall c : call, S -> answer c * S.

Ltac known :=
  repeat match goal with
         | H : _ = true |- _ => rewrite H
         | H : _ = false |- _ => rewrite H
         end.

(** The runs of [CollectFull], path by path. *)
Lemma full_paths (server : Server) (opts : CollectionOpts) (logger : Logger) (s0 : S) :
  let r := perform h (CollectFull server opts logger) s0 in
  let names := map (fun e => name (projT1 e)) (trace r) in
  (* the state *)
  fst (returned r) = fold_left record (trace r) zeroState /\
  (* the calls *)
  match snd (returned r) with
  | None => names = plan opts /\ flat_map failure (trace r) = []
  | Some e =>
      (exists pre rest,
         names = (pre ++ ["logger.PrintError"])%list /\
         plan opts = (pre ++ rest)%list /\
         flat_map failure (trace r) = [e]) \/
      (names = ["postgres.GetPostgresVersion"; "postgres.CurrentDatabaseOid"] /\
       flat_map failure (trace r) = [] /\
       exists v,
         flat_map versions (trace r) = [(v, None)] /\
         (Numeric v < MinRequiredPostgresVersion)%Z)
  end /\
  (* the version *)
  (forall v,
     flat_map versions (trace r) = [(v, None)] ->
     flat_map failure (trace r) = [] ->
     (Numeric v < MinRequiredPostgresVersion)%Z ->
     returned r
     = (zeroState,
        Some (fmt_Errorf
                "Error: Your PostgreSQL server version (%s) is too old, 9.2 or newer is required."
                (Short v))) /\
     names = ["postgres.GetPostgresVersion"; "postgres.CurrentDatabaseOid"]) /\
  (* the logs *)
  (forall config logs inputs,
     In (config, logs, inputs) (flat_map logged (trace r)) ->
     CollectLogs opts = true /\ config = Config server /\
     snd (returned r) = None /\ Logs (fst (returned r)) = logs /\
     flat_map logged (trace r) = [(config, logs, inputs)]) /\
  (forall db inputs explains,
     In (db, inputs, explains) (flat_map explained (trace r)) ->
     CollectLogs opts = true /\ CollectExplain opts = true /\
     db = Connection server /\
     Explains (fst (returned r)) = explains /\
     exists logs,
       flat_map logged (trace r) = [(Config server, logs, inputs)]) /\
  (* the arguments *)
  Forall (eq (Connection server))
    (flat_map (fun e => connection_used (projT1 e)) (trace r)) /\
  Forall (fun v => flat_map versions (trace r) = [(v, None)])
    (flat_map (fun e => version_used (projT1 e)) (trace r)).
Proof.
  unfold CollectFull, collect_always, collect_relations, collect_settings,
    collect_functions, collect_system_and_logs, fail.
  repeat run_step h;
    cbn [perform bind returned trace fst snd];
    cbn [map flat_map fold_left name record failure error_in versions logged
         explained connection_used version_used app fst snd projT1];
    (split; [|split; [|split; [|split; [|split; [|split]]]]]).
  (* the state *)
  all: try reflexivity.
  (* the calls *)
  all: try solve
    [ split; [unfold plan; known; reflexivity | reflexivity]
    | match goal with
      | |- (exists pre rest, ?names = _ /\ _) \/ _ =>
          left; exists (removelast names); eexists;
          split; [reflexivity|]; split; [|reflexivity];
          unfold plan; known; reflexivity
      end
    | right; split; [reflexivity|]; split; [reflexivity|]; eexists;
      split; [reflexivity|]; now apply Z.ltb_lt ].
  (* the version *)
  all: try solve
    [ intros v E F L; try discriminate E; try discriminate F;
      injection E as <-;
      first [ split; reflexivity | apply Z.ltb_lt in L; congruence ] ].
  (* the logs *)
  all: try solve
    [ intros config logs inputs I; cbn [In] in I; destruct I as [I|[]];
      injection I as <- <- <-; repeat split; assumption ].
  all: try solve [ intros config logs inputs [] ].
  all: try solve
    [ intros db inputs explains I; cbn [In] in I; destruct I as [I|[]];
      injection I as <- <- <-; repeat split; try assumption;
      eexists; reflexivity ].
  all: try solve [ intros db inputs explains [] ].
  (* the arguments *)
  all: try solve [ repeat constructor ].
Qed.

End Run.

End FullFacts.

Section FullRun.

Import Full FullTrace.

Context {P : Packages}.

Variable S : Type.
Variable h : forall c : call, S -> answer c * S.
Variable s0 : S.
Variable server : Server.
Variable collectionOpts : CollectionOpts.
Variable logger : Logger.

Local Abbreviation r :=
  (perform h (CollectFull server collectionOpts logger) s0).

(** X18.  The state that [CollectFull] returns holds, field by field, what
    the calls it made have answered, and the zero value for a collection
    that was not made.  This is so on the paths that return an error too:
    the collections made before the failure are in the state, and so is
    what the failing call returned with its error. *)
Theorem full_state_is_what_the_calls_answered :
  fst (returned r) = fold_left record (trace r) zeroState.
Proof.
  exact (proj1 (FullFacts.full_paths S h server collectionOpts logger s0)).
Qed.


(** X20.  When the server answers with a version below
    [MinRequiredPostgresVersion] and the OID of the database is read
    without error, [CollectFull] returns the zero state and the too-old
    error with the version's short name; it has called
    [GetPostgresVersion] and [CurrentDatabaseOid] and nothing else. *)
Theorem old_server_is_not_collected (v : PostgresVersion) :
  flat_map versions (trace r) = [(v, None)] ->
  flat_map failure (trace r) = [] ->
  (Numeric v < MinRequiredPostgresVersion)%Z ->
  returned r
  = (zeroState,
     Some (fmt_Errorf
             "Error: Your PostgreSQL server version (%s) is too old, 9.2 or newer is required."
             (Short v))) /\
  map (fun e => name (projT1 e)) (trace r)
  = ["postgres.GetPostgresVersion"; "postgres.CurrentDatabaseOid"].
Proof.
  destruct (FullFacts.full_paths S h server collectionOpts logger s0)
    as (_ & _ & V & _).
  exact (V v).
Qed.

(** X21.  The logs are read once, and only after the collections from
    Postgres: when [GetLogLines] has been called, [CollectLogs] is set, the
    call was made with the configuration of the server, no call of the run
    has failed, the function returns a nil error and the state has the log
    files that the call answered. *)
Theorem logs_are_read_when_all_else_succeeded (config : ServerConfig)
    (logs : LogFiles) (inputs : PostgresExplainInputs) :
  In (config, logs, inputs) (flat_map logged (trace r)) ->
  CollectLogs collectionOpts = true /\ config = Config server /\
  snd (returned r) = None /\ flat_map failure (trace r) = [] /\
  Logs (fst (returned r)) = logs /\
  flat_map logged (trace r) = [(config, logs, inputs)].
Proof.
  destruct (FullFacts.full_paths S h server collectionOpts logger s0)
    as (_ & C & _ & L & _).
  intros I. destruct (L _ _ _ I) as (A & B & N & D & E).
  rewrite N in C. destruct C as [_ F]. auto 10.
Qed.

(** X22.  [RunExplain] is called only when both [CollectLogs] and
    [CollectExplain] are set, on the connection of the server and with the
    explain inputs that [GetLogLines] answered in this run; what it answers
    is the [Explains] of the state returned. *)
Theorem explain_runs_on_the_inputs_of_the_logs (db : DB)
    (inputs : PostgresExplainInputs) (explains : PostgresExplains) :
  In (db, inputs, explains) (flat_map explained (trace r)) ->
  CollectLogs collectionOpts = true /\ CollectExplain collectionOpts = true /\
  db = Connection server /\
  Explains (fst (returned r)) = explains /\
  exists logs, flat_map logged (trace r) = [(Config server, logs, inputs)].
Proof.
  destruct (FullFacts.full_paths S h server collectionOpts logger s0)
    as (_ & _ & _ & _ & E & _).
  exact (E db inputs explains).
Qed.

(** X23.  Every call that takes a connection is given [server.Connection],
    and every collector that takes a version is given the version that
    [GetPostgresVersion] answered, without error, in this run. *)
Theorem collectors_use_the_connection_and_the_version :
  Forall (eq (Connection server))
    (flat_map (fun e => connection_used (projT1 e)) (trace r)) /\
  Forall (fun v => flat_map versions (trace r) = [(v, None)])
    (flat_map (fun e => version_used (projT1 e)) (trace r)).
Proof.
  destruct (FullFacts.full_paths S h server collectionOpts logger s0)
    as (_ & _ & _ & _ & _ & A & B).
  split; assumption.
Qed.

End FullRun.

Lemma old_server_is_not_collected_witness :
  map (fun e => FullTrace.name (projT1 e))
    (trace (perform (FullSample.answers 90100)
              (Full.CollectFull (7, tt) [true; true; true; true; true; true] tt)
              tt))
  = ["postgres.GetPostgresVersion"; "postgres.CurrentDatabaseOid"].
Proof.
  refine (proj2 (old_server_is_not_collected unit (FullSample.answers 90100)
                   tt (7, tt) [true; true; true; true; true; true] tt
                   90100%Z _ _ _)); reflexivity.
Defined.

Lemma logs_are_read_when_all_else_succeeded_witness :
  Full.Logs
    (fst (returned (perform (FullSample.answers 90600)
                      (Full.CollectFull (7, tt)
                         [false; true; false; true; true; false] tt) tt)))
  = 11.
Proof.
  refine (proj1 (proj2 (proj2 (proj2 (proj2
            (logs_are_read_when_all_else_succeeded unit
               (FullSample.answers 90600) tt (7, tt)
               [false; true; false; true; true; false] tt tt 11 12 _))))));
    left; reflexivity.
Defined.

Lemma explain_runs_on_the_inputs_of_the_logs_witness :
  Full.Explains
    (fst (returned (perform (FullSample.answers 90600)
                      (Full.CollectFull (7, tt)
                         [true; true; true; true; true; true] tt) tt)))
  = 13.
Proof.
  refine (proj1 (proj2 (proj2 (proj2
            (explain_runs_on_the_inputs_of_the_logs unit
               (FullSample.answers 90600) tt (7, tt)
               [true; true; true; true; true; true] tt 7 12 13 _)))));
    left; reflexivity.
Defined.

(** ** Programs *)

Section ProgramFacts.

Variable call : Type.
Variable answer : call -> Type.


End ProgramFacts.

(** ** The goroutines of [CollectActivityFromAllServers] *)

Module ServersFacts.

Import Activity ActivityTrace Servers ServersTrace.

Section Run.

Context {P : Packages}.

Variable S : Type.
Variable h : forall c : call, S -> answer c * S.






End Run.

Section Loop.

Context {P : Packages}.

Variable S : Type.
Variable h : forall c : main_call, S -> main_answer c * S.
Variables disable valid enable : Server -> bool.

Hypothesis disable_read :
  forall server s, fst (h (Read_DisableActivity server) s) = disable server.
Hypothesis valid_read :
  forall server s, fst (h (Read_Grant_Valid server) s) = valid server.
Hypothesis enable_read :
  forall server s, fst (h (Read_Grant_EnableActivity server) s) = enable server.

Lemma loop_trace_skip (opts : CollectionOpts) (logger : Logger)
    (l : list Server) (e : Event main_call main_answer)
    (tr : list (Event main_call main_answer)) (b : bool) :
  started e = [] -> added e = [] ->
  loop_trace opts logger l tr b -> loop_trace opts logger l (e :: tr) b.
Proof.
  intros E1 E2 (A & B & pre & T). unfold loop_trace.
  cbn [flat_map]. rewrite E1, E2, A, B. repeat split.
  exists (e :: pre). now subst tr.
Qed.

Lemma loop_trace_start (opts : CollectionOpts) (logger : Logger)
    (l : list Server) (server : Server)
    (tr : list (Event main_call main_answer)) (b : bool) :
  loop_trace opts logger l tr b ->
  loop_trace opts logger (server :: l)
    (existT main_answer (Add 1) tt
     :: existT main_answer (Go (goroutine opts logger server)) tt :: tr) b.
Proof.
  intros (A & B & pre & T). unfold loop_trace.
  cbn [flat_map started added projT1 app map]. rewrite A, B. repeat split.
  exists (existT main_answer (Add 1) tt
          :: existT main_answer (Go (goroutine opts logger server)) tt :: pre).
  now subst tr.
Qed.

Lemma each_run (opts : CollectionOpts) (logger : Logger)
    (servers : list Server) (s : S) :
  loop_trace opts logger (filter (active disable valid enable) servers)
    (trace (perform h (each opts logger servers) s))
    (returned (perform h (each opts logger servers) s)).
Proof.
  revert s. induction servers as [|server rest IH]; intros s.
  - cbn [each perform]. destruct (h Wait s) as [[] s1].
    destruct (h Read_allSuccessful s1) as [b s2].
    repeat split. now exists [].
  - cbn [each perform filter].
    pose proof (disable_read server s) as D.
    destruct (h (Read_DisableActivity server) s) as [d s1]. cbn in D. subst d.
    destruct (disable server) eqn:Hd.
    + replace (active disable valid enable server) with false
        by (unfold active; now rewrite Hd).
      specialize (IH s1).
      destruct (perform h (each opts logger rest) s1) as [[b tr] s5].
      now apply loop_trace_skip.
    + cbn [perform]. pose proof (valid_read server s1) as V.
      destruct (h (Read_Grant_Valid server) s1) as [v s2]. cbn in V. subst v.
      destruct (valid server) eqn:Hv.
      * cbn [perform]. pose proof (enable_read server s2) as En.
        destruct (h (Read_Grant_EnableActivity server) s2) as [en s3].
        cbn in En. subst en.
        destruct (enable server) eqn:He;
          [replace (active disable valid enable server) with true
             by (unfold active; now rewrite Hd, Hv, He)
          |replace (active disable valid enable server) with false
             by (unfold active; now rewrite Hd, Hv, He)].
        -- cbn [perform negb]. destruct (h (Add 1) s3) as [[] s4].
           destruct (h (Go (goroutine opts logger server)) s4) as [[] s5]. specialize (IH s5).
           destruct (perform h (each opts logger rest) s5) as [[b tr] s6].
           repeat (apply loop_trace_skip; [reflexivity..|]).
           now apply loop_trace_start.
        -- cbn [perform negb]. specialize (IH s3).
           destruct (perform h (each opts logger rest) s3) as [[b tr] s5].
           now repeat (apply loop_trace_skip; [reflexivity..|]).
      * replace (active disable valid enable server) with true
          by (unfold active; now rewrite Hd, Hv).
        cbn [perform]. destruct (h (Add 1) s2) as [[] s4].
        destruct (h (Go (goroutine opts logger server)) s4) as [[] s5]. specialize (IH s5).
        destruct (perform h (each opts logger rest) s5) as [[b tr] s6].
        repeat (apply loop_trace_skip; [reflexivity..|]).
        now apply loop_trace_start.
Qed.

End Loop.

End ServersFacts.

Section GoroutineRun.

Import Activity ActivityTrace Servers ServersTrace.

Context {P : Packages}.

Variable S : Type.
Variable h : forall c : call, S -> answer c * S.
Variable s0 : S.
Variable globalCollectionOpts : CollectionOpts.
Variable logger : Logger.
Variable server : Server.

Local Abbreviation r :=
  (perform h (goroutine globalCollectionOpts logger server) s0).



End GoroutineRun.

(** X26.  When the configuration and the grants of the servers do not
    change while the loop runs, [CollectActivityFromAllServers] starts a
    goroutine for each server that has activity neither disabled in its
    configuration nor disabled by a valid grant, and for no other, in the
    order of the servers, and adds one to the wait group for each.  It sets
    [allSuccessful] to [true] first, waits after the last [go] statement,
    and returns what [allSuccessful] holds after the wait. *)
Theorem servers_without_activity_are_skipped {P : Activity.Packages}
    (S : Type)
    (h : forall c : Servers.main_call, S -> Servers.main_answer c * S)
    (disable valid enable : Activity.Server -> bool) (s0 : S)
    (servers : list Activity.Server)
    (globalCollectionOpts : Activity.CollectionOpts)
    (logger : Activity.Logger) :
  (forall server s,
     fst (h (Servers.Read_DisableActivity server) s) = disable server) ->
  (forall server s,
     fst (h (Servers.Read_Grant_Valid server) s) = valid server) ->
  (forall server s,
     fst (h (Servers.Read_Grant_EnableActivity server) s) = enable server) ->
  hd_error
    (trace (perform h
              (Servers.CollectActivityFromAllServers servers
                 globalCollectionOpts logger) s0))
  = Some (existT Servers.main_answer (Servers.Assign_allSuccessful true) tt) /\
  ServersTrace.loop_trace globalCollectionOpts logger
    (filter (ServersTrace.active disable valid enable) servers)
    (trace (perform h
              (Servers.CollectActivityFromAllServers servers
                 globalCollectionOpts logger) s0))
    (returned (perform h
                 (Servers.CollectActivityFromAllServers servers
                    globalCollectionOpts logger) s0)).
Proof.
  intros D V E. unfold Servers.CollectActivityFromAllServers.
  cbn [perform]. destruct (h (Servers.Assign_allSuccessful true) s0) as [[] s1].
  pose proof (ServersFacts.each_run S h disable valid enable D V E
                globalCollectionOpts logger servers s1) as H.
  destruct (perform h (Servers.each globalCollectionOpts logger servers) s1)
    as [[b tr] s2].
  split; [reflexivity|].
  now apply ServersFacts.loop_trace_skip.
Qed.

Lemma servers_without_activity_are_skipped_witness :
  flat_map ServersTrace.started
    (trace (perform ServersSample.answers
              (Servers.CollectActivityFromAllServers [0; 1; 2; 3]
                 (false, false) tt) tt))
  = map (Servers.goroutine (false, false) tt) [0; 3].
Proof.
  refine (proj1 (proj2 (servers_without_activity_are_skipped unit
                          ServersSample.answers
                          (fun server => Nat.eqb server 1)
                          (fun server => Nat.eqb server 2)
                          (fun _ => false) tt [0; 1; 2; 3] (false, false) tt
                          _ _ _)));
    intros; reflexivity.
Defined.

(** ** The process number *)

Module ProcessNumber.

Lemma rep_loop_keeps (I : list string -> Prop)
    (body : string -> list string -> cont -> option (list string)) (k : cont) :
  keeps I body ->
  forall fuel mn mx s caps res,
    I caps -> rep_loop body k fuel mn mx s caps = Some res ->
    exists s' caps', I caps' /\ k s' caps' = Some res.
Proof.
  intros B. induction fuel as [|fuel IH]; intros mn mx s caps res Ic H;
    [discriminate|].
  cbn [rep_loop] in H.
  set (k' := fun (s' : string) (caps' : list string) =>
               if (Nat.eqb mn 0 && Nat.eqb (String.length s') (String.length s))%bool
               then None
               else rep_loop body k fuel (pred mn) (option_map pred mx) s' caps')
    in H.
  assert (More : forall res',
             body s caps k' = Some res' ->
             exists s' caps', I caps' /\ k s' caps' = Some res').
  { intros res' E. destruct (B _ _ _ _ Ic E) as (mid & caps1 & I1 & K).
    unfold k' in K. destruct (_ && _)%bool; [discriminate|].
    exact (IH _ _ _ _ _ I1 K). }
  assert (Stop : (if Nat.eqb mn 0 then k s caps else None) = Some res ->
                 exists s' caps', I caps' /\ k s' caps' = Some res).
  { destruct (Nat.eqb mn 0); [|discriminate]. intros K. now exists s, caps. }
  destruct mx as [[|m]|].
  - now apply Stop.
  - destruct (body s caps k') as [res'|] eqn:E; [|now apply Stop].
    injection H as <-. now apply More.
  - destruct (body s caps k') as [res'|] eqn:E; [|now apply Stop].
    injection H as <-. now apply More.
Qed.

(** What a repetition of one class has passed over is in the class. *)
Lemma iter_class (l : list atom) (n mn : nat) (mx : option nat) (s s' : string) :
  iter (spans (One l) n) mn mx s s' ->
  String.length s' <= String.length s /\ all_in l (consumed s s') = true.
Proof.
  intros H. induction H as [mx s|mn mx s mid s' N Pm I [L A]].
  - split; [lia|]. unfold consumed. rewrite Nat.sub_diag. now destruct s.
  - destruct Pm as (c & -> & C). split; [simpl; lia|].
    unfold consumed in *. simpl String.length.
    replace (S (String.length mid) - String.length s')
      with (S (String.length mid - String.length s')) by lia.
    cbn [take all_in]. now rewrite C, A.
Qed.

Lemma nth_set_nth_same (i : nat) (v : string) (l : list string) :
  nth i (set_nth i v l) "" = v \/ nth i (set_nth i v l) "" = nth i l "".
Proof.
  destruct (Nat.lt_ge_cases i (List.length l)) as [H|H].
  - left. now apply ContentTail.nth_set_nth.
  - right. rewrite !nth_overflow; auto.
    now rewrite RegexpFacts.length_set_nth.
Qed.

(** The submatch of a group of digits is made of digits. *)
Lemma exec_digits (g : nat) (r : regex) (n : nat) :
  digit_group g r = true ->
  keeps (fun caps => all_in [Digit] (nth g caps "") = true) (exec r n).
Proof.
  induction r as [|l| | |r1 IH1 r2 IH2|mn mx r IH|i r IH];
    intros D s caps k res Ic H; cbn [exec digit_group] in *.
  - now exists s, caps.
  - destruct s as [|c s]; [discriminate|].
    destruct (class_matches l c); [|discriminate]. now exists s, caps.
  - destruct (Nat.eqb _ n); [|discriminate]. now exists s, caps.
  - destruct s; [|discriminate]. now exists "", caps.
  - apply andb_true_iff in D. destruct D as [D1 D2].
    destruct (IH1 D1 _ _ _ _ Ic H) as (mid & caps1 & I1 & K1).
    exact (IH2 D2 _ _ _ _ I1 K1).
  - exact (rep_loop_keeps _ _ k (IH D) _ _ _ _ _ _ Ic H).
  - revert D. destruct (Nat.eqb_spec i g) as [->|N]; intros D.
    + destruct r as [|l| | |a b|mn mx a|j a]; try discriminate.
      destruct a as [|l| | |a1 a2|mn mx a|j a]; try discriminate.
      destruct a as [|l| | |a1 a2|mn' mx' a|j a]; try discriminate.
      destruct l as [|[| | | | |c] [|x l]]; try discriminate.
      destruct b; try discriminate.
      destruct (RegexpFacts.exec_sound _ _ _ _ _ _ H)
        as (s' & caps' & S1 & L1 & K1).
      cbn [spans] in S1. destruct S1 as (mid & S1 & ->).
      apply (iter_class [Digit] n) in S1. destruct S1 as [_ A].
      exists mid, (set_nth g (consumed s mid) caps'). split; [|exact K1].
      destruct (Nat.lt_ge_cases g (List.length caps')) as [G|G].
      * now rewrite ContentTail.nth_set_nth.
      * rewrite nth_overflow; [reflexivity|].
        rewrite RegexpFacts.length_set_nth. lia.
    + destruct (IH D _ _ _ _ Ic H) as (s' & caps' & I1 & K1).
      exists s', (set_nth i (consumed s s') caps'). split; [|exact K1].
      rewrite ContentTail.nth_set_nth_other; auto.
Qed.

Lemma search_digits (r : Regexp) (g n : nat) (s : string) (caps : list string) :
  digit_group g (re r) = true -> g <> 0 ->
  search r n s = Some caps -> all_in [Digit] (nth g caps "") = true.
Proof.
  intros D G.
  assert (X : forall s res,
            exec (re r) n s (repeat "" (S (ngroups r)))
              (fun s' caps' => Some (set_nth 0 (consumed s s') caps'))
            = Some res -> all_in [Digit] (nth g res "") = true).
  { intros s0 res E.
    assert (I0 : all_in [Digit] (nth g (repeat "" (S (ngroups r))) "") = true).
    { destruct (Nat.lt_ge_cases g (S (ngroups r))) as [L|L].
      - now rewrite nth_repeat_lt by exact L.
      - now rewrite nth_overflow by (rewrite repeat_length; exact L). }
    destruct (exec_digits g _ n D _ _ _ _ I0 E) as (s' & caps' & I & K).
    - assert (R : res = set_nth 0 (consumed s0 s') caps')
        by exact (eq_sym (f_equal (fun o => match o with
                                            | Some x => x
                                            | None => res
                                            end) K)).
      subst res. now rewrite ContentTail.nth_set_nth_other. }
  induction s as [|c s IH]; cbn [search].
  - destruct (exec (re r) n "" _ _) as [res|] eqn:E; [|discriminate].
    intros H. injection H as <-. now apply X in E.
  - destruct (exec (re r) n (String c s) _ _) as [res|] eqn:E.
    + intros H. injection H as <-. now apply X in E.
    + exact IH.
Qed.

Lemma part_digits (r : Regexp) (g : nat) (s : string) :
  digit_group g (re r) = true -> g <> 0 ->
  all_in [Digit] (part (FindStringSubmatch r s) g) = true.
Proof.
  intros D G. unfold FindStringSubmatch, part.
  destruct (search r (String.length s) s) as [caps|] eqn:E.
  - now apply (search_digits r g) in E.
  - now destruct g.
Qed.

(** *** [strconv.Atoi] on digits *)

Lemma digit_value (c : ascii) :
  is_digit c = true -> (0 <= Z.of_N (N_of_ascii c) - 48 <= 9)%Z.
Proof.
  unfold is_digit, byte_in. intros H. apply andb_true_iff in H.
  destruct H as [A B]. apply N.leb_le in A, B. lia.
Qed.

Lemma class_digit (c : ascii) : class_matches [Digit] c = is_digit c.
Proof. unfold class_matches. simpl. apply orb_false_r. Qed.

Lemma decimal_from_le (n : Z) (s : string) :
  all_in [Digit] s = true -> (0 <= n)%Z -> (n <= decimal_from n s)%Z.
Proof.
  revert n. induction s as [|c s IH]; intros n A N; [simpl; lia|].
  cbn [all_in] in A. apply andb_true_iff in A. destruct A as [C A].
  rewrite class_digit in C. pose proof (digit_value c C) as V.
  cbn [decimal_from].
  specialize (IH (10 * n + (Z.of_N (N_of_ascii c) - 48))%Z A). lia.
Qed.

Lemma ParseUint_from_digits (n : Z) (s : string) :
  all_in [Digit] s = true -> (0 <= n < 2 ^ 64)%Z ->
  ParseUint_from n s
  = if (2 ^ 64 <=? decimal_from n s)%Z then ErrRange else Num (decimal_from n s).
Proof.
  revert n. induction s as [|c s IH]; intros n A N.
  - cbn [ParseUint_from decimal_from].
    destruct (Z.leb_spec (2 ^ 64) n); [lia|reflexivity].
  - cbn [all_in] in A. apply andb_true_iff in A. destruct A as [C A].
    rewrite class_digit in C. pose proof (digit_value c C) as V.
    cbn [ParseUint_from decimal_from]. rewrite C.
    set (n1 := (10 * n + (Z.of_N (N_of_ascii c) - 48))%Z) in *.
    destruct (Z.leb_spec (2 ^ 64) n1) as [L|L].
    + pose proof (decimal_from_le n1 s A ltac:(lia)).
      destruct (Z.leb_spec (2 ^ 64) (decimal_from n1 s)); [reflexivity|lia].
    + apply IH; [exact A|lia].
Qed.

Lemma Atoi_digits (s : string) :
  all_in [Digit] s = true -> Atoi s = Z.min (decimal s) MaxInt64.
Proof.
  intros A. unfold Atoi, decimal.
  destruct s as [|c s]; [reflexivity|].
  assert (C : is_digit c = true).
  { cbn [all_in] in A. apply andb_true_iff in A. destruct A as [C _].
    now rewrite class_digit in C. }
  assert (E : (match String c s with
               | String "+" s' => (false, s')
               | String "-" s' => (true, s')
               | _ => (false, String c s)
               end) = (false, String c s)).
  { destruct c as [[|] [|] [|] [|] [|] [|] [|] [|]]; try reflexivity;
      discriminate C. }
  rewrite E. unfold ParseUint.
  rewrite ParseUint_from_digits by (auto; lia).
  pose proof (decimal_from_le 0 (String c s) A ltac:(lia)) as P.
  unfold MaxInt64.
  destruct (Z.leb_spec (2 ^ 64) (decimal_from 0 (String c s))) as [L|L].
  - lia.
  - cbn [negb andb]. destruct (Z.leb_spec (2 ^ 63) (decimal_from 0 (String c s))); lia.
Qed.

End ProcessNumber.

Lemma extract_pid_digits {W : World} (prefix : string) (rsyslog : bool)
    (line : string) (v : Locals) :
  extract prefix rsyslog line = Some v ->
  all_in [Digit] (pidPart (parts_of v)) = true.
Proof.
  unfold extract. destruct rsyslog.
  - unfold extract_rsyslog. destruct (Nat.eqb _ 0); [discriminate|].
    intros H. injection H as <-. cbn [parts_of].
    destruct (Nat.eqb _ 6); cbn [pidPart];
      (apply ProcessNumber.part_digits; [vm_compute; reflexivity|discriminate]).
  - unfold grammar.
    repeat match goal with
           | |- (if ?b then _ else _) = _ -> _ => destruct b
           end;
      try discriminate;
      intros H; injection H as <-; cbn [parts_of pidPart];
      try (apply ProcessNumber.part_digits;
           [vm_compute; reflexivity | discriminate]).
    reflexivity.
Qed.

(** X27.  The process number of a result is the number that the digits of
    the [%p] field of the line write: the grammars take digits only for
    it, so that [strconv.Atoi] meets no syntax error, and its result, which
    is capped at the largest [int] when the number is out of range, is
    converted to [int32].  A number below 2^31 is the process number as it
    is; a number of 2^63 or more gives -1. *)
Theorem backend_pid_is_the_number_in_the_line {W : World}
    (prefix line : string) (v : Locals) (t : Time) :
  locals prefix line = Some v ->
  parse_time (timeFormat v) (timeFormatAlt v) (timePart (parts_of v)) = Some t ->
  all_in [Digit] (pidPart (parts_of v)) = true /\
  BackendPid (fst (ParseLogLineWithPrefix prefix line))
  = int32 (Z.min (decimal (pidPart (parts_of v))) MaxInt64) /\
  ((decimal (pidPart (parts_of v)) < 2 ^ 31)%Z ->
   BackendPid (fst (ParseLogLineWithPrefix prefix line))
   = decimal (pidPart (parts_of v))) /\
  ((2 ^ 63 <= decimal (pidPart (parts_of v)))%Z ->
   BackendPid (fst (ParseLogLineWithPrefix prefix line)) = (-1)%Z).
Proof.
  intros L T.
  assert (A : all_in [Digit] (pidPart (parts_of v)) = true).
  { unfold locals in L.
    destruct (if prefix =? "" then detect line else (prefix, false)) as [p rs].
    now apply extract_pid_digits in L. }
  assert (B : BackendPid (fst (ParseLogLineWithPrefix prefix line))
              = int32 (Z.min (decimal (pidPart (parts_of v))) MaxInt64)).
  { unfold ParseLogLineWithPrefix. rewrite L. unfold finish. rewrite T.
    rewrite <- (ProcessNumber.Atoi_digits _ A).
    now destruct (levelPart (parts_of v) =? ""). }
  pose proof (ProcessNumber.decimal_from_le 0 _ A ltac:(lia)) as P.
  fold (decimal (pidPart (parts_of v))) in P.
  split; [exact A|]. split; [exact B|]. rewrite B. split; intros H.
  - rewrite Z.min_l by (unfold MaxInt64; lia).
    unfold int32, wrap. change (2 ^ (32 - 1))%Z with 2147483648%Z.
    change (2 ^ 32)%Z with 4294967296%Z.
    rewrite Z.mod_small by lia. lia.
  - rewrite Z.min_r by (unfold MaxInt64; lia). reflexivity.
Qed.

Lemma backend_pid_is_the_number_in_the_line_witness :
  BackendPid (fst (ParseLogLineWithPrefix "" Samples.later)) = 124%Z.
Proof.
  destruct (locals (W := GoWorld.world) "" Samples.later) as [v|] eqn:E.
  2: { exfalso.
       assert (X : option_map (fun _ => tt) (locals "" Samples.later) = Some tt)
         by (vm_compute; reflexivity).
       rewrite E in X. discriminate X. }
  assert (Pd : pidPart (parts_of v) = "124").
  { assert (L : option_map (fun v => pidPart (parts_of v))
                  (locals "" Samples.later) = Some "124")
      by (vm_compute; reflexivity).
    rewrite E in L. simpl in L. now injection L. }
  assert (T : parse_time (timeFormat v) (timeFormatAlt v) (timePart (parts_of v))
              = Some (1514808005, 0)%Z).
  { assert (L : option_map (fun v =>
                    parse_time (timeFormat v) (timeFormatAlt v)
                      (timePart (parts_of v)))
                  (locals "" Samples.later) = Some (Some (1514808005, 0)%Z))
      by (vm_compute; reflexivity).
    rewrite E in L. simpl in L. now injection L. }
  destruct (backend_pid_is_the_number_in_the_line (W := GoWorld.world)
              "" Samples.later v (1514808005, 0)%Z E T) as (_ & _ & Small & _).
  rewrite Small; rewrite Pd; reflexivity.
Defined.
